(** * iq-agent: the trading environment, its backtest simulator and event bus

    A shallow embedding of the TypeScript sources

      - [bot/infra/wallet.ts]        (module [Wallet])
      - [env/state.ts]               (module [EnvironmentState])
      - [events/bus.ts]              (module [EventBus])
      - [env/sensors.ts]             (module [SensorManager])
      - [env/actions.ts], [env/environment.ts]
                                     (modules [ActionExecutor], [TradingEnvironment])
      - [backtest/environment.ts]    (module [BacktestEnvironment])
      - [backtest/runner.ts]         (module [BacktestRunner])

    followed by the properties of the specification that were checked
    against them.

    Conventions of the embedding.

    - A JavaScript [number] that carries money or a price is an exact
      rational ([Qc]); one that carries a time stamp, an identifier or a
      counter is an integer ([Z]).  The rounding of binary64 arithmetic
      is left out there; where it decides a property, the wallet is
      taken in binary64 itself (module [Binary64]).
    - Objects are records, mutation is explicit state passing: a method
      [m(args)] of class [C] is a function [C.m args : C.t -> C.t] (with
      a result where the method returns one).
    - Calls that leave the process (the persistence function of the
      event bus, the recording of resolved trades, the hooks of the
      agent) are recorded, in call order, in a trace field of the object
      that makes them. *)

From Stdlib Require Import ZArith QArith Qcanon Qround Lia Lqa.
From Stdlib Require SpecFloat.
From stdpp Require Import base numbers option list strings pretty gmap sorting.

Local Open Scope Z_scope.

(** ** Numbers *)

(** The rational [a / b]. *)
Definition num (a : Z) (b : positive) : Qc := Q2Qc (a # b).

(** An integer used as a rational. *)
Definition int (a : Z) : Qc := Q2Qc (inject_Z a).

(** ** Domain types ([types/index.ts], [env/types.ts], [backtest/types.ts]) *)

Inductive Direction := Call | Put.

#[global] Instance Direction_eq_dec : EqDecision Direction.
Proof. solve_decision. Defined.

Definition directionName (d : Direction) : string :=
  match d with Call => "call" | Put => "put" end.

Module Candle.
Record t := mk {
  id : Z;
  from : Z;
  to : Z;
  open : Qc;
  close : Qc;
  min : Qc;
  max : Qc;
  volume : Qc;
  active_id : Z;
  size : Z
}.

#[global] Instance eq_dec : EqDecision t.
Proof. solve_decision. Defined.
End Candle.

Module Position.
Record t := mk {
  id : Z;
  active_id : Z;
  direction : Direction;
  invest : Qc;
  open_quote : Qc;
  open_time : Z;
  expiration_time : Z;
  status : string;
  close_quote : Qc;
  close_reason : string;
  close_time : Z;
  (* [pnl] is optional in the source ([pos.pnl || 0]) *)
  pnl : option Qc;
  pnl_realized : option Qc
}.

#[global] Instance eq_dec : EqDecision t.
Proof. solve_decision. Defined.
End Position.

Module BlitzOptionConfig.
Record t := mk {
  active_id : Z;
  is_enabled : bool;
  is_suspended : bool;
  minimal_bet : Qc;
  profit_commission : option Qc
}.

#[global] Instance eq_dec : EqDecision t.
Proof. solve_decision. Defined.
End BlitzOptionConfig.

Module PendingTrade.
Record t := mk {
  id : Z;
  direction : Direction;
  activeId : Z;
  invest : Qc;
  openQuote : Qc;
  openTime : Z;
  expirationTime : Z;
  expirationSize : Z;
  profitPercent : Qc
}.

#[global] Instance eq_dec : EqDecision t.
Proof. solve_decision. Defined.
End PendingTrade.

Inductive SensorType := SCandle | SMood | SPosition | SOrder | SBalance.

#[global] Instance SensorType_eq_dec : EqDecision SensorType.
Proof. solve_decision. Defined.

Definition sensorTypeName (t : SensorType) : string :=
  match t with
  | SCandle => "candle" | SMood => "mood" | SPosition => "position"
  | SOrder => "order" | SBalance => "balance"
  end.

Module Sensor.
(** [params] is a [Record<string, unknown>] read at the keys
    [active_id], [size], [user_id] and [balance_id]; a missing key
    reads as [undefined]. *)
Record t := mk {
  id : string;
  type : SensorType;
  params : gmap string Z
}.

#[global] Instance eq_dec : EqDecision t.
Proof. solve_decision. Defined.
End Sensor.

(** What a sensor buffer holds ([unknown[]] in the source). *)
Inductive SensorItem :=
  | ItemCandle (c : Candle.t)
  | ItemMood (m : Qc)
  | ItemPosition (p : Position.t)
  | ItemOrder (orderId : Z).

#[global] Instance SensorItem_eq_dec : EqDecision SensorItem.
Proof. solve_decision. Defined.

(** [(item as Candle).from]: [undefined] on anything but a candle. *)
Definition itemFrom (i : SensorItem) : option Z :=
  match i with ItemCandle c => Some (Candle.from c) | _ => None end.

Module TradePayload.
Record t := mk {
  activeId : Z;
  direction : Direction;
  price : Qc;
  balanceId : Z;
  expirationSize : Z;
  profitPercent : option Qc;
  currentPrice : option Qc
}.

#[global] Instance eq_dec : EqDecision t.
Proof. solve_decision. Defined.
End TradePayload.

Module QueryPayload.
Record t := mk {
  method : string;
  params : gmap string Z
}.

#[global] Instance eq_dec : EqDecision t.
Proof. solve_decision. Defined.
End QueryPayload.

(** An [Action] is [{type, payload}]; the payload is cast by the
    executor according to [type].  [AOther ty] is an action whose type
    is none of the four the executors know. *)
Inductive Action :=
  | ATrade (p : TradePayload.t)
  | ASubscribe (s : Sensor.t)
  | AUnsubscribe (sensorId : string)
  | AQuery (q : QueryPayload.t)
  | AOther (ty : string).

#[global] Instance Action_eq_dec : EqDecision Action.
Proof. solve_decision. Defined.

Definition actionType (a : Action) : string :=
  match a with
  | ATrade _ => "trade"
  | ASubscribe _ => "subscribe"
  | AUnsubscribe _ => "unsubscribe"
  | AQuery _ => "query"
  | AOther ty => ty
  end.

(** The value found where a buffer capacity is expected.  The sources
    compare [buffer.length > maxBufferSize]; the right operand is a
    number wherever the field is initialised from a literal, and an
    object reference where [TradingEnvironment] passes its account
    facade in that position.  An object without numeric conversion
    coerces to [NaN], and every comparison with [NaN] is false. *)
Inductive Capacity := Limit (n : Z) | ObjectRef.

(** [len > maxBufferSize] *)
Definition lengthExceeds (len : nat) (c : Capacity) : bool :=
  match c with
  | Limit n => bool_decide (n < Z.of_nat len)
  | ObjectRef => false
  end.

(** [arr.push(x); if (arr.length > maxBufferSize) arr.shift()] *)
Definition pushShift {A} (c : Capacity) (x : A) (arr : list A) : list A :=
  let arr' := arr ++ [x] in
  if lengthExceeds (length arr') c then tail arr' else arr'.

(** What an action yields ([unknown] in the source). *)
Inductive ActionOutput :=
  | Undefined
  | Positions (l : list Position.t)
  | Balances (l : list (Z * Qc * string))
  | Assets (l : list BlitzOptionConfig.t)
  | Mood (m : Qc)
  | Candles (l : list Candle.t)
  | FacadeReply (v : Z).

(** The [Error]s thrown while an action executes. *)
Inductive ActionError :=
  | CannotAfford (need have : Qc)
  | UnknownActionType (ty : string)
  | UnknownQueryMethod (method : string)
  | FacadeError (message : string).

Module ActionResult.
(** [{actionIndex, type, result}] or [{actionIndex, type, error}] *)
Record t := mk {
  actionIndex : nat;
  type : string;
  outcome : ActionError + ActionOutput
}.
End ActionResult.

(** ** [bot/infra/wallet.ts]

    Amounts are exact here; module [Binary64.Wallet] below has the same
    class on the numbers of the code. *)

Module Wallet.
Inductive Mode := Virtual | Real.

(** [bustCallback] tells whether a callback was installed with
    [onBust]; the only callback the sources install raises the
    runner's [busted] flag, which is kept here as [busted]. *)
Record t := mk {
  mode : Mode;
  balance : Qc;
  peak : Qc;
  maxDrawdown : Qc;
  bustCallback : bool;
  busted : bool
}.

Definition create (m : Mode) (initialBalance : Qc) : t :=
  mk m initialBalance initialBalance 0%Qc false false.

Definition getBalance (w : t) : Qc := balance w.

Definition canAfford (amount : Qc) (w : t) : bool :=
  bool_decide (amount <= balance w)%Qc.

Definition debit (amount : Qc) (w : t) : t :=
  let b := (balance w - amount)%Qc in
  let dd := (peak w - b)%Qc in
  {| mode := mode w;
     balance := b;
     peak := peak w;
     maxDrawdown := if bool_decide (maxDrawdown w < dd)%Qc then dd else maxDrawdown w;
     bustCallback := bustCallback w;
     busted := busted w || (bool_decide (b <= 0)%Qc && bustCallback w) |}.

Definition credit (amount : Qc) (w : t) : t :=
  let b := (balance w + amount)%Qc in
  {| mode := mode w;
     balance := b;
     peak := if bool_decide (peak w < b)%Qc then b else peak w;
     maxDrawdown := maxDrawdown w;
     bustCallback := bustCallback w;
     busted := busted w |}.

Definition getDrawdown (w : t) : Qc := (peak w - balance w)%Qc.
Definition getMaxDrawdown (w : t) : Qc := maxDrawdown w.
Definition getPeak (w : t) : Qc := peak w.

Definition onBust (w : t) : t :=
  {| mode := mode w; balance := balance w; peak := peak w;
     maxDrawdown := maxDrawdown w; bustCallback := true; busted := busted w |}.
End Wallet.

(** ** The wallet in the arithmetic of the code

    A JavaScript [number] is an IEEE 754 binary64 value, and [+], [-]
    and [/] round their exact result to the nearest one, ties to even.
    [SpecFloat] of the Standard Library defines these operations on
    [spec_float]; binary64 has a precision of 53 bits and exponents
    below 1024. *)

Module Binary64.
Definition number : Type := SpecFloat.spec_float.

Definition prec : Z := 53.
Definition emax : Z := 1024.

Definition add (x y : number) : number := SpecFloat.SFadd prec emax x y.
Definition sub (x y : number) : number := SpecFloat.SFsub prec emax x y.

Definition leb (x y : number) : bool := SpecFloat.SFleb x y.
Definition gtb (x y : number) : bool := SpecFloat.SFltb y x.
Definition geb (x y : number) : bool := SpecFloat.SFleb y x.

(** The number an integer literal denotes. *)
Definition int (z : Z) : number := SpecFloat.binary_normalize prec emax z 0 false.


Definition Mode : Type := Wallet.Mode.

(** [bot/infra/wallet.ts], as module [Wallet] above has it, on
    binary64 numbers. *)
Module Wallet.
Record t := mk {
  mode : Mode;
  balance : number;
  peak : number;
  maxDrawdown : number;
  bustCallback : bool;
  busted : bool
}.

Definition create (m : Mode) (initialBalance : number) : t :=
  mk m initialBalance initialBalance (int 0) false false.

Definition getBalance (w : t) : number := balance w.

Definition canAfford (amount : number) (w : t) : bool := geb (balance w) amount.

Definition debit (amount : number) (w : t) : t :=
  let b := sub (balance w) amount in
  let dd := sub (peak w) b in
  {| mode := mode w;
     balance := b;
     peak := peak w;
     maxDrawdown := if gtb dd (maxDrawdown w) then dd else maxDrawdown w;
     bustCallback := bustCallback w;
     busted := busted w || (leb b (int 0) && bustCallback w) |}.

Definition credit (amount : number) (w : t) : t :=
  let b := add (balance w) amount in
  {| mode := mode w;
     balance := b;
     peak := if gtb b (peak w) then b else peak w;
     maxDrawdown := maxDrawdown w;
     bustCallback := bustCallback w;
     busted := busted w |}.

Definition getDrawdown (w : t) : number := sub (peak w) (balance w).
Definition getMaxDrawdown (w : t) : number := maxDrawdown w.
Definition getPeak (w : t) : number := peak w.
End Wallet.
End Binary64.

(** ** [env/state.ts] *)

Module EnvironmentState.
Record t := mk {
  balance : Qc;
  openPositions : list Position.t;
  closedCount : Z;
  winCount : Z;
  lossCount : Z;
  totalPnl : Qc;
  drawdown : Qc;
  maxDrawdown : Qc;
  peak : Qc;
  streak : Z;
  recentClosed : list Position.t;
  availableAssets : list BlitzOptionConfig.t;
  serverTime : Z
}.

Definition maxRecentClosed : Z := 50.

(** [new EnvironmentState()] *)
Definition create : t :=
  mk 0%Qc [] 0 0 0 0%Qc 0%Qc 0%Qc 0%Qc 0 [] [] 0.

Definition set_balance (b : Qc) (s : t) : t :=
  mk b (openPositions s) (closedCount s) (winCount s) (lossCount s)
     (totalPnl s) (drawdown s) (maxDrawdown s) (peak s) (streak s)
     (recentClosed s) (availableAssets s) (serverTime s).

Definition set_availableAssets (a : list BlitzOptionConfig.t) (s : t) : t :=
  mk (balance s) (openPositions s) (closedCount s) (winCount s) (lossCount s)
     (totalPnl s) (drawdown s) (maxDrawdown s) (peak s) (streak s)
     (recentClosed s) a (serverTime s).

Definition set_serverTime (ts : Z) (s : t) : t :=
  mk (balance s) (openPositions s) (closedCount s) (winCount s) (lossCount s)
     (totalPnl s) (drawdown s) (maxDrawdown s) (peak s) (streak s)
     (recentClosed s) (availableAssets s) ts.

(** The [open] branch: replace the position with the same id, or
    append. *)
Definition upsert (pos : Position.t) (l : list Position.t) : list Position.t :=
  match list_find (fun p => Position.id p = Position.id pos) l with
  | Some (existing, _) => <[existing := pos]> l
  | None => l ++ [pos]
  end.

Definition onPositionChanged (pos : Position.t) (s : t) : t :=
  if bool_decide (Position.status pos = "open") then
    mk (balance s) (upsert pos (openPositions s)) (closedCount s) (winCount s)
       (lossCount s) (totalPnl s) (drawdown s) (maxDrawdown s) (peak s)
       (streak s) (recentClosed s) (availableAssets s) (serverTime s)
  else if bool_decide (Position.status pos = "closed") then
    let openPositions' :=
      filter (fun p => Position.id p ≠ Position.id pos) (openPositions s) in
    let closedCount' := closedCount s + 1 in
    let totalPnl' := (totalPnl s + default 0%Qc (Position.pnl pos))%Qc in
    let isWin := bool_decide (Position.close_reason pos = "win") in
    let winCount' := if isWin then winCount s + 1 else winCount s in
    let lossCount' := if isWin then lossCount s else lossCount s + 1 in
    let streak' :=
      if isWin then (if bool_decide (0 < streak s) then streak s + 1 else 1)
      else (if bool_decide (streak s < 0) then streak s - 1 else -1) in
    let peak' := if bool_decide (peak s < totalPnl')%Qc then totalPnl' else peak s in
    let drawdown' := (peak' - totalPnl')%Qc in
    let maxDrawdown' :=
      if bool_decide (maxDrawdown s < drawdown')%Qc then drawdown' else maxDrawdown s in
    mk (balance s) openPositions' closedCount' winCount' lossCount' totalPnl'
       drawdown' maxDrawdown' peak' streak'
       (pushShift (Limit maxRecentClosed) pos (recentClosed s))
       (availableAssets s) (serverTime s)
  else s.

(** [snapshot()] copies every field; the copy is the record itself. *)
Definition snapshot (s : t) : t := s.
End EnvironmentState.

(** ** [events/bus.ts] *)

Module EventBus.
Inductive Payload :=
  | TradePlaced (activeId : Z) (direction : Direction) (amount : Qc) (expirationSize : Z)
  | TradeClosed (positionId : Z) (direction : Direction) (result : string) (pnl invest : Qc)
  | PositionChanged (positionId : Z) (status : string) (activeId : Z)
  | WalletChanged (balance previousBalance : Qc) (reason : string)
  | RunStarted (agentType agentId : string)
  | RunStopped (reason : string) (totalTrades : Z) (pnl : Qc)
  | WsReconnected
  | ActionExecuted (actionType : string) (payload : Action)
  | ActionFailed (actionType : string) (payload : Action) (error : ActionError)
  | AgentEvent (message : string).

Record TradingEvent := mkEvent {
  eventRunId : string;
  type : string;
  timestamp : Z;
  payload : Payload
}.

(** Listeners and persistence functions are closures; they are known
    here by an identity, and what they are called with is recorded in
    [delivered] and [persisted]. *)
Definition Handler := nat.
Definition PersistFn := nat.

(** [timeFn] holds what a call of the clock closure returns now. *)
Record t := mk {
  listeners : gmap string (list Handler);
  persistFn : option PersistFn;
  buffer : list TradingEvent;
  runId : string;
  timeFn : Z;
  persisted : list (PersistFn * TradingEvent);
  delivered : list (Handler * TradingEvent)
}.

Definition create (runId : string) (now : Z) : t :=
  mk ∅ None [] runId now [] [].

Definition set_timeFn (now : Z) (b : t) : t :=
  mk (listeners b) (persistFn b) (buffer b) (runId b) now (persisted b) (delivered b).

Definition handlersOf (ty : string) (b : t) : list Handler :=
  default [] (listeners b !! ty).

Definition emit (ty : string) (p : Payload) (b : t) : t :=
  let event := mkEvent (runId b) ty (timeFn b) p in
  let calls := (fun h => (h, event)) <$> (handlersOf ty b ++ handlersOf "*" b) in
  match persistFn b with
  | Some fn =>
      mk (listeners b) (persistFn b) (buffer b) (runId b) (timeFn b)
         (persisted b ++ [(fn, event)]) (delivered b ++ calls)
  | None =>
      mk (listeners b) (persistFn b) (buffer b ++ [event]) (runId b) (timeFn b)
         (persisted b) (delivered b ++ calls)
  end.

(** [Set.add]: insertion order, no duplicates. *)
Definition setAdd (h : Handler) (s : list Handler) : list Handler :=
  if bool_decide (h ∈ s) then s else s ++ [h].

Definition on (ty : string) (h : Handler) (b : t) : t :=
  mk (<[ty := setAdd h (handlersOf ty b)]> (listeners b)) (persistFn b) (buffer b)
     (runId b) (timeFn b) (persisted b) (delivered b).

(** The function returned by [on]. *)
Definition off (ty : string) (h : Handler) (b : t) : t :=
  mk (<[ty := filter (fun h' => h' ≠ h) (handlersOf ty b)]> (listeners b))
     (persistFn b) (buffer b) (runId b) (timeFn b) (persisted b) (delivered b).

Definition setPersist (fn : PersistFn) (b : t) : t :=
  mk (listeners b) (Some fn) [] (runId b) (timeFn b)
     (persisted b ++ ((fun e => (fn, e)) <$> buffer b)) (delivered b).

Definition getRunId (b : t) : string := runId b.
End EventBus.

(** ** [env/sensors.ts] *)

Module SensorManager.
(** Calls made on the candles, trading and subscriptions facades. *)
Inductive FacadeCall :=
  | SubscribeCandles (activeId size : option Z)
  | UnsubscribeCandles (activeId size : option Z)
  | SubscribeTradersMood (activeId : option Z)
  | SubscribePositions (userId balanceId : option Z)
  | SubscribeOrders (userId : option Z).

Definition UpdateCallback := nat.

Record t := mk {
  activeSensors : gmap string Sensor.t;
  sensorData : gmap string (list SensorItem);
  updateCallbacks : list UpdateCallback;
  maxBufferSize : Capacity;
  facade : list FacadeCall;
  updates : list (UpdateCallback * string * SensorItem)
}.

(** [new SensorManager(candles, trading, subscriptions, maxBufferSize)];
    the default of the last parameter is [100]. *)
Definition create (maxBufferSize : option Capacity) : t :=
  mk ∅ ∅ [] (default (Limit 100) maxBufferSize) [] [].

Definition set_sensorData (d : gmap string (list SensorItem)) (m : t) : t :=
  mk (activeSensors m) d (updateCallbacks m) (maxBufferSize m) (facade m) (updates m).

Definition notify (sensorId : string) (data : SensorItem) (m : t) : t :=
  mk (activeSensors m) (sensorData m) (updateCallbacks m) (maxBufferSize m) (facade m)
     (updates m ++ ((fun cb => (cb, sensorId, data)) <$> updateCallbacks m)).

Definition subscribe (sensor : Sensor.t) (m : t) : t :=
  match activeSensors m !! Sensor.id sensor with
  | Some _ => m
  | None =>
      let p := Sensor.params sensor in
      let call :=
        match Sensor.type sensor with
        | SCandle => [SubscribeCandles (p !! "active_id") (p !! "size")]
        | SMood => [SubscribeTradersMood (p !! "active_id")]
        | SPosition => [SubscribePositions (p !! "user_id") (p !! "balance_id")]
        | SOrder => [SubscribeOrders (p !! "user_id")]
        | SBalance => []
        end in
      mk (<[Sensor.id sensor := sensor]> (activeSensors m))
         (<[Sensor.id sensor := []]> (sensorData m))
         (updateCallbacks m) (maxBufferSize m) (facade m ++ call) (updates m)
  end.

Definition unsubscribe (sensorId : string) (m : t) : t :=
  match activeSensors m !! sensorId with
  | None => m
  | Some sensor =>
      let p := Sensor.params sensor in
      let call :=
        match Sensor.type sensor with
        | SCandle => [UnsubscribeCandles (p !! "active_id") (p !! "size")]
        | _ => []
        end in
      mk (delete sensorId (activeSensors m)) (delete sensorId (sensorData m))
         (updateCallbacks m) (maxBufferSize m) (facade m ++ call) (updates m)
  end.

Definition getLatest (sensorId : string) (m : t) : list SensorItem :=
  default [] (sensorData m !! sensorId).

Definition getAllData (m : t) : gmap string (list SensorItem) := sensorData m.

Definition onUpdate (cb : UpdateCallback) (m : t) : t :=
  mk (activeSensors m) (sensorData m) (EventBus.setAdd cb (updateCallbacks m))
     (maxBufferSize m) (facade m) (updates m).

Definition offUpdate (cb : UpdateCallback) (m : t) : t :=
  mk (activeSensors m) (sensorData m) (filter (fun c => c ≠ cb) (updateCallbacks m))
     (maxBufferSize m) (facade m) (updates m).

Definition pushData (sensorId : string) (data : SensorItem) (m : t) : t :=
  match sensorData m !! sensorId with
  | None => m
  | Some buffer =>
      notify sensorId data
        (set_sensorData (<[sensorId := pushShift (maxBufferSize m) data buffer]> (sensorData m)) m)
  end.

(** The candle buffer after [pushCandle]: the last entry is replaced
    when it has the same [from], else the candle is pushed. *)
Definition candleInto (c : Capacity) (candle : Candle.t) (buffer : list SensorItem)
  : list SensorItem :=
  match last buffer with
  | Some lastItem =>
      if bool_decide (itemFrom lastItem = Some (Candle.from candle))
      then <[pred (length buffer) := ItemCandle candle]> buffer
      else pushShift c (ItemCandle candle) buffer
  | None => pushShift c (ItemCandle candle) buffer
  end.

Definition pushCandle (sensorId : string) (candle : Candle.t) (m : t) : t :=
  match sensorData m !! sensorId with
  | None => m
  | Some buffer =>
      notify sensorId (ItemCandle candle)
        (set_sensorData (<[sensorId := candleInto (maxBufferSize m) candle buffer]> (sensorData m)) m)
  end.

Definition prefill (sensorId : string) (data : list SensorItem) (m : t) : t :=
  match sensorData m !! sensorId with
  | None => m
  | Some buffer =>
      set_sensorData
        (<[sensorId := foldl (fun b item => pushShift (maxBufferSize m) item b) buffer data]>
           (sensorData m)) m
  end.

Definition candleId (activeId size : Z) : string :=
  "candle:" +:+ pretty activeId +:+ ":" +:+ pretty size.

Definition moodId (activeId : Z) : string := "mood:" +:+ pretty activeId.

Definition positionId (balanceId : Z) : string := "position:" +:+ pretty balanceId.
End SensorManager.

(** ** [env/actions.ts] and [env/environment.ts]: the live environment *)

(** The venue behind the facades of [api/]: what a call answers and how
    the venue moves on.  A rejected call answers with an error. *)
Class Venue (W : Type) := {
  buyBlitzOption : TradePayload.t → W → (ActionError + ActionOutput) * W;
  facadeQuery : QueryPayload.t → W → (ActionError + ActionOutput) * W
}.

Module ActionExecutor.
Section WithVenue.
Context {W : Type} `{Venue W}.

Definition executeTrade (payload : TradePayload.t) (w : W)
  : (ActionError + ActionOutput) * W :=
  buyBlitzOption payload w.

Definition knownMethods : list string :=
  ["getPositions"; "getOrders"; "getHistory"; "getBalances"; "getAssets";
   "getTradersMood"; "getCandles"].

Definition executeQuery (payload : QueryPayload.t) (w : W)
  : (ActionError + ActionOutput) * W :=
  if bool_decide (QueryPayload.method payload ∈ knownMethods)
  then facadeQuery payload w
  else (inl (UnknownQueryMethod (QueryPayload.method payload)), w).

Definition execute (action : Action) (st : SensorManager.t * W)
  : (ActionError + ActionOutput) * (SensorManager.t * W) :=
  let '(sensors, w) := st in
  match action with
  | ATrade payload =>
      let '(r, w') := executeTrade payload w in (r, (sensors, w'))
  | ASubscribe sensor => (inr Undefined, (SensorManager.subscribe sensor sensors, w))
  | AUnsubscribe sensorId =>
      (inr Undefined, (SensorManager.unsubscribe sensorId sensors, w))
  | AQuery payload =>
      let '(r, w') := executeQuery payload w in (r, (sensors, w'))
  | AOther ty => (inl (UnknownActionType ty), st)
  end.
End WithVenue.
End ActionExecutor.

Module TradingEnvironment.
Section WithVenue.
Context {W : Type} `{Venue W}.

Record t := mk {
  sensors : SensorManager.t;
  state : EnvironmentState.t;
  eventBus : option EventBus.t;
  venue : W
}.

(** The constructor.  [new SensorManager(candles, trading,
    subscriptions, account)]: the fourth argument, which the manager
    takes as [maxBufferSize], is the account facade. *)
Definition create (w : W) : t :=
  mk (SensorManager.create (Some ObjectRef)) EnvironmentState.create None w.

Definition setEventBus (bus : EventBus.t) (env : t) : t :=
  mk (sensors env) (state env) (Some bus) (venue env).

Definition emit (ty : string) (p : EventBus.Payload) (env : t) : t :=
  mk (sensors env) (state env) (EventBus.emit ty p <$> eventBus env) (venue env).

Definition prefillSensor (sensorId : string) (data : list SensorItem) (env : t) : t :=
  mk (SensorManager.prefill sensorId data (sensors env)) (state env)
     (eventBus env) (venue env).

(** The body of the [for] loop of [executeActions], from index [i]. *)
Fixpoint executeActionsFrom (i : nat) (actions : list Action) (env : t)
  : list ActionResult.t * t :=
  match actions with
  | [] => ([], env)
  | action :: rest =>
      let '(r, (sensors', w')) :=
        ActionExecutor.execute action (sensors env, venue env) in
      let env1 := mk sensors' (state env) (eventBus env) w' in
      let env2 :=
        match r with
        | inr _ =>
            emit "action:executed"
              (EventBus.ActionExecuted (actionType action) action) env1
        | inl err =>
            emit "action:failed"
              (EventBus.ActionFailed (actionType action) action err) env1
        end in
      let '(results, env3) := executeActionsFrom (S i) rest env2 in
      (ActionResult.mk i (actionType action) r :: results, env3)
  end.

Definition executeActions (actions : list Action) (env : t)
  : list ActionResult.t * t :=
  executeActionsFrom 0 actions env.
End WithVenue.
End TradingEnvironment.

(** ** What the agent sees and does ([env/types.ts]) *)

Module Observation.
Record t := mk {
  sensors : gmap string (list SensorItem);
  state : EnvironmentState.t;
  timestamp : Z
}.
End Observation.

(** What [initialize] may do with the environment it is handed: a
    program of calls on the environment interface, each continuing with
    the answer of the call. *)
Inductive EnvProgram (R : Type) : Type :=
  | Return (r : R)
  | GetObservation (k : Observation.t → EnvProgram R)
  | ExecuteActions (actions : list Action) (k : list ActionResult.t → EnvProgram R)
  | PrefillSensor (sensorId : string) (data : list SensorItem) (k : EnvProgram R)
  | GetCandles (activeId size from to : Z) (k : list Candle.t → EnvProgram R)
  | GetFirstCandles (activeId size count : Z) (k : list Candle.t → EnvProgram R).

Arguments Return {R} r.
Arguments GetObservation {R} k.
Arguments ExecuteActions {R} actions k.
Arguments PrefillSensor {R} sensorId data k.
Arguments GetCandles {R} activeId size from to k.
Arguments GetFirstCandles {R} activeId size count k.

(** The [Agent] interface over the private state [A] of the agent.
    [onObservation] answers [None] when it throws. *)
Class Agent (A : Type) := {
  initialize : A → EnvProgram A;
  onObservation : A → Observation.t → A * option (list Action);
  onTradeResult : A → Position.t → A
}.

(** [arr.slice(-n)] *)
Definition sliceFromEnd {A} (n : Z) (arr : list A) : list A :=
  if bool_decide (0 < n) then drop (length arr - Z.to_nat n) arr
  else drop (Z.to_nat (- n)) arr.

(** ** [backtest/candles-api.ts] *)

Module BacktestCandlesAPI.
Definition getCandles (allCandles : list Candle.t) (activeId size from to : Z)
  : list Candle.t :=
  filter (fun c => Candle.active_id c = activeId ∧ Candle.size c = size
                   ∧ from ≤ Candle.from c ∧ Candle.from c ≤ to) allCandles.

Definition getFirstCandles (allCandles : list Candle.t) (now : Z)
    (activeId size count : Z) : list Candle.t :=
  sliceFromEnd count
    (filter (fun c => Candle.active_id c = activeId ∧ Candle.size c = size
                      ∧ Candle.from c < now) allCandles).
End BacktestCandlesAPI.

(** ** [backtest/environment.ts] *)

Module BacktestEnvironment.
(** A call of the trade-resolved callback: its four arguments, and the
    two values the callback of the runner reads when it is called (the
    simulated time, which the runner assigns together with
    [currentTime], and the balance of the wallet). *)
Record TradeRecord := mkRecord {
  trade : PendingTrade.t;
  result : string;
  recordPnl : Qc;
  closePrice : Qc;
  closedAt : Z;
  walletAfter : Qc
}.

(** A call of a hook of the agent.  [Observed obs pending] is a call of
    [onObservation]; beside the observation it carries the pending
    trades of the simulator at the moment of the call, which the agent
    does not see. *)
Inductive HookCall :=
  | Observed (obs : Observation.t) (pending : list PendingTrade.t)
  | TradeResult (pos : Position.t).

Definition maxBufferSize : Z := 100.

Section WithAgent.
Context {A : Type}.

(** [updateCallbacks] counts the closures [runAgent] has added;
    [agent] is the agent object they and [agentRef] refer to;
    [tradeResolvedCallback] tells whether the callback is set, and
    [resolved], [hooks] and [warnings] record the calls made on the
    callback, on the agent and on [console.warn]. *)
Record t := mk {
  state : EnvironmentState.t;
  sensorBuffers : gmap string (list SensorItem);
  subscribedSensors : gmap string Sensor.t;
  updateCallbacks : nat;
  pendingTrades : list PendingTrade.t;
  currentTime : Z;
  wallet : Wallet.t;
  eventBus : option EventBus.t;
  payoutPercent : Qc;
  nextPositionId : Z;
  assetConfig : option BlitzOptionConfig.t;
  allCandles : list Candle.t;
  agentRef : bool;
  agent : A;
  tradeResolvedCallback : bool;
  resolved : list TradeRecord;
  hooks : list HookCall;
  warnings : list string
}.

Definition set_state (v : EnvironmentState.t) (env : t) : t :=
  mk v (sensorBuffers env) (subscribedSensors env) (updateCallbacks env)
     (pendingTrades env) (currentTime env) (wallet env) (eventBus env)
     (payoutPercent env) (nextPositionId env) (assetConfig env) (allCandles env)
     (agentRef env) (agent env) (tradeResolvedCallback env) (resolved env)
     (hooks env) (warnings env).

Definition set_sensorBuffers (v : gmap string (list SensorItem)) (env : t) : t :=
  mk (state env) v (subscribedSensors env) (updateCallbacks env) (pendingTrades env)
     (currentTime env) (wallet env) (eventBus env) (payoutPercent env)
     (nextPositionId env) (assetConfig env) (allCandles env) (agentRef env)
     (agent env) (tradeResolvedCallback env) (resolved env) (hooks env)
     (warnings env).

Definition set_subscribedSensors (v : gmap string Sensor.t) (env : t) : t :=
  mk (state env) (sensorBuffers env) v (updateCallbacks env) (pendingTrades env)
     (currentTime env) (wallet env) (eventBus env) (payoutPercent env)
     (nextPositionId env) (assetConfig env) (allCandles env) (agentRef env)
     (agent env) (tradeResolvedCallback env) (resolved env) (hooks env)
     (warnings env).

Definition set_updateCallbacks (v : nat) (env : t) : t :=
  mk (state env) (sensorBuffers env) (subscribedSensors env) v (pendingTrades env)
     (currentTime env) (wallet env) (eventBus env) (payoutPercent env)
     (nextPositionId env) (assetConfig env) (allCandles env) (agentRef env)
     (agent env) (tradeResolvedCallback env) (resolved env) (hooks env)
     (warnings env).

Definition set_pendingTrades (v : list PendingTrade.t) (env : t) : t :=
  mk (state env) (sensorBuffers env) (subscribedSensors env) (updateCallbacks env) v
     (currentTime env) (wallet env) (eventBus env) (payoutPercent env)
     (nextPositionId env) (assetConfig env) (allCandles env) (agentRef env)
     (agent env) (tradeResolvedCallback env) (resolved env) (hooks env)
     (warnings env).

Definition set_currentTime (v : Z) (env : t) : t :=
  mk (state env) (sensorBuffers env) (subscribedSensors env) (updateCallbacks env)
     (pendingTrades env) v (wallet env) (eventBus env) (payoutPercent env)
     (nextPositionId env) (assetConfig env) (allCandles env) (agentRef env)
     (agent env) (tradeResolvedCallback env) (resolved env) (hooks env)
     (warnings env).

Definition set_wallet (v : Wallet.t) (env : t) : t :=
  mk (state env) (sensorBuffers env) (subscribedSensors env) (updateCallbacks env)
     (pendingTrades env) (currentTime env) v (eventBus env) (payoutPercent env)
     (nextPositionId env) (assetConfig env) (allCandles env) (agentRef env)
     (agent env) (tradeResolvedCallback env) (resolved env) (hooks env)
     (warnings env).

Definition set_eventBus (v : option EventBus.t) (env : t) : t :=
  mk (state env) (sensorBuffers env) (subscribedSensors env) (updateCallbacks env)
     (pendingTrades env) (currentTime env) (wallet env) v (payoutPercent env)
     (nextPositionId env) (assetConfig env) (allCandles env) (agentRef env)
     (agent env) (tradeResolvedCallback env) (resolved env) (hooks env)
     (warnings env).

Definition set_nextPositionId (v : Z) (env : t) : t :=
  mk (state env) (sensorBuffers env) (subscribedSensors env) (updateCallbacks env)
     (pendingTrades env) (currentTime env) (wallet env) (eventBus env)
     (payoutPercent env) v (assetConfig env) (allCandles env) (agentRef env)
     (agent env) (tradeResolvedCallback env) (resolved env) (hooks env)
     (warnings env).

Definition set_agentRef (v : bool) (env : t) : t :=
  mk (state env) (sensorBuffers env) (subscribedSensors env) (updateCallbacks env)
     (pendingTrades env) (currentTime env) (wallet env) (eventBus env)
     (payoutPercent env) (nextPositionId env) (assetConfig env) (allCandles env) v
     (agent env) (tradeResolvedCallback env) (resolved env) (hooks env)
     (warnings env).

Definition set_agent (v : A) (env : t) : t :=
  mk (state env) (sensorBuffers env) (subscribedSensors env) (updateCallbacks env)
     (pendingTrades env) (currentTime env) (wallet env) (eventBus env)
     (payoutPercent env) (nextPositionId env) (assetConfig env) (allCandles env)
     (agentRef env) v (tradeResolvedCallback env) (resolved env) (hooks env)
     (warnings env).

Definition set_tradeResolvedCallback (v : bool) (env : t) : t :=
  mk (state env) (sensorBuffers env) (subscribedSensors env) (updateCallbacks env)
     (pendingTrades env) (currentTime env) (wallet env) (eventBus env)
     (payoutPercent env) (nextPositionId env) (assetConfig env) (allCandles env)
     (agentRef env) (agent env) v (resolved env) (hooks env) (warnings env).

Definition set_resolved (v : list TradeRecord) (env : t) : t :=
  mk (state env) (sensorBuffers env) (subscribedSensors env) (updateCallbacks env)
     (pendingTrades env) (currentTime env) (wallet env) (eventBus env)
     (payoutPercent env) (nextPositionId env) (assetConfig env) (allCandles env)
     (agentRef env) (agent env) (tradeResolvedCallback env) v (hooks env)
     (warnings env).

Definition set_hooks (v : list HookCall) (env : t) : t :=
  mk (state env) (sensorBuffers env) (subscribedSensors env) (updateCallbacks env)
     (pendingTrades env) (currentTime env) (wallet env) (eventBus env)
     (payoutPercent env) (nextPositionId env) (assetConfig env) (allCandles env)
     (agentRef env) (agent env) (tradeResolvedCallback env) (resolved env) v
     (warnings env).

Definition set_warnings (v : list string) (env : t) : t :=
  mk (state env) (sensorBuffers env) (subscribedSensors env) (updateCallbacks env)
     (pendingTrades env) (currentTime env) (wallet env) (eventBus env)
     (payoutPercent env) (nextPositionId env) (assetConfig env) (allCandles env)
     (agentRef env) (agent env) (tradeResolvedCallback env) (resolved env)
     (hooks env) v.

(** The constructor. *)
Definition create (candles : list Candle.t) (w : Wallet.t) (bus : option EventBus.t)
    (config : option BlitzOptionConfig.t) (payout : Qc) (a : A) : t :=
  let st := EnvironmentState.set_balance (Wallet.getBalance w) EnvironmentState.create in
  let st' :=
    match config with
    | Some c => EnvironmentState.set_availableAssets [c] st
    | None => st
    end in
  mk st' ∅ ∅ 0%nat [] 0 w bus payout 1 config candles false a false [] [] [].

Definition setEventBus (bus : EventBus.t) (env : t) : t := set_eventBus (Some bus) env.

Definition setCurrentTime (ts : Z) (env : t) : t :=
  set_state (EnvironmentState.set_serverTime ts (state env)) (set_currentTime ts env).

Definition getCurrentTime (env : t) : Z := currentTime env.

Definition onTradeResolved (env : t) : t := set_tradeResolvedCallback true env.

(** [if (this.eventBus) this.eventBus.emit(ty, p)] *)
Definition emit (ty : string) (p : EventBus.Payload) (env : t) : t :=
  set_eventBus (EventBus.emit ty p <$> eventBus env) env.

Definition getObservation (env : t) : Observation.t :=
  Observation.mk (sensorBuffers env) (EnvironmentState.snapshot (state env))
    (currentTime env).

Definition prefillSensor (sensorId : string) (data : list SensorItem) (env : t) : t :=
  match sensorBuffers env !! sensorId with
  | None => env
  | Some buffer =>
      set_sensorBuffers
        (<[sensorId := foldl (fun b item => pushShift (Limit maxBufferSize) item b) buffer data]>
           (sensorBuffers env)) env
  end.

Definition getRemainingTime (position : Position.t) (env : t) : Z :=
  if bool_decide (Position.expiration_time position = 0) then 0
  else Z.max 0 (Position.expiration_time position - currentTime env).

Definition tradeToPosition (trade : PendingTrade.t) (status : string)
    (closeInfo : option (Qc * string * Qc)) (env : t) : Position.t :=
  {| Position.id := PendingTrade.id trade;
     Position.active_id := PendingTrade.activeId trade;
     Position.direction := PendingTrade.direction trade;
     Position.invest := PendingTrade.invest trade;
     Position.open_quote := PendingTrade.openQuote trade;
     Position.open_time := PendingTrade.openTime trade;
     Position.expiration_time := PendingTrade.expirationTime trade;
     Position.status := status;
     Position.close_quote := match closeInfo with Some (q, _, _) => q | None => 0%Qc end;
     Position.close_reason := match closeInfo with Some (_, r, _) => r | None => "" end;
     Position.close_time := match closeInfo with Some _ => currentTime env | None => 0 end;
     Position.pnl := Some (match closeInfo with Some (_, _, p) => p | None => 0%Qc end);
     Position.pnl_realized :=
       Some (match closeInfo with Some (_, _, p) => p | None => 0%Qc end) |}.

(** The loop runs from the last candle down to the first. *)
Definition getLatestClose (activeId : Z) (env : t) : option Qc :=
  (fun r => Candle.close r.2) <$>
    list_find (fun c => Candle.active_id c = activeId ∧ Candle.from c ≤ currentTime env)
      (reverse (allCandles env)).

Definition findLastCandleForAsset (activeId : Z) (env : t) : option Candle.t :=
  snd <$> list_find (fun c => Candle.active_id c = activeId) (reverse (allCandles env)).

(** The [PendingTrade] that [executeTrade] builds. *)
Definition newTrade (payload : TradePayload.t) (env : t) : PendingTrade.t :=
  {| PendingTrade.id := nextPositionId env;
     PendingTrade.direction := TradePayload.direction payload;
     PendingTrade.activeId := TradePayload.activeId payload;
     PendingTrade.invest := TradePayload.price payload;
     PendingTrade.openQuote :=
       match TradePayload.currentPrice payload with
       | Some p => p
       | None => default 0%Qc (getLatestClose (TradePayload.activeId payload) env)
       end;
     PendingTrade.openTime := currentTime env;
     PendingTrade.expirationTime := currentTime env + TradePayload.expirationSize payload;
     PendingTrade.expirationSize := TradePayload.expirationSize payload;
     PendingTrade.profitPercent :=
       default (payoutPercent env) (TradePayload.profitPercent payload) |}.

(** [executeTrade] once the wallet can afford the stake, up to the
    update of the ledger: the stake is debited, the trade is given
    the next position id and pushed, the open position is fed to
    the ledger. *)
Definition openTrade (payload : TradePayload.t) (env : t) : t :=
  let w := Wallet.debit (TradePayload.price payload) (wallet env) in
  let trade := newTrade payload env in
  let env1 :=
    set_state (EnvironmentState.set_balance (Wallet.getBalance w) (state env))
      (set_wallet w env) in
  let env2 :=
    set_pendingTrades (pendingTrades env1 ++ [trade])
      (set_nextPositionId (nextPositionId env1 + 1) env1) in
  set_state
    (EnvironmentState.onPositionChanged (tradeToPosition trade "open" None env2)
       (state env2)) env2.

(** The three events [executeTrade] emits after it. *)
Definition emitOpened (payload : TradePayload.t) (id : Z) (previousBalance : Qc)
    (env : t) : t :=
  let env1 :=
    emit "position:changed"
      (EventBus.PositionChanged id "open" (TradePayload.activeId payload)) env in
  let env2 :=
    emit "trade:placed"
      (EventBus.TradePlaced (TradePayload.activeId payload)
         (TradePayload.direction payload) (TradePayload.price payload)
         (TradePayload.expirationSize payload)) env1 in
  emit "wallet:changed"
    (EventBus.WalletChanged (Wallet.getBalance (wallet env2)) previousBalance
       "trade:open") env2.

Definition executeTrade (payload : TradePayload.t) (env : t) : ActionError + t :=
  let invest := TradePayload.price payload in
  if negb (Wallet.canAfford invest (wallet env)) then
    inl (CannotAfford invest (Wallet.getBalance (wallet env)))
  else
    let previousBalance := Wallet.getBalance (wallet env) in
    inr (emitOpened payload (nextPositionId env) previousBalance (openTrade payload env)).

Definition executeSubscribe (sensor : Sensor.t) (env : t) : t :=
  let id := Sensor.id sensor in
  match subscribedSensors env !! id with
  | Some _ => env
  | None =>
      let buffers :=
        match sensorBuffers env !! id with
        | Some _ => sensorBuffers env
        | None => <[id := []]> (sensorBuffers env)
        end in
      let env1 :=
        set_sensorBuffers buffers
          (set_subscribedSensors (<[id := sensor]> (subscribedSensors env)) env) in
      if bool_decide (Sensor.type sensor = SCandle) then
        let activeId := Sensor.params sensor !! "active_id" in
        let size := Sensor.params sensor !! "size" in
        let buffer := default [] (buffers !! id) in
        let historical :=
          filter (fun c => Some (Candle.active_id c) = activeId
                           ∧ Some (Candle.size c) = size
                           ∧ Candle.from c < currentTime env1) (allCandles env1) in
        let toFill := sliceFromEnd maxBufferSize historical in
        set_sensorBuffers (<[id := buffer ++ (ItemCandle <$> toFill)]> buffers) env1
      else
        set_warnings
          (warnings env1 ++
             ["Sensor type " +:+ sensorTypeName (Sensor.type sensor) +:+ " (" +:+ id
              +:+ ") is not simulated"]) env1
  end.

Definition executeUnsubscribe (sensorId : string) (env : t) : t :=
  set_sensorBuffers (delete sensorId (sensorBuffers env))
    (set_subscribedSensors (delete sensorId (subscribedSensors env)) env).

(** [getCandles] reads its four arguments from [payload.params]; a
    missing one is [undefined], which no candle compares equal to or
    in order with. *)
Definition executeQuery (payload : QueryPayload.t) (env : t) : ActionOutput :=
  let m := QueryPayload.method payload in
  let p := QueryPayload.params payload in
  if bool_decide (m = "getPositions") then
    Positions (EnvironmentState.openPositions (state env))
  else if bool_decide (m = "getHistory") then
    Positions (EnvironmentState.recentClosed (EnvironmentState.snapshot (state env)))
  else if bool_decide (m = "getBalances") then
    Balances [(0, EnvironmentState.balance (state env), "USD")]
  else if bool_decide (m = "getAssets") then
    Assets (EnvironmentState.availableAssets (state env))
  else if bool_decide (m = "getTradersMood") then
    Mood (num 1 2)
  else if bool_decide (m = "getCandles") then
    match p !! "activeId", p !! "size", p !! "from", p !! "to" with
    | Some a, Some s, Some f, Some u =>
        Candles (BacktestCandlesAPI.getCandles (allCandles env) a s f u)
    | _, _, _, _ => Candles []
    end
  else Undefined.

(** The [switch] has no default: an action of another type falls
    through and yields [undefined]. *)
Definition executeAction (action : Action) (env : t) : (ActionError + ActionOutput) * t :=
  match action with
  | ATrade payload =>
      match executeTrade payload env with
      | inl err => (inl err, env)
      | inr env' => (inr Undefined, env')
      end
  | ASubscribe sensor => (inr Undefined, executeSubscribe sensor env)
  | AUnsubscribe sensorId => (inr Undefined, executeUnsubscribe sensorId env)
  | AQuery payload => (inr (executeQuery payload env), env)
  | AOther _ => (inr Undefined, env)
  end.

(** The body of the [for] loop of [executeActions], from index [i]. *)
Fixpoint executeActionsFrom (i : nat) (actions : list Action) (env : t)
  : list ActionResult.t * t :=
  match actions with
  | [] => ([], env)
  | action :: rest =>
      let '(r, env1) := executeAction action env in
      let env2 :=
        match r with
        | inr _ =>
            emit "action:executed"
              (EventBus.ActionExecuted (actionType action) action) env1
        | inl err =>
            emit "action:failed"
              (EventBus.ActionFailed (actionType action) action err) env1
        end in
      let '(results, env3) := executeActionsFrom (S i) rest env2 in
      (ActionResult.mk i (actionType action) r :: results, env3)
  end.

Definition executeActions (actions : list Action) (env : t)
  : list ActionResult.t * t :=
  executeActionsFrom 0 actions env.

Context `{!Agent A}.

(** The outcome rule of [resolveTradeAtPrice]. *)
Definition isTie (trade : PendingTrade.t) (closePrice : Qc) : bool :=
  bool_decide (closePrice = PendingTrade.openQuote trade).

Definition isWin (trade : PendingTrade.t) (closePrice : Qc) : bool :=
  negb (isTie trade closePrice) &&
  ((bool_decide (PendingTrade.direction trade = Call)
    && bool_decide (PendingTrade.openQuote trade < closePrice)%Qc)
   || (bool_decide (PendingTrade.direction trade = Put)
       && bool_decide (closePrice < PendingTrade.openQuote trade)%Qc)).

Definition profit (trade : PendingTrade.t) : Qc :=
  (PendingTrade.invest trade * (PendingTrade.profitPercent trade / int 100))%Qc.

Definition pnlAt (trade : PendingTrade.t) (closePrice : Qc) : Qc :=
  if isTie trade closePrice then 0%Qc
  else if isWin trade closePrice then profit trade
  else (- PendingTrade.invest trade)%Qc.

Definition closeReasonAt (trade : PendingTrade.t) (closePrice : Qc) : string :=
  if isTie trade closePrice then "tie"
  else if isWin trade closePrice then "win" else "loss".

(** The closed position [resolveTradeAtPrice] builds. *)
Definition closedPosition (trade : PendingTrade.t) (closePrice : Qc) (env : t)
  : Position.t :=
  tradeToPosition trade "closed"
    (Some (closePrice, closeReasonAt trade closePrice, pnlAt trade closePrice)) env.

(** [resolveTradeAtPrice], first part: the wallet is credited
    according to the outcome and the balance of the ledger follows. *)
Definition settleWallet (trade : PendingTrade.t) (closePrice : Qc) (env : t) : t :=
  let w :=
    if isTie trade closePrice then
      Wallet.credit (PendingTrade.invest trade) (wallet env)
    else if isWin trade closePrice then
      Wallet.credit (PendingTrade.invest trade + profit trade)%Qc (wallet env)
    else wallet env in
  set_state (EnvironmentState.set_balance (Wallet.getBalance w) (state env))
    (set_wallet w env).

(** Second part: the closed position is fed to the ledger. *)
Definition closeInLedger (trade : PendingTrade.t) (closePrice : Qc) (env : t) : t :=
  set_state
    (EnvironmentState.onPositionChanged (closedPosition trade closePrice env) (state env))
    env.

(** Third part: the events. *)
Definition emitClosed (trade : PendingTrade.t) (closePrice : Qc) (env : t) : t :=
  let tie := isTie trade closePrice in
  let win := isWin trade closePrice in
  let pnl := pnlAt trade closePrice in
  let eventResult := if win then "win" else "loss" in
  let env1 :=
    emit "position:changed"
      (EventBus.PositionChanged (PendingTrade.id trade) "closed"
         (PendingTrade.activeId trade)) env in
  let env2 :=
    emit "trade:closed"
      (EventBus.TradeClosed (PendingTrade.id trade) (PendingTrade.direction trade)
         (if tie then "loss" else eventResult) pnl (PendingTrade.invest trade)) env1 in
  if tie then env2
  else
    let balance := Wallet.getBalance (wallet env2) in
    let prevBalance :=
      if win then (balance - PendingTrade.invest trade - pnl)%Qc else balance in
    emit "wallet:changed"
      (EventBus.WalletChanged balance prevBalance
         (if win then "trade:win" else "trade:loss")) env2.

(** Fourth part: the trade-resolved callback. *)
Definition notifyRunner (trade : PendingTrade.t) (closePrice : Qc) (env : t) : t :=
  if tradeResolvedCallback env then
    set_resolved
      (resolved env ++
         [mkRecord trade
            (if isTie trade closePrice then "tie"
             else if isWin trade closePrice then "win" else "loss")
            (pnlAt trade closePrice) closePrice (currentTime env)
            (Wallet.getBalance (wallet env))])
      env
  else env.

(** Last part: the result hook of the agent. *)
Definition notifyAgent (trade : PendingTrade.t) (closePrice : Qc) (env : t) : t :=
  if agentRef env then
    set_agent (onTradeResult (agent env) (closedPosition trade closePrice env))
      (set_hooks (hooks env ++ [TradeResult (closedPosition trade closePrice env)]) env)
  else env.

Definition resolveTradeAtPrice (trade : PendingTrade.t) (closePrice : Qc) (env : t) : t :=
  notifyAgent trade closePrice
    (notifyRunner trade closePrice
       (emitClosed trade closePrice
          (closeInLedger trade closePrice
             (settleWallet trade closePrice env)))).

Definition resolveTrade (trade : PendingTrade.t) (env : t) : t :=
  let expirationCandle :=
    list_find (fun c => Candle.active_id c = PendingTrade.activeId trade
                        ∧ PendingTrade.expirationTime trade ≤ Candle.from c)
      (allCandles env) in
  match expirationCandle with
  | None =>
      let lastKnown := findLastCandleForAsset (PendingTrade.activeId trade) env in
      resolveTradeAtPrice trade
        (match lastKnown with
         | Some c => Candle.close c
         | None => PendingTrade.openQuote trade
         end) env
  | Some (_, c) => resolveTradeAtPrice trade (Candle.close c) env
  end.

Definition checkExpirations (env : t) : t :=
  let toClose :=
    filter (fun tr => PendingTrade.expirationTime tr ≤ currentTime env)
      (pendingTrades env) in
  let remaining :=
    filter (fun tr => ¬ PendingTrade.expirationTime tr ≤ currentTime env)
      (pendingTrades env) in
  foldl (fun e tr => resolveTrade tr e) (set_pendingTrades remaining env) toClose.

Definition forceCloseAll (lastPrice : Qc) (env : t) : t :=
  let trades := pendingTrades env in
  foldl
    (fun e tr =>
       let lastAssetCandle := findLastCandleForAsset (PendingTrade.activeId tr) e in
       resolveTradeAtPrice tr
         (match lastAssetCandle with Some c => Candle.close c | None => lastPrice end) e)
    (set_pendingTrades [] env) trades.

Definition getPendingTradeCount (env : t) : nat := length (pendingTrades env).

(** The closure [runAgent] adds to [updateCallbacks]. *)
Definition agentCycle (env : t) : t :=
  let obs := getObservation env in
  let '(a, answer) := onObservation (agent env) obs in
  let env1 :=
    set_agent a (set_hooks (hooks env ++ [Observed obs (pendingTrades env)]) env) in
  match answer with
  | Some actions =>
      match actions with
      | [] => env1
      | _ :: _ => (executeActions actions env1).2
      end
  | None => env1
  end.

(** [for (const cb of this.updateCallbacks) await cb(sensorId, candle)] *)
Definition runCallbacks (env : t) : t := Nat.iter (updateCallbacks env) agentCycle env.

Definition feedCandle (candle : Candle.t) (env : t) : t :=
  let sensorId := SensorManager.candleId (Candle.active_id candle) (Candle.size candle) in
  match sensorBuffers env !! sensorId with
  | None => env
  | Some buffer =>
      let buffer' :=
        match last buffer with
        | Some lastItem =>
            if bool_decide (itemFrom lastItem = Some (Candle.from candle))
            then <[pred (length buffer) := ItemCandle candle]> buffer
            else pushShift (Limit maxBufferSize) (ItemCandle candle) buffer
        | None => pushShift (Limit maxBufferSize) (ItemCandle candle) buffer
        end in
      runCallbacks (set_sensorBuffers (<[sensorId := buffer']> (sensorBuffers env)) env)
  end.

(** Runs a program of environment calls. *)
Fixpoint perform {R} (p : EnvProgram R) (env : t) : R * t :=
  match p with
  | Return r => (r, env)
  | GetObservation k => perform (k (getObservation env)) env
  | ExecuteActions actions k =>
      let '(results, env') := executeActions actions env in perform (k results) env'
  | PrefillSensor sensorId data k => perform k (prefillSensor sensorId data env)
  | GetCandles activeId size from to k =>
      perform (k (BacktestCandlesAPI.getCandles (allCandles env) activeId size from to)) env
  | GetFirstCandles activeId size count k =>
      perform
        (k (BacktestCandlesAPI.getFirstCandles (allCandles env) (currentTime env)
              activeId size count)) env
  end.

Definition runAgent (env : t) : t :=
  let env1 := set_agentRef true env in
  let '(a, env2) := perform (initialize (agent env1)) env1 in
  set_updateCallbacks (S (updateCallbacks env2)) (set_agent a env2).
End WithAgent.

Arguments t : clear implicits.
End BacktestEnvironment.

(** ** [backtest/runner.ts] *)

Module BacktestRunner.
Import BacktestEnvironment.

(** A row of the [datasets] table with the rows of [datasetCandles]
    that belong to it, in the order the query returns them. *)
Record Dataset := mkDataset {
  datasetConfig : option BlitzOptionConfig.t;
  rows : list Candle.t
}.

Record BacktestConfig := mkConfig {
  agentName : string;
  datasetNames : list string;
  initialBalance : Qc;
  configPayoutPercent : option Qc
}.

(** What a run takes from outside the process: the date and the random
    suffix that make the run id, whether the event persister could be
    created, and the wall clock read when the run is registered and
    when it is marked stopped. *)
Record External := mkExternal {
  today : string;
  randomSuffix : string;
  persister : option EventBus.PersistFn;
  startedAt : Z;
  stoppedAt : Z
}.

Record BacktestResult := mkResult {
  runId : string;
  trades : Z;
  wins : Z;
  losses : Z;
  winRate : Qc;
  pnl : Qc;
  resultMaxDrawdown : Qc;
  finalBalance : Qc;
  durationCandles : nat
}.

(** Requests sent to the observability server (fire-and-forget).  The
    [POST /api/trades] requests are the calls of the trade-resolved
    callback, recorded by the environment. *)
Inductive ApiCall :=
  | PostRun (id agentId : string) (startBalance : Qc) (startedAt : Z)
  | PostSnapshot (id : string) (ts : Z) (wallet : Qc) (wins losses : Z)
      (totalPnl drawdown : Qc)
  | PatchRun (id : string) (stoppedAt : Z) (stopReason : string).

Inductive RunError :=
  | DatasetNotFound (name : string)
  | NoCandles.

(** The counters of the runner, moved by its trade-resolved callback. *)
Record Tally := mkTally {
  tallyWins : Z;
  tallyLosses : Z;
  tallyTies : Z;
  tallyPnl : Qc
}.

Definition tallyOne (t : Tally) (r : TradeRecord) : Tally :=
  if bool_decide (result r = "win") then
    mkTally (tallyWins t + 1) (tallyLosses t) (tallyTies t) (tallyPnl t + recordPnl r)%Qc
  else if bool_decide (result r = "loss") then
    mkTally (tallyWins t) (tallyLosses t + 1) (tallyTies t) (tallyPnl t + recordPnl r)%Qc
  else
    mkTally (tallyWins t) (tallyLosses t) (tallyTies t + 1) (tallyPnl t + recordPnl r)%Qc.

Definition tally (calls : list TradeRecord) : Tally :=
  foldl tallyOne (mkTally 0 0 0 0%Qc) calls.

(** [Math.round(x)] *)
Definition mathRound (x : Qc) : Z := Qfloor (x + num 1 2)%Qc.

(** [Math.round(x * 100) / 100], on the exact value of [x]; the code
    rounds the binary64 product, which can fall on the other side of a
    half. *)
Definition round2 (x : Qc) : Qc := (int (mathRound (x * int 100)) / int 100)%Qc.

(** [allCandles.sort((a, b) => a.from - b.from)]: the sort is stable. *)
Fixpoint insertByFrom (c : Candle.t) (sorted : list Candle.t) : list Candle.t :=
  match sorted with
  | [] => [c]
  | d :: rest =>
      if bool_decide (Candle.from c < Candle.from d) then c :: sorted
      else d :: insertByFrom c rest
  end.

Definition sortByFrom (candles : list Candle.t) : list Candle.t :=
  foldl (fun sorted c => insertByFrom c sorted) [] candles.

(** Step 1: the datasets are read in the order of [datasetNames]; the
    asset configuration, and the payout derived from it, come from the
    first dataset that has one. *)
Fixpoint loadDatasets (db : gmap string Dataset) (config : BacktestConfig)
    (names : list string)
    (acc : list Candle.t * option BlitzOptionConfig.t * Qc)
  : RunError + (list Candle.t * option BlitzOptionConfig.t * Qc) :=
  match names with
  | [] => inr acc
  | dsName :: rest =>
      match db !! dsName with
      | None => inl (DatasetNotFound dsName)
      | Some ds =>
          let '(candles, assetConfig, payout) := acc in
          let '(assetConfig', payout') :=
            match assetConfig, datasetConfig ds with
            | None, Some c =>
                let unset :=
                  match configPayoutPercent config with
                  | None => true
                  | Some p => bool_decide (p = 0%Qc)
                  end in
                match BlitzOptionConfig.profit_commission c with
                | Some commission =>
                    (Some c, if unset then (int 100 - commission)%Qc else payout)
                | None => (Some c, payout)
                end
            | _, _ => (assetConfig, payout)
            end in
          loadDatasets db config rest (candles ++ rows ds, assetConfig', payout')
      end
  end.

Definition makeRunId (config : BacktestConfig) (ext : External) : string :=
  "bt-" +:+ agentName config +:+ "-" +:+ today ext +:+ "-" +:+ randomSuffix ext.

Section WithAgent.
Context {A : Type} `{!Agent A}.

Record LoopState := mkLoop {
  env : BacktestEnvironment.t A;
  api : list ApiCall
}.

(** [simulatedTime = ts], seen by the clock closure of the bus. *)
Definition setSimulatedTime (ts : Z) (e : BacktestEnvironment.t A)
  : BacktestEnvironment.t A :=
  set_eventBus (EventBus.set_timeFn ts <$> eventBus e) e.

Definition snapshotCall (id : string) (e : BacktestEnvironment.t A) : ApiCall :=
  let t := tally (resolved e) in
  PostSnapshot id (currentTime e) (Wallet.balance (wallet e)) (tallyWins t)
    (tallyLosses t) (round2 (tallyPnl t)) (round2 (Wallet.maxDrawdown (wallet e))).

(** Steps (1) to (4) of one turn of the replay loop. *)
Definition replayCandle (candle : Candle.t) (e : BacktestEnvironment.t A)
  : BacktestEnvironment.t A :=
  let e1 := setSimulatedTime (Candle.from candle) e in
  let e2 := setCurrentTime (Candle.from candle) e1 in
  let e3 := checkExpirations e2 in
  feedCandle candle e3.

(** The replay loop from index [i]; it stops when the wallet is bust. *)
Fixpoint replay (id : string) (snapshotInterval : Z) (i : nat)
    (candles : list Candle.t) (st : LoopState) : LoopState :=
  match candles with
  | [] => st
  | candle :: rest =>
      if Wallet.busted (wallet (env st)) then st
      else
        let e := replayCandle candle (env st) in
        let api' :=
          if bool_decide (0 < Z.of_nat i)
             && bool_decide (Z.of_nat i mod snapshotInterval = 0)
          then api st ++ [snapshotCall id e]
          else api st in
        replay id snapshotInterval (S i) rest (mkLoop e api')
  end.

Record Outcome := mkOutcome {
  outcomeResult : BacktestResult;
  finalEnv : BacktestEnvironment.t A;
  requests : list ApiCall
}.

(** Steps 2 to 8 of [run], and the bust callback of step 9: the wallet,
    the bus with its persister, the environment with the trade-resolved
    callback, the [run:started] event, the agent wired in at the time of
    the first candle. *)
Definition setup (config : BacktestConfig) (ext : External) (allCandles : list Candle.t)
    (first : Candle.t) (assetConfig : option BlitzOptionConfig.t) (payout : Qc) (a : A)
  : BacktestEnvironment.t A :=
  let w := Wallet.create Wallet.Virtual (initialBalance config) in
  let id := makeRunId config ext in
  let bus0 := EventBus.create id (Candle.from first) in
  let bus :=
    match persister ext with
    | Some fn => EventBus.setPersist fn bus0
    | None => bus0
    end in
  let e0 := create allCandles w (Some bus) assetConfig payout a in
  let e1 := onTradeResolved e0 in
  let e2 :=
    emit "run:started"
      (EventBus.RunStarted ("backtest:" +:+ agentName config) (agentName config)) e1 in
  let e3 := runAgent (setCurrentTime (Candle.from first) e2) in
  set_wallet (Wallet.onBust (wallet e3)) e3.

(** Steps 10 to 14 of [run]: the forced close, the last snapshot, the
    [run:stopped] event and the result. *)
Definition finish (config : BacktestConfig) (ext : External) (allCandles : list Candle.t)
    (first : Candle.t) (st : LoopState) : Outcome :=
  let id := makeRunId config ext in
  let lastClose := Candle.close (List.last allCandles first) in
  let e5 := forceCloseAll lastClose (env st) in
  let api2 := api st ++ [snapshotCall id e5] in
  let busted := Wallet.busted (wallet e5) in
  let t := tally (resolved e5) in
  let totalTrades := tallyWins t + tallyLosses t + tallyTies t in
  let e6 :=
    emit "run:stopped"
      (EventBus.RunStopped (if busted then "bust" else "complete") totalTrades (tallyPnl t))
      e5 in
  let api3 :=
    api2 ++ [PatchRun id (stoppedAt ext) (if busted then "bust" else "complete")] in
  {| outcomeResult :=
       {| runId := id;
          trades := totalTrades;
          wins := tallyWins t;
          losses := tallyLosses t;
          winRate :=
            if bool_decide (0 < totalTrades)
            then (int (mathRound (int (tallyWins t) / int totalTrades * int 10000))
                  / int 100)%Qc
            else 0%Qc;
          pnl := round2 (tallyPnl t);
          resultMaxDrawdown := round2 (Wallet.getMaxDrawdown (wallet e6));
          finalBalance := round2 (Wallet.getBalance (wallet e6));
          durationCandles := length allCandles |};
     finalEnv := e6;
     requests := api3 |}.

Definition run (db : gmap string Dataset) (config : BacktestConfig) (ext : External)
    (a : A) : RunError + Outcome :=
  let payout0 := default (int 80) (configPayoutPercent config) in
  match loadDatasets db config (datasetNames config) ([], None, payout0) with
  | inl err => inl err
  | inr (loaded, assetConfig, payout) =>
      match sortByFrom loaded with
      | [] => inl NoCandles
      | (first :: _) as allCandles =>
          let id := makeRunId config ext in
          let e4 := setup config ext allCandles first assetConfig payout a in
          let api1 :=
            [PostRun id (agentName config) (initialBalance config) (startedAt ext)] in
          let snapshotInterval :=
            Z.max 1 (Z.min 500 (Z.of_nat (length allCandles) / 40)) in
          let st := replay id snapshotInterval 0 allCandles (mkLoop e4 api1) in
          inr (finish config ext allCandles first st)
      end
  end.
End WithAgent.
End BacktestRunner.

(** ** [env/agent-context.ts] *)

Module AgentContext.
(** The object [createAgentContext] returns closes over the bus and the
    wallet of the runner.  [rejected] records the calls of
    [console.warn], each by the event type that was refused. *)
Record t := mk {
  eventBus : EventBus.t;
  wallet : Wallet.t;
  runId : string;
  rejected : list string
}.

Definition createAgentContext (bus : EventBus.t) (w : Wallet.t) (runId : string) : t :=
  mk bus w runId [].

(** [ctx.events.emit(type, payload)] *)
Definition emit (ty : string) (p : EventBus.Payload) (ctx : t) : t :=
  if negb (String.prefix "agent:" ty) then
    mk (eventBus ctx) (wallet ctx) (runId ctx) (rejected ctx ++ [ty])
  else
    mk (EventBus.emit ty p (eventBus ctx)) (wallet ctx) (runId ctx) (rejected ctx).

(** [ctx.events.on(type, handler)] *)
Definition on (ty : string) (h : EventBus.Handler) (ctx : t) : t :=
  mk (EventBus.on ty h (eventBus ctx)) (wallet ctx) (runId ctx) (rejected ctx).



Definition getBalance (ctx : t) : Qc := Wallet.getBalance (wallet ctx).
Definition getDrawdown (ctx : t) : Qc := Wallet.getDrawdown (wallet ctx).
Definition getMaxDrawdown (ctx : t) : Qc := Wallet.getMaxDrawdown (wallet ctx).
Definition getPeak (ctx : t) : Qc := Wallet.getPeak (wallet ctx).
End AgentContext.

(** ** Helper functions of the ATRX agent ([agents/atrx]) *)

(** [Math.max], [Math.min] and [Math.abs] on numbers. *)
Definition mathMax (x y : Qc) : Qc := if bool_decide (x < y)%Qc then y else x.
Definition mathMin (x y : Qc) : Qc := if bool_decide (y < x)%Qc then y else x.
Definition mathAbs (x : Qc) : Qc := if bool_decide (x < 0)%Qc then (- x)%Qc else x.

Module ATRX.
Definition clamp (n min max : Qc) : Qc := mathMin max (mathMax min n).

(** [Math.max(1, Math.floor(period))] *)
Definition wholePeriod (period : Qc) : Z := Z.max 1 (Qfloor period).

(** The loop of [ema] from index 1, [prev] being [out[i - 1]]; each
    value is the exact one, where the code rounds the two products and
    their sum. *)
Fixpoint emaFrom (k prev : Qc) (values : list Qc) : list Qc :=
  match values with
  | [] => []
  | v :: rest =>
      let e := (v * k + prev * (1 - k))%Qc in
      e :: emaFrom k e rest
  end.

Definition ema (values : list Qc) (period : Qc) : list Qc :=
  match values with
  | [] => []
  | first :: rest =>
      let p := wholePeriod period in
      let k := (int 2 / (int p + 1))%Qc in
      first :: emaFrom k first rest
  end.

Definition trueRange (curr : Candle.t) (prevClose : option Qc) : Qc :=
  let high := Candle.max curr in
  let low := Candle.min curr in
  match prevClose with
  | None => (high - low)%Qc
  | Some prev =>
      mathMax (mathMax (high - low)%Qc (mathAbs (high - prev)%Qc)) (mathAbs (low - prev)%Qc)
  end.

(** The first loop of [atr]. *)
Fixpoint trueRanges (prevClose : option Qc) (candles : list Candle.t) : list Qc :=
  match candles with
  | [] => []
  | c :: rest => trueRange c prevClose :: trueRanges (Some (Candle.close c)) rest
  end.

(** The second loop of [atr], from index 1. *)
Fixpoint rmaFrom (p : Z) (prev : Qc) (tr : list Qc) : list Qc :=
  match tr with
  | [] => []
  | x :: rest =>
      let e := ((prev * (int p - 1) + x) / int p)%Qc in
      e :: rmaFrom p e rest
  end.

Definition atr (candles : list Candle.t) (period : Qc) : list Qc :=
  let p := wholePeriod period in
  match trueRanges None candles with
  | [] => []
  | first :: rest => first :: rmaFrom p first rest
  end.

Definition percentileRank (values : list Qc) (value : Qc) : Qc :=
  match values with
  | [] => 0%Qc
  | _ :: _ =>
      let below := length (filter (fun v => (v < value)%Qc) values) in
      (int (Z.of_nat below) / int (Z.of_nat (length values)) * int 100)%Qc
  end.

(** [now % w] is the remainder of the truncated division. *)
Definition remainingInWindow (now : Z) (windowSec : Qc) : Z :=
  let w := wholePeriod windowSec in
  w - Z.rem now w.
End ATRX.

(** ** An agent for the examples *)

(** The agent that subscribes to nothing and never trades. *)
#[global] Instance idleAgent : Agent unit := {
  initialize a := Return a;
  onObservation a _ := (a, Some []);
  onTradeResult a _ := a
}.

(** * Properties *)

(** Reduction of the fields of an environment through its setters. *)
Ltac env_cbn :=
  cbn [BacktestEnvironment.state BacktestEnvironment.sensorBuffers
       BacktestEnvironment.subscribedSensors BacktestEnvironment.updateCallbacks
       BacktestEnvironment.pendingTrades BacktestEnvironment.currentTime
       BacktestEnvironment.wallet BacktestEnvironment.eventBus
       BacktestEnvironment.payoutPercent BacktestEnvironment.nextPositionId
       BacktestEnvironment.assetConfig BacktestEnvironment.allCandles
       BacktestEnvironment.agentRef BacktestEnvironment.agent
       BacktestEnvironment.tradeResolvedCallback BacktestEnvironment.resolved
       BacktestEnvironment.hooks BacktestEnvironment.warnings
       BacktestEnvironment.set_state BacktestEnvironment.set_sensorBuffers
       BacktestEnvironment.set_subscribedSensors BacktestEnvironment.set_updateCallbacks
       BacktestEnvironment.set_pendingTrades BacktestEnvironment.set_currentTime
       BacktestEnvironment.set_wallet BacktestEnvironment.set_eventBus
       BacktestEnvironment.set_nextPositionId BacktestEnvironment.set_agentRef
       BacktestEnvironment.set_agent BacktestEnvironment.set_tradeResolvedCallback
       BacktestEnvironment.set_resolved BacktestEnvironment.set_hooks
       BacktestEnvironment.set_warnings BacktestEnvironment.emit fst snd] in *.

(** The cases of a settlement: tie or not, win or not, callback set or
    not, agent wired or not. *)
Ltac resolve_cases trade price env :=
  unfold BacktestEnvironment.resolveTradeAtPrice, BacktestEnvironment.notifyAgent,
    BacktestEnvironment.notifyRunner, BacktestEnvironment.emitClosed,
    BacktestEnvironment.closeInLedger, BacktestEnvironment.settleWallet;
  destruct (BacktestEnvironment.isTie trade price) eqn:?,
           (BacktestEnvironment.isWin trade price) eqn:?; env_cbn;
  destruct (BacktestEnvironment.tradeResolvedCallback env) eqn:?; env_cbn;
  destruct (BacktestEnvironment.agentRef env) eqn:?; env_cbn.

(** ** Arithmetic and bounded buffers *)

Lemma Qc_compute_eq (x y : Qc) : Qeq_bool x y = true → x = y.
Proof. intros E. apply Qc_is_canon. by apply Qeq_bool_iff. Qed.

Lemma Qc_compute_ne (x y : Qc) : Qeq_bool x y = false → x ≠ y.
Proof.
  intros E ->. rewrite (proj2 (Qeq_bool_iff y y)) in E; [done|reflexivity].
Qed.

Lemma length_pushShift {X} (c : Capacity) (x : X) (arr : list X) :
  length (pushShift c x arr) =
    if lengthExceeds (S (length arr)) c then length arr else S (length arr).
Proof.
  unfold pushShift. rewrite length_app, Nat.add_1_r.
  destruct (lengthExceeds _ _); [|by rewrite length_app, Nat.add_1_r].
  destruct arr; simpl; [done|]. by rewrite length_app, Nat.add_1_r.
Qed.

Lemma last_pushShift {X} (c : Capacity) (x : X) (arr : list X) :
  match c with Limit n => 1 ≤ n | ObjectRef => True end →
  last (pushShift c x arr) = Some x.
Proof.
  intros Hc. unfold pushShift.
  destruct (lengthExceeds _ _) eqn:Hex; [|by rewrite last_snoc].
  destruct c as [n|]; [|done]. simpl in Hex. apply bool_decide_eq_true in Hex.
  rewrite length_app in Hex. simpl in Hex.
  destruct arr as [|y arr]; simpl in *; [lia|]. by rewrite last_snoc.
Qed.

(** ** Settlement of a backtest trade *)

Section Settlement.
Import BacktestEnvironment.
Context {A : Type} `{!Agent A}.
Implicit Types (env : BacktestEnvironment.t A) (trade : PendingTrade.t).

(** What a settlement leaves alone. *)
Definition settlementFrame env env' : Prop :=
  sensorBuffers env' = sensorBuffers env ∧
  subscribedSensors env' = subscribedSensors env ∧
  updateCallbacks env' = updateCallbacks env ∧
  pendingTrades env' = pendingTrades env ∧
  currentTime env' = currentTime env ∧
  payoutPercent env' = payoutPercent env ∧
  nextPositionId env' = nextPositionId env ∧
  assetConfig env' = assetConfig env ∧
  allCandles env' = allCandles env ∧
  agentRef env' = agentRef env ∧
  tradeResolvedCallback env' = tradeResolvedCallback env ∧
  warnings env' = warnings env.

Lemma resolveTradeAtPrice_frame trade price env :
  settlementFrame env (resolveTradeAtPrice trade price env).
Proof. resolve_cases trade price env; repeat split; reflexivity. Qed.

Lemma resolveTradeAtPrice_wallet trade price env :
  wallet (resolveTradeAtPrice trade price env) =
    if isTie trade price then Wallet.credit (PendingTrade.invest trade) (wallet env)
    else if isWin trade price then
      Wallet.credit (PendingTrade.invest trade + profit trade)%Qc (wallet env)
    else wallet env.
Proof. resolve_cases trade price env; reflexivity. Qed.

Lemma resolveTradeAtPrice_state trade price env :
  state (resolveTradeAtPrice trade price env) =
    EnvironmentState.onPositionChanged (closedPosition trade price env)
      (EnvironmentState.set_balance
         (Wallet.balance (wallet (resolveTradeAtPrice trade price env))) (state env)).
Proof. resolve_cases trade price env; reflexivity. Qed.

Lemma resolveTradeAtPrice_resolved trade price env :
  resolved (resolveTradeAtPrice trade price env) =
    if tradeResolvedCallback env then
      resolved env ++
        [mkRecord trade
           (if isTie trade price then "tie" else if isWin trade price then "win" else "loss")
           (pnlAt trade price) price (currentTime env)
           (Wallet.balance (wallet (resolveTradeAtPrice trade price env)))]
    else resolved env.
Proof. resolve_cases trade price env; reflexivity. Qed.

Lemma resolveTradeAtPrice_hooks trade price env :
  hooks (resolveTradeAtPrice trade price env) =
    if agentRef env then hooks env ++ [TradeResult (closedPosition trade price env)]
    else hooks env.
Proof. resolve_cases trade price env; reflexivity. Qed.

(** The ledger after a closed position with a given reason. *)
Lemma onPositionChanged_closed (pos : Position.t) (s : EnvironmentState.t) :
  Position.status pos = "closed" →
  let s' := EnvironmentState.onPositionChanged pos s in
  EnvironmentState.closedCount s' = EnvironmentState.closedCount s + 1 ∧
  EnvironmentState.winCount s' =
    (if bool_decide (Position.close_reason pos = "win")
     then EnvironmentState.winCount s + 1 else EnvironmentState.winCount s) ∧
  EnvironmentState.lossCount s' =
    (if bool_decide (Position.close_reason pos = "win")
     then EnvironmentState.lossCount s else EnvironmentState.lossCount s + 1) ∧
  last (EnvironmentState.recentClosed s') = Some pos.
Proof.
  intros Hst. unfold EnvironmentState.onPositionChanged. rewrite Hst. simpl.
  repeat split. apply last_pushShift. unfold EnvironmentState.maxRecentClosed. lia.
Qed.
End Settlement.

Section SettlementClaims.
Import BacktestEnvironment.
Context {A : Type} `{!Agent A}.
Implicit Types (env : BacktestEnvironment.t A) (trade : PendingTrade.t).

Lemma isTie_at_open trade : isTie trade (PendingTrade.openQuote trade) = true.
Proof. unfold isTie. by rewrite bool_decide_eq_true_2. Qed.





(** C4 (what the code does).  Settling a trade at its open quote, a
    tie, adds one to [lossCount] of the ledger; [winCount] stays and
    [closedCount] grows by one. *)
Theorem tie_settlement_counts_a_loss env trade :
  let pos := closedPosition trade (PendingTrade.openQuote trade) env in
  let env' := resolveTradeAtPrice trade (PendingTrade.openQuote trade) env in
  Position.close_reason pos = "tie" ∧
  state env' =
    EnvironmentState.onPositionChanged pos
      (EnvironmentState.set_balance (Wallet.balance (wallet env')) (state env)) ∧
  EnvironmentState.lossCount (state env') = EnvironmentState.lossCount (state env) + 1 ∧
  EnvironmentState.winCount (state env') = EnvironmentState.winCount (state env) ∧
  EnvironmentState.closedCount (state env') = EnvironmentState.closedCount (state env) + 1.
Proof.
  intros pos env'.
  assert (Hreason : Position.close_reason pos = "tie").
  { subst pos. unfold closedPosition, closeReasonAt. by rewrite isTie_at_open. }
  assert (Hstatus : Position.status pos = "closed") by done.
  assert (Hstate := resolveTradeAtPrice_state trade (PendingTrade.openQuote trade) env).
  fold env' in Hstate. fold pos in Hstate.
  split; [done|]. split; [done|].
  rewrite Hstate. clearbody pos.
  destruct (onPositionChanged_closed pos
              (EnvironmentState.set_balance (Wallet.balance (wallet env')) (state env))
              Hstatus)
    as (Hc & Hw & Hl & _).
  rewrite Hreason in Hw, Hl. by rewrite Hc, Hw, Hl.
Qed.

(** C5.  A call trade with stake 20 and payout 85 percent, opened at
    1.1000 and closed at 1.1010: it is a win, its pnl is 17, and the
    settlement credits 37 to the wallet. *)
Theorem winning_call_example env id activeId openTime expirationTime expirationSize :
  let trade :=
    PendingTrade.mk id Call activeId (int 20) (num 11000 10000) openTime expirationTime
      expirationSize (int 85) in
  let closePrice := num 11010 10000 in
  let env' := resolveTradeAtPrice trade closePrice env in
  closeReasonAt trade closePrice = "win" ∧
  pnlAt trade closePrice = int 17 ∧
  (PendingTrade.invest trade * int 85 / int 100 = int 17)%Qc ∧
  (∃ pos, last (EnvironmentState.recentClosed (state env')) = Some pos
          ∧ Position.close_reason pos = "win"
          ∧ Position.pnl pos = Some (int 17)) ∧
  Wallet.balance (wallet env') = (Wallet.balance (wallet env) + int 37)%Qc.
Proof.
  intros trade closePrice env'.
  assert (Htie : isTie trade closePrice = false).
  { unfold isTie. apply bool_decide_eq_false_2. by apply Qc_compute_ne. }
  assert (Hwin : isWin trade closePrice = true).
  { unfold isWin. rewrite Htie.
    cbn [negb andb PendingTrade.direction PendingTrade.openQuote trade].
    rewrite (bool_decide_eq_true_2 (Call = Call)) by done.
    rewrite (bool_decide_eq_true_2 (_ < closePrice)%Qc); [done|]. reflexivity. }
  assert (Hprofit : profit trade = int 17) by by apply Qc_compute_eq.
  assert (Hreason : closeReasonAt trade closePrice = "win").
  { unfold closeReasonAt. by rewrite Htie, Hwin. }
  assert (Hpnl : pnlAt trade closePrice = int 17).
  { unfold pnlAt. by rewrite Htie, Hwin. }
  split; [done|]. split; [done|]. split; [by apply Qc_compute_eq|]. split.
  - exists (closedPosition trade closePrice env). split.
    + subst env'. rewrite resolveTradeAtPrice_state. by apply onPositionChanged_closed.
    + unfold closedPosition. simpl. by rewrite Hreason, Hpnl.
  - subst env'. rewrite resolveTradeAtPrice_wallet, Htie, Hwin, Hprofit.
    cbn [Wallet.credit Wallet.balance PendingTrade.invest trade].
    rewrite (Qc_compute_eq (int 20 + int 17)%Qc (int 37)); reflexivity.
Qed.
End SettlementClaims.

(** ** Sensor buffers *)

Section Buffers.
Context {X : Type}.
Implicit Types (arr xs : list X) (x : X) (n : Z).

Lemma tail_drop (k : nat) xs : tail (drop k xs) = drop (S k) xs.
Proof. revert k. induction xs as [|y xs IH]; intros [|k]; simpl; auto. Qed.

Lemma pushShift_bounded n x arr :
  0 ≤ n → Z.of_nat (length arr) ≤ n → Z.of_nat (length (pushShift (Limit n) x arr)) ≤ n.
Proof.
  intros Hn Hlen. rewrite length_pushShift. simpl.
  case_bool_decide; lia.
Qed.

Lemma pushShift_unbounded x arr : pushShift ObjectRef x arr = arr ++ [x].
Proof. reflexivity. Qed.

(** One push into a buffer that holds the last [n] of [xs]. *)
Lemma pushShift_drop n x xs :
  0 ≤ n →
  pushShift (Limit n) x (drop (length xs - Z.to_nat n) xs) =
    drop (length (xs ++ [x]) - Z.to_nat n) (xs ++ [x]).
Proof.
  intros Hn. unfold pushShift.
  rewrite <- drop_app_le by lia.
  rewrite length_drop, !length_app. simpl.
  case_bool_decide as Hex.
  - rewrite tail_drop. f_equal. lia.
  - f_equal. lia.
Qed.

(** Pushed one by one into an empty buffer of capacity [n], the items
    that remain are the last [n], in arrival order. *)
Lemma pushShift_all n xs :
  0 ≤ n →
  foldl (fun b x => pushShift (Limit n) x b) [] xs = drop (length xs - Z.to_nat n) xs.
Proof.
  intros Hn. induction xs as [|x xs IH] using rev_ind; [done|].
  rewrite foldl_app. simpl. rewrite IH. by apply pushShift_drop.
Qed.

Lemma pushShift_all_unbounded arr xs :
  foldl (fun b x => pushShift ObjectRef x b) arr xs = arr ++ xs.
Proof.
  revert arr. induction xs as [|x xs IH]; intros arr; simpl.
  - by rewrite app_nil_r.
  - rewrite IH, pushShift_unbounded. by rewrite <- app_assoc.
Qed.

Lemma foldl_pushShift_bounded n arr xs :
  0 ≤ n → Z.of_nat (length arr) ≤ n →
  Z.of_nat (length (foldl (fun b x => pushShift (Limit n) x b) arr xs)) ≤ n.
Proof.
  intros Hn. revert arr. induction xs as [|x xs IH]; intros arr Hlen; simpl; [done|].
  apply IH. by apply pushShift_bounded.
Qed.
End Buffers.

(** The last entry of [buffer] is a candle of the period of [candle]. *)
Definition sameSlot (buffer : list SensorItem) (candle : Candle.t) : Prop :=
  ∃ lastItem, last buffer = Some lastItem ∧ itemFrom lastItem = Some (Candle.from candle).

Lemma candleInto_replace c candle buffer :
  sameSlot buffer candle →
  SensorManager.candleInto c candle buffer = removelast buffer ++ [ItemCandle candle] ∧
  length (SensorManager.candleInto c candle buffer) = length buffer.
Proof.
  intros (lastItem & Hlast & Hfrom). unfold SensorManager.candleInto.
  rewrite Hlast, bool_decide_eq_true_2 by done.
  split; [|by rewrite length_insert].
  destruct buffer as [|y buffer] using rev_ind; [done|].
  rewrite removelast_last, length_app. simpl.
  replace (Init.Nat.pred (length buffer + 1)) with (length buffer + 0)%nat by lia.
  by rewrite insert_app_r.
Qed.

Lemma candleInto_append c candle buffer :
  ¬ sameSlot buffer candle →
  SensorManager.candleInto c candle buffer = pushShift c (ItemCandle candle) buffer.
Proof.
  intros Hno. unfold SensorManager.candleInto.
  destruct (last buffer) as [lastItem|] eqn:Hlast; [|done].
  case_bool_decide; [|done]. destruct Hno. by exists lastItem.
Qed.

Lemma candleInto_bounded n candle buffer :
  0 ≤ n → Z.of_nat (length buffer) ≤ n →
  Z.of_nat (length (SensorManager.candleInto (Limit n) candle buffer)) ≤ n.
Proof.
  intros Hn Hlen. unfold SensorManager.candleInto.
  destruct (last buffer); [case_bool_decide|]; rewrite ?length_insert; try done;
    by apply pushShift_bounded.
Qed.

(** What can be done to a sensor manager. *)
Inductive SensorOp :=
  | OpSubscribe (s : Sensor.t)
  | OpUnsubscribe (sensorId : string)
  | OpPushData (sensorId : string) (data : SensorItem)
  | OpPushCandle (sensorId : string) (candle : Candle.t)
  | OpPrefill (sensorId : string) (data : list SensorItem)
  | OpOnUpdate (cb : SensorManager.UpdateCallback)
  | OpOffUpdate (cb : SensorManager.UpdateCallback).

Definition applySensorOp (m : SensorManager.t) (op : SensorOp) : SensorManager.t :=
  match op with
  | OpSubscribe s => SensorManager.subscribe s m
  | OpUnsubscribe sensorId => SensorManager.unsubscribe sensorId m
  | OpPushData sensorId data => SensorManager.pushData sensorId data m
  | OpPushCandle sensorId candle => SensorManager.pushCandle sensorId candle m
  | OpPrefill sensorId data => SensorManager.prefill sensorId data m
  | OpOnUpdate cb => SensorManager.onUpdate cb m
  | OpOffUpdate cb => SensorManager.offUpdate cb m
  end.

(** Every buffer of a map holds at most [n] items. *)
Definition buffersWithin (n : Z) (buffers : gmap string (list SensorItem)) : Prop :=
  ∀ sensorId buffer, buffers !! sensorId = Some buffer → Z.of_nat (length buffer) ≤ n.

Lemma buffersWithin_insert n buffers sensorId buffer :
  buffersWithin n buffers → Z.of_nat (length buffer) ≤ n →
  buffersWithin n (<[sensorId := buffer]> buffers).
Proof.
  intros Hall Hlen id b. rewrite lookup_insert. case_decide; [|by apply Hall].
  by intros [= <-].
Qed.

Lemma buffersWithin_delete n buffers sensorId :
  buffersWithin n buffers → buffersWithin n (delete sensorId buffers).
Proof.
  intros Hall id b. rewrite lookup_delete. case_decide; [done|by apply Hall].
Qed.

Lemma applySensorOp_bounded n m op :
  0 ≤ n → SensorManager.maxBufferSize m = Limit n →
  buffersWithin n (SensorManager.sensorData m) →
  SensorManager.maxBufferSize (applySensorOp m op) = Limit n ∧
  buffersWithin n (SensorManager.sensorData (applySensorOp m op)).
Proof.
  intros Hn Hcap Hall. destruct op as [s|id|id x|id c|id xs|cb|cb]; simpl.
  - unfold SensorManager.subscribe. destruct (_ !! _); [done|]. simpl.
    split; [done|]. apply buffersWithin_insert; [done|simpl; lia].
  - unfold SensorManager.unsubscribe. destruct (_ !! _); [|done]. simpl.
    split; [done|]. by apply buffersWithin_delete.
  - unfold SensorManager.pushData. destruct (_ !! id) as [buffer|] eqn:Hb; [|done].
    simpl. split; [done|]. apply buffersWithin_insert; [done|].
    rewrite Hcap. apply pushShift_bounded; [done|]. by eapply Hall.
  - unfold SensorManager.pushCandle. destruct (_ !! id) as [buffer|] eqn:Hb; [|done].
    simpl. split; [done|]. apply buffersWithin_insert; [done|].
    rewrite Hcap. apply candleInto_bounded; [done|]. by eapply Hall.
  - unfold SensorManager.prefill. destruct (_ !! id) as [buffer|] eqn:Hb; [|done].
    simpl. split; [done|]. apply buffersWithin_insert; [done|].
    rewrite Hcap. apply foldl_pushShift_bounded; [done|]. by eapply Hall.
  - done.
  - done.
Qed.

(** A manager built with a numeric capacity [n] never holds more than
    [n] items in a buffer, whatever is done to it; [n] is 100 when the
    constructor is given no capacity. *)
Lemma sensor_buffers_bounded n ops :
  0 ≤ n →
  buffersWithin n
    (SensorManager.sensorData (foldl applySensorOp (SensorManager.create (Some (Limit n))) ops)).
Proof.
  intros Hn.
  cut (SensorManager.maxBufferSize
         (foldl applySensorOp (SensorManager.create (Some (Limit n))) ops) = Limit n ∧
       buffersWithin n
         (SensorManager.sensorData
            (foldl applySensorOp (SensorManager.create (Some (Limit n))) ops))).
  { by intros [_ ?]. }
  induction ops as [|op ops IH] using rev_ind.
  - split; [done|]. intros id b. simpl. by rewrite lookup_empty.
  - rewrite foldl_app. simpl. destruct IH as [Hcap Hall]. by apply applySensorOp_bounded.
Qed.

Lemma sensor_buffers_bounded_default ops :
  buffersWithin 100
    (SensorManager.sensorData (foldl applySensorOp (SensorManager.create None) ops)).
Proof. by apply (sensor_buffers_bounded 100 ops). Qed.

(** Pushing into one sensor of a manager pushes into its buffer. *)
Lemma pushData_all m sensorId buffer xs :
  SensorManager.sensorData m !! sensorId = Some buffer →
  SensorManager.getLatest sensorId
    (foldl (fun m x => SensorManager.pushData sensorId x m) m xs) =
  foldl (fun b x => pushShift (SensorManager.maxBufferSize m) x b) buffer xs.
Proof.
  revert m buffer. induction xs as [|x xs IH]; intros m buffer Hb; simpl.
  - unfold SensorManager.getLatest. by rewrite Hb.
  - unfold SensorManager.pushData at 2. rewrite Hb.
    erewrite IH; [done|]. simpl. by rewrite lookup_insert_eq.
Qed.

Lemma pushCandle_all m sensorId buffer cs :
  SensorManager.sensorData m !! sensorId = Some buffer →
  SensorManager.getLatest sensorId
    (foldl (fun m c => SensorManager.pushCandle sensorId c m) m cs) =
  foldl (fun b c => SensorManager.candleInto (SensorManager.maxBufferSize m) c b) buffer cs.
Proof.
  revert m buffer. induction cs as [|c cs IH]; intros m buffer Hb; simpl.
  - unfold SensorManager.getLatest. by rewrite Hb.
  - unfold SensorManager.pushCandle at 2. rewrite Hb.
    erewrite IH; [done|]. simpl. by rewrite lookup_insert_eq.
Qed.

(** No two candles in a row share their period start. *)
Definition distinctPeriods (cs : list Candle.t) : Prop :=
  ∀ i c d, cs !! i = Some c → cs !! S i = Some d → Candle.from c ≠ Candle.from d.

Lemma last_drop_lt {X} (k : nat) (l : list X) : (k < length l)%nat → last (drop k l) = last l.
Proof.
  intros Hk. rewrite !last_lookup, lookup_drop, length_drop. f_equal. lia.
Qed.

(** Candles of distinct periods pushed into an empty buffer of capacity
    [n]: the last [n] remain, in arrival order. *)
Lemma candleInto_all n cs :
  1 ≤ n → distinctPeriods cs →
  foldl (fun b c => SensorManager.candleInto (Limit n) c b) [] cs =
    drop (length cs - Z.to_nat n) (ItemCandle <$> cs).
Proof.
  intros Hn. induction cs as [|x cs IH] using rev_ind; intros Hd; [done|].
  rewrite foldl_app. simpl. rewrite IH; cycle 1.
  { intros i c d Hc Hd'. apply (Hd i); by apply lookup_app_l_Some. }
  rewrite candleInto_append.
  - rewrite fmap_app, length_app. simpl.
    rewrite <- (length_fmap ItemCandle cs) at 1 2.
    rewrite (pushShift_drop n (ItemCandle x) (ItemCandle <$> cs)) by lia.
    by rewrite length_app.
  - intros (lastItem & Hlast & Hfrom).
    destruct cs as [|c cs _] using rev_ind; [done|].
    rewrite last_drop_lt in Hlast by (rewrite length_fmap, length_app; simpl; lia).
    rewrite fmap_app in Hlast. change (ItemCandle <$> [c]) with [ItemCandle c] in Hlast.
    rewrite last_snoc in Hlast. injection Hlast as <-.
    simpl in Hfrom. injection Hfrom as Hfrom.
    apply (Hd (length cs) c x); [| |done].
    + rewrite lookup_app_l by (rewrite length_app; simpl; lia).
      by rewrite list_lookup_middle.
    + rewrite <- app_assoc. simpl.
      replace (S (length cs)) with (length cs + 1)%nat by lia.
      by rewrite lookup_app_r, Nat.add_comm, Nat.add_sub by lia.
Qed.

(** The candle of period [i] of instrument 1. *)
Definition candleAt (i : Z) : Candle.t :=
  Candle.mk i i (i + 1) 0%Qc 0%Qc 0%Qc 0%Qc 0%Qc 1 1.

Lemma distinctPeriods_candleAt m n : distinctPeriods (candleAt <$> seqZ m n).
Proof.
  intros i c d. rewrite !list_lookup_fmap.
  destruct (seqZ m n !! i) as [a|] eqn:Ha; [|done].
  destruct (seqZ m n !! S i) as [b|] eqn:Hb; [|done].
  apply lookup_seqZ in Ha as [-> _]. apply lookup_seqZ in Hb as [-> _].
  simpl. intros [= <-] [= <-]. simpl. lia.
Qed.

Definition candleSensor : Sensor.t :=
  Sensor.mk (SensorManager.candleId 1 1) SCandle (<["active_id" := 1]> (<["size" := 1]> ∅)).

Lemma hundred_fifty_candles :
  SensorManager.getLatest (SensorManager.candleId 1 1)
    (foldl (fun m c => SensorManager.pushCandle (SensorManager.candleId 1 1) c m)
       (SensorManager.subscribe candleSensor (SensorManager.create None))
       (candleAt <$> seqZ 1 150)) =
  ItemCandle <$> (candleAt <$> seqZ 51 100).
Proof.
  erewrite pushCandle_all; [|reflexivity].
  change (SensorManager.maxBufferSize _) with (Limit 100).
  rewrite candleInto_all; [|lia|apply distinctPeriods_candleAt].
  vm_compute. reflexivity.
Qed.

(** C7 (what the code does).  The live environment builds its sensor
    manager with the account facade where the capacity goes; the buffer
    of a sensor of that manager keeps every item pushed into it, so 101
    items leave a buffer of 101. *)
Theorem live_sensor_buffer_outgrows_default {W : Type} (w : W) (items : list SensorItem) :
  let sensorId := SensorManager.moodId 1 in
  let moodSensor := Sensor.mk sensorId SMood (<["active_id" := 1]> ∅) in
  let sensors :=
    SensorManager.subscribe moodSensor
      (TradingEnvironment.sensors (TradingEnvironment.create w)) in
  let moods := (fun i => ItemMood (int i)) <$> seqZ 1 101 in
  SensorManager.maxBufferSize sensors = ObjectRef ∧
  SensorManager.getLatest sensorId
    (foldl (fun m x => SensorManager.pushData sensorId x m) sensors items) = items ∧
  length
    (SensorManager.getLatest sensorId
       (foldl (fun m x => SensorManager.pushData sensorId x m) sensors moods)) = 101%nat.
Proof.
  intros sensorId moodSensor sensors moods.
  assert (Hbuf : SensorManager.sensorData sensors !! sensorId = Some []) by reflexivity.
  assert (Hall : ∀ xs,
    SensorManager.getLatest sensorId
      (foldl (fun m x => SensorManager.pushData sensorId x m) sensors xs) = xs).
  { intros xs. rewrite (pushData_all sensors sensorId [] xs Hbuf).
    change (SensorManager.maxBufferSize sensors) with ObjectRef.
    by rewrite pushShift_all_unbounded. }
  split; [reflexivity|]. split; [apply Hall|]. rewrite Hall. reflexivity.
Qed.

Lemma pushShift_room {X} (c : Capacity) (x : X) (arr : list X) :
  lengthExceeds (S (length arr)) c = false → pushShift c x arr = arr ++ [x].
Proof. intros Hroom. unfold pushShift. by rewrite length_app, Nat.add_1_r, Hroom. Qed.

(** What the arrival of [candle] makes of [buffer]: the last entry is
    replaced when it is a candle of the same period, and the length
    stays; otherwise the candle is pushed, which appends it (and drops
    the oldest entry when the buffer was full). *)
Definition candleArrival (c : Capacity) (candle : Candle.t) (buffer buffer' : list SensorItem)
  : Prop :=
  (sameSlot buffer candle →
     buffer' = removelast buffer ++ [ItemCandle candle] ∧ length buffer' = length buffer) ∧
  (¬ sameSlot buffer candle →
     buffer' = pushShift c (ItemCandle candle) buffer ∧
     (lengthExceeds (S (length buffer)) c = false → buffer' = buffer ++ [ItemCandle candle]) ∧
     (match c with Limit n => 1 ≤ n | ObjectRef => True end →
      last buffer' = Some (ItemCandle candle))).

Lemma candleInto_arrival c candle buffer :
  candleArrival c candle buffer (SensorManager.candleInto c candle buffer).
Proof.
  split.
  - apply candleInto_replace.
  - intros Hno. rewrite (candleInto_append _ _ _ Hno).
    split; [done|]. split; [apply pushShift_room|apply last_pushShift].
Qed.

(** C8.  In the live sensor manager and in the backtest environment
    alike, a candle whose period start equals that of the last entry of
    its buffer replaces that entry and leaves the length unchanged; a
    candle of another period is appended. *)
Theorem candle_replaces_or_appends :
  (∀ (m : SensorManager.t) sensorId candle buffer,
     SensorManager.sensorData m !! sensorId = Some buffer →
     candleArrival (SensorManager.maxBufferSize m) candle buffer
       (SensorManager.getLatest sensorId (SensorManager.pushCandle sensorId candle m))) ∧
  (∀ (A : Type) (agent : Agent A) (env : BacktestEnvironment.t A) candle buffer,
     let sensorId := SensorManager.candleId (Candle.active_id candle) (Candle.size candle) in
     BacktestEnvironment.sensorBuffers env !! sensorId = Some buffer →
     ∃ buffer',
       candleArrival (Limit 100) candle buffer buffer' ∧
       BacktestEnvironment.feedCandle candle env =
         BacktestEnvironment.runCallbacks
           (BacktestEnvironment.set_sensorBuffers
              (<[sensorId := buffer']> (BacktestEnvironment.sensorBuffers env)) env)).
Proof.
  split.
  - intros m sensorId candle buffer Hb.
    unfold SensorManager.pushCandle, SensorManager.getLatest. rewrite Hb. simpl.
    rewrite lookup_insert_eq. simpl. apply candleInto_arrival.
  - intros A agent env candle buffer sensorId Hb.
    exists (SensorManager.candleInto (Limit 100) candle buffer).
    split; [apply candleInto_arrival|].
    unfold BacktestEnvironment.feedCandle. fold sensorId. by rewrite Hb.
Qed.

(** ** The event bus *)

(** What can be done to an event bus; [BusClock] is the clock behind
    [timeFn] moving on. *)
Inductive BusOp :=
  | BusEmit (ty : string) (p : EventBus.Payload)
  | BusOn (ty : string) (h : EventBus.Handler)
  | BusOff (ty : string) (h : EventBus.Handler)
  | BusSetPersist (fn : EventBus.PersistFn)
  | BusClock (now : Z).

Definition applyBusOp (b : EventBus.t) (op : BusOp) : EventBus.t :=
  match op with
  | BusEmit ty p => EventBus.emit ty p b
  | BusOn ty h => EventBus.on ty h b
  | BusOff ty h => EventBus.off ty h b
  | BusSetPersist fn => EventBus.setPersist fn b
  | BusClock now => EventBus.set_timeFn now b
  end.

(** The events that the emits among [ops] build, in emission order, on a
    bus of run [runId] whose clock shows [now]. *)
Fixpoint emissions (runId : string) (now : Z) (ops : list BusOp)
  : list EventBus.TradingEvent :=
  match ops with
  | [] => []
  | BusEmit ty p :: rest => EventBus.mkEvent runId ty now p :: emissions runId now rest
  | BusClock now' :: rest => emissions runId now' rest
  | _ :: rest => emissions runId now rest
  end.

(** The events a bus has handed to a persistence function, then those it
    still holds back. *)
Definition handedOver (b : EventBus.t) : list EventBus.TradingEvent :=
  (EventBus.persisted b).*2 ++ EventBus.buffer b.

(** Once a persistence function is set the buffer is empty. *)
Definition flushed (b : EventBus.t) : Prop :=
  match EventBus.persistFn b with
  | Some _ => EventBus.buffer b = []
  | None => EventBus.persisted b = []
  end.

Lemma applyBusOp_handedOver b op :
  flushed b →
  flushed (applyBusOp b op) ∧
  EventBus.runId (applyBusOp b op) = EventBus.runId b ∧
  EventBus.timeFn (applyBusOp b op) =
    match op with BusClock now => now | _ => EventBus.timeFn b end ∧
  handedOver (applyBusOp b op) =
    handedOver b ++
      match op with
      | BusEmit ty p => [EventBus.mkEvent (EventBus.runId b) ty (EventBus.timeFn b) p]
      | _ => []
      end.
Proof.
  unfold flushed, handedOver. intros Hf.
  destruct op as [ty p|ty h|ty h|fn|now]; simpl; rewrite ?app_nil_r; try done.
  - unfold EventBus.emit. destruct (EventBus.persistFn b) as [fn|] eqn:Hp; simpl;
      rewrite ?Hp.
    + by rewrite Hf, fmap_app, !app_nil_r.
    + by rewrite Hf.
  - repeat split; try done.
    by rewrite fmap_app, <- list_fmap_compose, list_fmap_id.
Qed.

Lemma foldl_applyBusOp_handedOver ops b :
  flushed b →
  flushed (foldl applyBusOp b ops) ∧
  handedOver (foldl applyBusOp b ops) =
    handedOver b ++ emissions (EventBus.runId b) (EventBus.timeFn b) ops.
Proof.
  revert b. induction ops as [|op ops IH]; intros b Hf; simpl.
  - by rewrite app_nil_r.
  - destruct (applyBusOp_handedOver b op Hf) as (Hf' & Hid & Hnow & Hh).
    destruct (IH _ Hf') as [Hf'' Hh'']. split; [done|].
    rewrite Hh'', Hh, Hid, Hnow, <- app_assoc. by destruct op.
Qed.

(** C10.  On a bus driven by any sequence of operations from its
    creation, the events handed to a persistence function, followed by
    those still buffered, are the events emitted, each once and in
    emission order; the buffer is empty as soon as a persistence
    function is set, and nothing is persisted before.  Step by step:
    [setPersist] hands the buffered events over in order and empties
    the buffer, and an [emit] hands its event over at once when a
    persistence function is set and buffers it otherwise. *)
Theorem event_bus_persists_in_order :
  (∀ runId now ops,
     let b := foldl applyBusOp (EventBus.create runId now) ops in
     (EventBus.persisted b).*2 ++ EventBus.buffer b = emissions runId now ops ∧
     match EventBus.persistFn b with
     | Some _ => EventBus.buffer b = [] ∧ (EventBus.persisted b).*2 = emissions runId now ops
     | None => EventBus.persisted b = [] ∧ EventBus.buffer b = emissions runId now ops
     end) ∧
  (∀ b fn,
     EventBus.persistFn (EventBus.setPersist fn b) = Some fn ∧
     EventBus.buffer (EventBus.setPersist fn b) = [] ∧
     EventBus.persisted (EventBus.setPersist fn b) =
       EventBus.persisted b ++ ((fun e => (fn, e)) <$> EventBus.buffer b)) ∧
  (∀ b ty p,
     let event := EventBus.mkEvent (EventBus.runId b) ty (EventBus.timeFn b) p in
     match EventBus.persistFn b with
     | Some fn =>
         EventBus.persisted (EventBus.emit ty p b) = EventBus.persisted b ++ [(fn, event)] ∧
         EventBus.buffer (EventBus.emit ty p b) = EventBus.buffer b
     | None =>
         EventBus.persisted (EventBus.emit ty p b) = EventBus.persisted b ∧
         EventBus.buffer (EventBus.emit ty p b) = EventBus.buffer b ++ [event]
     end).
Proof.
  split; [|split].
  - intros runId now ops b.
    destruct (foldl_applyBusOp_handedOver ops (EventBus.create runId now)) as [Hf Hh];
      [done|].
    fold b in Hf, Hh. unfold handedOver in Hh. simpl in Hh. split; [done|].
    unfold flushed in Hf. destruct (EventBus.persistFn b).
    + split; [done|]. by rewrite Hf, app_nil_r in Hh.
    + split; [done|]. by rewrite Hf in Hh.
  - done.
  - intros b ty p event. unfold EventBus.emit.
    by destruct (EventBus.persistFn b).
Qed.

(** ** Batches of actions *)

(** The event that [executeActions] emits for an action, given the
    outcome of the action. *)
Definition actionEmit (action : Action) (outcome : ActionError + ActionOutput)
  : string * EventBus.Payload :=
  match outcome with
  | inr _ => ("action:executed", EventBus.ActionExecuted (actionType action) action)
  | inl err => ("action:failed", EventBus.ActionFailed (actionType action) action err)
  end.

Definition isActionEmit (e : string * EventBus.Payload) : bool :=
  bool_decide (e.1 = "action:executed" ∨ e.1 = "action:failed").

(** The bus after a sequence of emits. *)
Definition emitAll (emits : list (string * EventBus.Payload)) (b : EventBus.t) : EventBus.t :=
  foldl (fun b e => EventBus.emit e.1 e.2 b) b emits.

Lemma emitAll_app emits1 emits2 b :
  emitAll (emits1 ++ emits2) b = emitAll emits2 (emitAll emits1 b).
Proof. unfold emitAll. by rewrite foldl_app. Qed.

Section BacktestBatch.
Import BacktestEnvironment.
Context {A : Type} `{!Agent A}.
Implicit Types (env : BacktestEnvironment.t A) (actions : list Action).

(** What one action emits on the bus beside its own event. *)
Definition tradeEmits (payload : TradePayload.t) env : list (string * EventBus.Payload) :=
  [("position:changed",
    EventBus.PositionChanged (nextPositionId env) "open" (TradePayload.activeId payload));
   ("trade:placed",
    EventBus.TradePlaced (TradePayload.activeId payload) (TradePayload.direction payload)
      (TradePayload.price payload) (TradePayload.expirationSize payload));
   ("wallet:changed",
    EventBus.WalletChanged
      (Wallet.balance (Wallet.debit (TradePayload.price payload) (wallet env)))
      (Wallet.balance (wallet env)) "trade:open")].

Lemma executeAction_eventBus action env :
  ∃ emits,
    eventBus (executeAction action env).2 = emitAll emits <$> eventBus env ∧
    filter isActionEmit emits = [].
Proof.
  destruct action as [payload|s|id|q|ty]; simpl.
  - unfold executeTrade. destruct (negb _); cbv zeta iota beta.
    + exists []. env_cbn. by destruct (eventBus env).
    + exists (tradeEmits payload env). split; [|done].
      unfold emitOpened, openTrade. env_cbn. by destruct (eventBus env).
  - exists []. split; [|done]. unfold executeSubscribe.
    repeat case_match; env_cbn; by destruct (eventBus env).
  - exists []. split; [|done]. unfold executeUnsubscribe. env_cbn. by destruct (eventBus env).
  - exists []. by destruct (eventBus env).
  - exists []. by destruct (eventBus env).
Qed.

Lemma executeActionsFrom_app i actions1 actions2 env :
  executeActionsFrom i (actions1 ++ actions2) env =
    let '(results1, env1) := executeActionsFrom i actions1 env in
    let '(results2, env2) := executeActionsFrom (i + length actions1) actions2 env1 in
    (results1 ++ results2, env2).
Proof.
  revert i env. induction actions1 as [|a actions1 IH]; intros i env; simpl.
  - rewrite Nat.add_0_r. by destruct (executeActionsFrom i actions2 env).
  - destruct (executeAction a env) as [r env1].
    rewrite IH. destruct (executeActionsFrom (S i) actions1 _) as [results1 env'].
    replace (S i + length actions1)%nat with (i + S (length actions1))%nat by lia.
    by destruct (executeActionsFrom _ actions2 env').
Qed.

Lemma executeActionsFrom_slots i actions env :
  (fun r => (ActionResult.actionIndex r, ActionResult.type r))
    <$> (executeActionsFrom i actions env).1 =
  zip (seq i (length actions)) (actionType <$> actions).
Proof.
  revert i env. induction actions as [|a actions IH]; intros i env; simpl; [done|].
  destruct (executeAction a env) as [r env1].
  match goal with
  | |- context [executeActionsFrom (S i) actions ?e] =>
      specialize (IH (S i) e);
      destruct (executeActionsFrom (S i) actions e) as [results env']
  end.
  simpl in *. f_equal. exact IH.
Qed.

Lemma executeActionsFrom_events i actions env :
  ∃ emits,
    eventBus (executeActionsFrom i actions env).2 = emitAll emits <$> eventBus env ∧
    filter isActionEmit emits =
      zip_with actionEmit actions
        (ActionResult.outcome <$> (executeActionsFrom i actions env).1).
Proof.
  revert i env. induction actions as [|a actions IH]; intros i env; simpl.
  { exists []. by destruct (eventBus env). }
  destruct (executeAction_eventBus a env) as (emits1 & Hbus1 & Hnone).
  destruct (executeAction a env) as [r env1]. simpl in Hbus1.
  match goal with
  | |- context [executeActionsFrom (S i) actions ?e] => set (env2 := e)
  end.
  assert (Hbus2 : eventBus env2 = emitAll (emits1 ++ [actionEmit a r]) <$> eventBus env).
  { subst env2. destruct r; env_cbn; rewrite Hbus1; destruct (eventBus env); simpl;
      by rewrite ?emitAll_app. }
  destruct (IH (S i) env2) as (emits & Hbus & Hact).
  destruct (executeActionsFrom (S i) actions env2) as [results env'].
  simpl in *. exists ((emits1 ++ [actionEmit a r]) ++ emits). split.
  - rewrite Hbus, Hbus2. destruct (eventBus env); simpl; by rewrite ?emitAll_app.
  - rewrite !filter_app, Hnone, Hact. by destruct r.
Qed.
End BacktestBatch.

Section BacktestBatchSlots.
Import BacktestEnvironment.
Context {A : Type} `{!Agent A}.
Implicit Types (env : BacktestEnvironment.t A) (actions : list Action).

Lemma executeActions_slot before action after env :
  (executeActions (before ++ action :: after) env).1 !! length before =
    Some (ActionResult.mk (length before) (actionType action)
            (executeAction action (executeActions before env).2).1).
Proof.
  unfold executeActions. rewrite executeActionsFrom_app.
  destruct (executeActionsFrom 0 before env) as [results1 env1] eqn:E1.
  assert (Hlen : length results1 = length before).
  { pose proof (executeActionsFrom_slots 0 before env) as Hs. rewrite E1 in Hs.
    apply (f_equal length) in Hs.
    by rewrite length_fmap, length_zip, length_seq, length_fmap, Nat.min_id in Hs. }
  simpl. destruct (executeAction action env1) as [r env2].
  destruct (executeActionsFrom _ after _) as [results2 env3]. simpl.
  by rewrite lookup_app_r, Hlen, Nat.sub_diag by lia.
Qed.
End BacktestBatchSlots.

Section LiveBatch.
Context {W : Type} `{Venue W}.
Implicit Types (env : TradingEnvironment.t (W := W)) (actions : list Action).

Local Arguments ActionExecutor.execute : simpl never.

Lemma live_executeActionsFrom_app i actions1 actions2 env :
  TradingEnvironment.executeActionsFrom i (actions1 ++ actions2) env =
    let '(results1, env1) := TradingEnvironment.executeActionsFrom i actions1 env in
    let '(results2, env2) :=
      TradingEnvironment.executeActionsFrom (i + length actions1) actions2 env1 in
    (results1 ++ results2, env2).
Proof.
  revert i env. induction actions1 as [|a actions1 IH]; intros i env; simpl.
  - rewrite Nat.add_0_r. by destruct (TradingEnvironment.executeActionsFrom i actions2 env).
  - destruct (ActionExecutor.execute a (TradingEnvironment.sensors env, TradingEnvironment.venue env))
    as [r [sensors' w']].
    rewrite IH. destruct (TradingEnvironment.executeActionsFrom (S i) actions1 _)
      as [results1 env'].
    replace (S i + length actions1)%nat with (i + S (length actions1))%nat by lia.
    by destruct (TradingEnvironment.executeActionsFrom _ actions2 env').
Qed.

Lemma live_executeActionsFrom_slots i actions env :
  (fun r => (ActionResult.actionIndex r, ActionResult.type r))
    <$> (TradingEnvironment.executeActionsFrom i actions env).1 =
  zip (seq i (length actions)) (actionType <$> actions).
Proof.
  revert i env. induction actions as [|a actions IH]; intros i env; simpl; [done|].
  destruct (ActionExecutor.execute a (TradingEnvironment.sensors env, TradingEnvironment.venue env))
    as [r [sensors' w']].
  match goal with
  | |- context [TradingEnvironment.executeActionsFrom (S i) actions ?e] =>
      specialize (IH (S i) e);
      destruct (TradingEnvironment.executeActionsFrom (S i) actions e) as [results env']
  end.
  simpl in *. f_equal. exact IH.
Qed.

Lemma live_executeActionsFrom_events i actions env :
  TradingEnvironment.eventBus (TradingEnvironment.executeActionsFrom i actions env).2 =
    emitAll
      (zip_with actionEmit actions
         (ActionResult.outcome <$> (TradingEnvironment.executeActionsFrom i actions env).1))
      <$> TradingEnvironment.eventBus env.
Proof.
  revert i env. induction actions as [|a actions IH]; intros i env; simpl.
  { by destruct (TradingEnvironment.eventBus env). }
  destruct (ActionExecutor.execute a (TradingEnvironment.sensors env, TradingEnvironment.venue env))
    as [r [sensors' w']].
  match goal with
  | |- context [TradingEnvironment.executeActionsFrom (S i) actions ?e] =>
      specialize (IH (S i) e);
      destruct (TradingEnvironment.executeActionsFrom (S i) actions e) as [results env']
  end.
  simpl in *. rewrite IH.
  destruct r; simpl; by destruct (TradingEnvironment.eventBus env).
Qed.

Lemma live_executeActions_slot before action after env :
  (TradingEnvironment.executeActions (before ++ action :: after) env).1 !! length before =
    Some (ActionResult.mk (length before) (actionType action)
            (ActionExecutor.execute action
               (TradingEnvironment.sensors (TradingEnvironment.executeActions before env).2,
                TradingEnvironment.venue (TradingEnvironment.executeActions before env).2)).1).
Proof.
  unfold TradingEnvironment.executeActions. rewrite live_executeActionsFrom_app.
  destruct (TradingEnvironment.executeActionsFrom 0 before env) as [results1 env1] eqn:E1.
  assert (Hlen : length results1 = length before).
  { pose proof (live_executeActionsFrom_slots 0 before env) as Hs. rewrite E1 in Hs.
    apply (f_equal length) in Hs.
    by rewrite length_fmap, length_zip, length_seq, length_fmap, Nat.min_id in Hs. }
  simpl. destruct (ActionExecutor.execute action (TradingEnvironment.sensors env1, TradingEnvironment.venue env1))
    as [r [sensors' w']].
  destruct (TradingEnvironment.executeActionsFrom _ after _) as [results2 env3]. simpl.
  by rewrite lookup_app_r, Hlen, Nat.sub_diag by lia.
Qed.
End LiveBatch.

(** C9, the event bus being optional.  In both environments
    [executeActions] answers with one entry per action, in the order given, carrying the index
    and the type of the action; the entry of an action holds what
    executing it gives, error or result, on the state left by the
    actions before it, failed or not.  When an event bus is attached,
    the action events emitted are one per action, in order,
    [action:executed] or [action:failed] according to the entry; an
    environment without a bus stays without one and emits nothing. *)
Theorem actions_run_independently :
  (∀ (A : Type) (agent : Agent A) (env : BacktestEnvironment.t A) actions,
     let results := (BacktestEnvironment.executeActions actions env).1 in
     let env' := (BacktestEnvironment.executeActions actions env).2 in
     (fun r => (ActionResult.actionIndex r, ActionResult.type r)) <$> results =
       zip (seq 0 (length actions)) (actionType <$> actions) ∧
     (∀ before action after, actions = before ++ action :: after →
        results !! length before =
          Some (ActionResult.mk (length before) (actionType action)
                  (BacktestEnvironment.executeAction action
                     (BacktestEnvironment.executeActions before env).2).1)) ∧
     (∃ emits,
        BacktestEnvironment.eventBus env' =
          emitAll emits <$> BacktestEnvironment.eventBus env ∧
        filter isActionEmit emits =
          zip_with actionEmit actions (ActionResult.outcome <$> results))) ∧
  (∀ (W : Type) (venue : Venue W) (env : TradingEnvironment.t (W := W)) actions,
     let results := (TradingEnvironment.executeActions actions env).1 in
     let env' := (TradingEnvironment.executeActions actions env).2 in
     (fun r => (ActionResult.actionIndex r, ActionResult.type r)) <$> results =
       zip (seq 0 (length actions)) (actionType <$> actions) ∧
     (∀ before action after, actions = before ++ action :: after →
        results !! length before =
          Some (ActionResult.mk (length before) (actionType action)
                  (ActionExecutor.execute action
                     (TradingEnvironment.sensors
                        (TradingEnvironment.executeActions before env).2,
                      TradingEnvironment.venue
                        (TradingEnvironment.executeActions before env).2)).1)) ∧
     TradingEnvironment.eventBus env' =
       emitAll (zip_with actionEmit actions (ActionResult.outcome <$> results))
         <$> TradingEnvironment.eventBus env).
Proof.
  split.
  - intros A agent env actions results env'. split; [|split].
    + apply executeActionsFrom_slots.
    + intros before action after ->. apply executeActions_slot.
    + apply executeActionsFrom_events.
  - intros W venue env actions results env'. split; [|split].
    + apply live_executeActionsFrom_slots.
    + intros before action after ->. apply live_executeActions_slot.
    + apply live_executeActionsFrom_events.
Qed.

(** C9, in a backtest environment built without an event bus: of a
    trade the wallet cannot afford, a query and an action of a type the
    environment does not know, the first entry records the error, the
    second the balances and the third an undefined result and no error;
    no event is emitted. *)
Lemma actions_without_bus_emit_nothing :
  let env :=
    BacktestEnvironment.create [] (Wallet.create Wallet.Virtual (int 10)) None None
      (int 80) tt in
  let actions :=
    [ATrade (TradePayload.mk 1 Call (int 20) 0 60 None None);
     AQuery (QueryPayload.mk "getBalances" ∅);
     AOther "cancel"] in
  ActionResult.outcome <$> (BacktestEnvironment.executeActions actions env).1 =
    [inl (CannotAfford (int 20) (int 10)); inr (Balances [(0, int 10, "USD")]);
     inr Undefined] ∧
  BacktestEnvironment.eventBus (BacktestEnvironment.executeActions actions env).2 = None.
Proof. split; reflexivity. Qed.

(** ** Settling several trades *)

Lemma list_find_reverse_last {X} (P : X → Prop) `{!∀ x, Decision (P x)} (l : list X) :
  snd <$> list_find P (reverse l) = last (filter P l).
Proof.
  induction l as [|x l IH] using rev_ind; [done|].
  rewrite reverse_snoc, filter_app. simpl. rewrite filter_cons, filter_nil.
  destruct (decide (P x)).
  - by rewrite last_snoc.
  - rewrite app_nil_r, <- IH. by destruct (list_find P (reverse l)) as [[]|].
Qed.

Lemma foldl_pointwise {X Y} (f g : Y → X → Y) (l : list X) (y : Y) :
  (∀ y x, f y x = g y x) → foldl f y l = foldl g y l.
Proof. intros E. revert y. induction l as [|x l IH]; intros y; simpl; [done|]. by rewrite E, IH. Qed.

Section Settling.
Import BacktestEnvironment.
Context {A : Type} `{!Agent A}.
Implicit Types (env : BacktestEnvironment.t A) (trade : PendingTrade.t).

Lemma settlementFrame_refl env : settlementFrame env env.
Proof. by repeat split. Qed.

Lemma settlementFrame_trans env1 env2 env3 :
  settlementFrame env1 env2 → settlementFrame env2 env3 → settlementFrame env1 env3.
Proof. unfold settlementFrame. intros H1 H2. destruct_and!. repeat split; congruence. Qed.

Lemma resolveTradeAtPrice_closedCount trade price env :
  EnvironmentState.closedCount (state (resolveTradeAtPrice trade price env)) =
    EnvironmentState.closedCount (state env) + 1.
Proof.
  rewrite resolveTradeAtPrice_state.
  by destruct (onPositionChanged_closed (closedPosition trade price env)
                 (EnvironmentState.set_balance
                    (Wallet.balance (wallet (resolveTradeAtPrice trade price env)))
                    (state env))) as (-> & _).
Qed.

(** The last candle of an instrument in the dataset. *)
Lemma findLastCandleForAsset_last activeId env :
  findLastCandleForAsset activeId env =
    last (filter (fun c => Candle.active_id c = activeId) (allCandles env)).
Proof. apply list_find_reverse_last. Qed.

(** Trades settled one after the other, each at a price read off the
    dataset: nothing but the wallet, the ledger, the bus and the traces
    moves; the ledger counts one closed position per trade; the
    trade-resolved callback, when set, is called once per trade, in
    order, with the trade and its price; the result hook of the agent,
    when wired, is called once per trade, in order. *)
Lemma foldl_settle (price : list Candle.t → PendingTrade.t → Qc) trades env :
  let env' :=
    foldl (fun e tr => resolveTradeAtPrice tr (price (allCandles e) tr) e) env trades in
  settlementFrame env env' ∧
  EnvironmentState.closedCount (state env') =
    EnvironmentState.closedCount (state env) + Z.of_nat (length trades) ∧
  (∃ records,
     resolved env' = resolved env ++ records ∧
     (trade <$> records) = (if tradeResolvedCallback env then trades else []) ∧
     (closePrice <$> records) =
       (if tradeResolvedCallback env then price (allCandles env) <$> trades else [])) ∧
  (∃ positions,
     hooks env' = hooks env ++ (TradeResult <$> positions) ∧
     (Position.id <$> positions) =
       (if agentRef env then PendingTrade.id <$> trades else [])).
Proof.
  revert env. induction trades as [|tr trades IH]; intros env; simpl.
  { split; [apply settlementFrame_refl|]. split; [lia|].
    split; [exists []|exists []]; rewrite app_nil_r; by repeat case_match. }
  set (env1 := resolveTradeAtPrice tr (price (allCandles env) tr) env).
  destruct (IH env1) as (Hframe & Hcount & (records & Hres & Htr & Hpr)
                         & (positions & Hhooks & Hids)).
  pose proof (resolveTradeAtPrice_frame tr (price (allCandles env) tr) env) as Hframe1.
  fold env1 in Hframe1.
  assert (Hcandles : allCandles env1 = allCandles env) by apply Hframe1.
  assert (Hcb : tradeResolvedCallback env1 = tradeResolvedCallback env) by apply Hframe1.
  assert (Hag : agentRef env1 = agentRef env) by apply Hframe1.
  split; [by eapply settlementFrame_trans|]. split; [|split].
  - rewrite Hcount. subst env1. rewrite resolveTradeAtPrice_closedCount. lia.
  - rewrite Hcb, Hcandles in *. subst env1.
    rewrite resolveTradeAtPrice_resolved in Hres.
    destruct (tradeResolvedCallback env).
    + eexists (_ :: records). rewrite Hres, <- app_assoc.
      split; [reflexivity|]. by rewrite !fmap_cons, Htr, Hpr.
    + by exists records.
  - rewrite Hag in *. subst env1. rewrite resolveTradeAtPrice_hooks in Hhooks.
    destruct (agentRef env).
    + eexists (_ :: positions). rewrite Hhooks, <- app_assoc.
      split; [reflexivity|]. by rewrite !fmap_cons, Hids.
    + by exists positions.
Qed.

(** The price [forceCloseAll] settles a trade at. *)
Definition forcedPrice (lastPrice : Qc) (candles : list Candle.t) (tr : PendingTrade.t) : Qc :=
  match last (filter (fun c => Candle.active_id c = PendingTrade.activeId tr) candles) with
  | Some c => Candle.close c
  | None => lastPrice
  end.

Lemma forceCloseAll_fold lastPrice env :
  forceCloseAll lastPrice env =
    foldl (fun e tr => resolveTradeAtPrice tr (forcedPrice lastPrice (allCandles e) tr) e)
      (set_pendingTrades [] env) (pendingTrades env).
Proof.
  unfold forceCloseAll. apply foldl_pointwise. intros e tr.
  unfold forcedPrice. by rewrite findLastCandleForAsset_last.
Qed.
End Settling.

(** The candles of a run are replayed in the order of their period
    starts.  [notAfter c d]: [c] does not start after [d]. *)
Definition notAfter (c d : Candle.t) : Prop := Candle.from c ≤ Candle.from d.

Lemma insertByFrom_perm c sorted : BacktestRunner.insertByFrom c sorted ≡ₚ c :: sorted.
Proof.
  induction sorted as [|d rest IH]; simpl; [done|].
  case_bool_decide; [done|]. by rewrite IH, Permutation_swap.
Qed.

Lemma insertByFrom_sorted c sorted :
  StronglySorted notAfter sorted → StronglySorted notAfter (BacktestRunner.insertByFrom c sorted).
Proof.
  induction 1 as [|d rest Hs IH Hd]; simpl.
  - repeat constructor.
  - case_bool_decide as Hlt.
    + constructor; [by constructor|]. constructor; [unfold notAfter; lia|].
      eapply Forall_impl; [exact Hd|]. unfold notAfter. intros e ?. lia.
    + constructor; [done|]. rewrite insertByFrom_perm.
      constructor; [unfold notAfter; lia|done].
Qed.

Lemma sortByFrom_sorted candles :
  StronglySorted notAfter (BacktestRunner.sortByFrom candles) ∧ BacktestRunner.sortByFrom candles ≡ₚ candles.
Proof.
  unfold BacktestRunner.sortByFrom.
  cut (∀ acc, StronglySorted notAfter acc →
         StronglySorted notAfter (foldl (fun sorted c => BacktestRunner.insertByFrom c sorted) acc candles)
         ∧ foldl (fun sorted c => BacktestRunner.insertByFrom c sorted) acc candles ≡ₚ acc ++ candles).
  { intros Hcut. apply (Hcut []). constructor. }
  induction candles as [|c candles IH]; intros acc Hacc; simpl.
  - by rewrite app_nil_r.
  - destruct (IH (BacktestRunner.insertByFrom c acc)) as [Hs Hp]; [by apply insertByFrom_sorted|].
    split; [done|]. rewrite Hp, insertByFrom_perm. simpl. apply Permutation_middle.
Qed.

Section Runs.
Import BacktestEnvironment BacktestRunner.
Context {A : Type} `{!Agent A}.

(** A run that ends is a setup, a replay of the candles in the order of
    their period starts, and a finish. *)
Lemma run_inr db config ext (a : A) o :
  run db config ext a = inr o →
  ∃ first rest assetConfig payout,
    StronglySorted notAfter (first :: rest) ∧
    let allCandles := first :: rest in
    o = finish config ext allCandles first
          (replay (makeRunId config ext)
             (Z.max 1 (Z.min 500 (Z.of_nat (length allCandles) / 40))) 0 allCandles
             (mkLoop (setup config ext allCandles first assetConfig payout a)
                [PostRun (makeRunId config ext) (agentName config) (initialBalance config)
                   (startedAt ext)])).
Proof.
  unfold run. destruct (loadDatasets _ _ _ _) as [|[[loaded assetConfig] payout]]; [done|].
  pose proof (proj1 (sortByFrom_sorted loaded)) as Hsorted.
  destruct (sortByFrom loaded) as [|first rest]; [done|].
  intros [= <-]. by exists first, rest, assetConfig, payout.
Qed.

Lemma forceCloseAll_pendingTrades lastPrice (env : BacktestEnvironment.t A) :
  pendingTrades (forceCloseAll lastPrice env) = [].
Proof.
  rewrite forceCloseAll_fold.
  by destruct (foldl_settle (forcedPrice lastPrice) (pendingTrades env)
                 (set_pendingTrades [] env)) as ((_ & _ & _ & -> & _) & _).
Qed.
End Runs.

(** ** What a settlement leaves behind *)

Lemma set_balance_onPositionChanged (b : Qc) (pos : Position.t) (s : EnvironmentState.t) :
  EnvironmentState.onPositionChanged pos (EnvironmentState.set_balance b s) =
    EnvironmentState.set_balance b (EnvironmentState.onPositionChanged pos s).
Proof.
  destruct s. unfold EnvironmentState.onPositionChanged, EnvironmentState.set_balance.
  cbn. repeat case_bool_decide; reflexivity.
Qed.

Lemma set_balance_foldl (b : Qc) (positions : list Position.t) (s : EnvironmentState.t) :
  foldl (fun s p => EnvironmentState.onPositionChanged p s)
    (EnvironmentState.set_balance b s) positions =
  EnvironmentState.set_balance b
    (foldl (fun s p => EnvironmentState.onPositionChanged p s) s positions).
Proof.
  revert s. induction positions as [|p positions IH]; intros s; simpl; [done|].
  by rewrite set_balance_onPositionChanged, IH.
Qed.

Lemma set_balance_same (s : EnvironmentState.t) :
  EnvironmentState.set_balance (EnvironmentState.balance s) s = s.
Proof. by destruct s. Qed.

Section Outcome.
Import BacktestEnvironment.
Context {A : Type} `{!Agent A}.
Implicit Types (env : BacktestEnvironment.t A) (trade tr : PendingTrade.t).

(** What [resolveTradeAtPrice] does to the wallet: a tie gives the
    stake back, a win the stake and the profit, a loss nothing. *)
Definition settledWallet tr (price : Qc) (w : Wallet.t) : Wallet.t :=
  if isTie tr price then Wallet.credit (PendingTrade.invest tr) w
  else if isWin tr price then Wallet.credit (PendingTrade.invest tr + profit tr)%Qc w
  else w.

(** What the trade-resolved callback is given, and the time it is
    called at. *)
Definition callbackArguments (r : TradeRecord) : PendingTrade.t * string * Qc * Qc * Z :=
  (trade r, result r, recordPnl r, closePrice r, closedAt r).

Definition settledArguments env (price : PendingTrade.t → Qc) tr
  : PendingTrade.t * string * Qc * Qc * Z :=
  (tr, closeReasonAt tr (price tr), pnlAt tr (price tr), price tr, currentTime env).

Lemma closedPosition_time tr price env env' :
  currentTime env' = currentTime env →
  closedPosition tr price env' = closedPosition tr price env.
Proof. intros Ht. unfold closedPosition, tradeToPosition. by rewrite Ht. Qed.

(** Trades settled one after the other: the wallet is paid trade by
    trade, the ledger is fed one closed position per trade, and the
    callback and the hook, when present, are given each trade once, all
    in the order of the trades. *)
Lemma foldl_settle_outcome (price : list Candle.t → PendingTrade.t → Qc)
    (trades : list PendingTrade.t) env :
  let env' :=
    foldl (fun e tr => resolveTradeAtPrice tr (price (allCandles e) tr) e) env trades in
  let positions :=
    (fun tr => closedPosition tr (price (allCandles env) tr) env) <$> trades in
  wallet env' =
    foldl (fun w tr => settledWallet tr (price (allCandles env) tr) w) (wallet env) trades ∧
  state env' =
    EnvironmentState.set_balance
      (match trades with
       | [] => EnvironmentState.balance (state env)
       | _ :: _ => Wallet.getBalance (wallet env')
       end)
      (foldl (fun s p => EnvironmentState.onPositionChanged p s) (state env) positions) ∧
  (∃ records,
     resolved env' = resolved env ++ records ∧
     callbackArguments <$> records =
       (if tradeResolvedCallback env
        then settledArguments env (price (allCandles env)) <$> trades else [])) ∧
  hooks env' = hooks env ++ (if agentRef env then TradeResult <$> positions else []).
Proof.
  revert env. induction trades as [|tr trades IH]; intros env; cbv zeta.
  { simpl. split; [done|]. split; [by rewrite set_balance_same|].
    split; [exists []; rewrite app_nil_r|]; by repeat case_match; rewrite ?app_nil_r. }
  cbn [foldl fmap list_fmap].
  set (p := price (allCandles env) tr).
  set (env1 := resolveTradeAtPrice tr p env).
  destruct (IH env1) as (Hwallet & Hstate & (records & Hres & Hargs) & Hhooks).
  pose proof (resolveTradeAtPrice_frame tr p env) as Hframe1. fold env1 in Hframe1.
  assert (Hcandles : allCandles env1 = allCandles env) by apply Hframe1.
  assert (Htime : currentTime env1 = currentTime env) by apply Hframe1.
  assert (Hcb : tradeResolvedCallback env1 = tradeResolvedCallback env) by apply Hframe1.
  assert (Hag : agentRef env1 = agentRef env) by apply Hframe1.
  assert (Hpositions :
    (fun tr' => closedPosition tr' (price (allCandles env1) tr') env1) <$> trades =
    (fun tr' => closedPosition tr' (price (allCandles env) tr') env) <$> trades).
  { apply list_fmap_ext. intros _ tr' _. by rewrite Hcandles, (closedPosition_time _ _ env env1). }
  assert (Hargs' :
    settledArguments env1 (price (allCandles env1)) <$> trades =
    settledArguments env (price (allCandles env)) <$> trades).
  { apply list_fmap_ext. intros _ tr' _. unfold settledArguments. by rewrite Hcandles, Htime. }
  rewrite Hcandles in Hwallet. rewrite Hpositions in Hstate, Hhooks.
  rewrite Hcb, Hargs' in Hargs. rewrite Hag in Hhooks.
  assert (Hw1 : wallet env1 = settledWallet tr p (wallet env)).
  { subst env1. by rewrite resolveTradeAtPrice_wallet. }
  split; [by rewrite Hwallet, Hw1|]. split; [|split].
  - rewrite Hstate. subst env1. rewrite resolveTradeAtPrice_state.
    fold (resolveTradeAtPrice tr p env).
    rewrite set_balance_onPositionChanged, set_balance_foldl.
    destruct trades; reflexivity.
  - subst env1. rewrite resolveTradeAtPrice_resolved in Hres.
    destruct (tradeResolvedCallback env).
    + eexists (_ :: records). rewrite Hres, <- app_assoc.
      split; [reflexivity|]. rewrite fmap_cons, Hargs. reflexivity.
    + by exists records.
  - rewrite Hhooks. subst env1. rewrite resolveTradeAtPrice_hooks.
    destruct (agentRef env); [|done]. by rewrite <- app_assoc.
Qed.
End Outcome.

(** C6.  [forceCloseAll] empties the pending list and settles every
    trade that was pending once, in order, each at the close of the last
    candle of its own instrument in the dataset, and at the supplied
    last price exactly when the dataset has no candle of that
    instrument.  Settled means: the wallet is paid trade by trade (the
    stake back for a tie, the stake and the profit for a win, nothing
    for a loss); the ledger is fed one closed position per trade, which
    carries that price as its close quote, and the reason and the pnl
    the price gives; the trade-resolved callback (when set) is called
    once per trade with the trade, the result, the pnl and the price;
    the result hook of the agent (when wired) is called once per trade
    with that position.  A run ends with no trade pending. *)
Theorem force_close_settles_each_once :
  (∀ (A : Type) (agent : Agent A) (env : BacktestEnvironment.t A) lastPrice,
     let env' := BacktestEnvironment.forceCloseAll lastPrice env in
     let pending := BacktestEnvironment.pendingTrades env in
     let price := forcedPrice lastPrice (BacktestEnvironment.allCandles env) in
     let positions :=
       (fun tr => BacktestEnvironment.closedPosition tr (price tr) env) <$> pending in
     BacktestEnvironment.pendingTrades env' = [] ∧
     BacktestEnvironment.wallet env' =
       foldl (fun w tr => settledWallet tr (price tr) w)
         (BacktestEnvironment.wallet env) pending ∧
     BacktestEnvironment.state env' =
       EnvironmentState.set_balance
         (match pending with
          | [] => EnvironmentState.balance (BacktestEnvironment.state env)
          | _ :: _ => Wallet.getBalance (BacktestEnvironment.wallet env')
          end)
         (foldl (fun s p => EnvironmentState.onPositionChanged p s)
            (BacktestEnvironment.state env) positions) ∧
     Forall2
       (fun tr pos =>
          Position.id pos = PendingTrade.id tr ∧
          Position.status pos = "closed" ∧
          Position.close_quote pos = price tr ∧
          Position.close_reason pos = BacktestEnvironment.closeReasonAt tr (price tr) ∧
          Position.pnl pos = Some (BacktestEnvironment.pnlAt tr (price tr)))
       pending positions ∧
     EnvironmentState.closedCount (BacktestEnvironment.state env') =
       EnvironmentState.closedCount (BacktestEnvironment.state env)
       + Z.of_nat (length pending) ∧
     (∃ records,
        BacktestEnvironment.resolved env' = BacktestEnvironment.resolved env ++ records ∧
        callbackArguments <$> records =
          (if BacktestEnvironment.tradeResolvedCallback env
           then settledArguments env price <$> pending else [])) ∧
     BacktestEnvironment.hooks env' =
       BacktestEnvironment.hooks env ++
         (if BacktestEnvironment.agentRef env
          then BacktestEnvironment.TradeResult <$> positions else [])) ∧
  (∀ lastPrice candles tr,
     match last (filter (fun c => Candle.active_id c = PendingTrade.activeId tr) candles) with
     | Some c =>
         c ∈ candles ∧ Candle.active_id c = PendingTrade.activeId tr ∧
         forcedPrice lastPrice candles tr = Candle.close c
     | None =>
         (∀ c, c ∈ candles → Candle.active_id c ≠ PendingTrade.activeId tr) ∧
         forcedPrice lastPrice candles tr = lastPrice
     end) ∧
  (∀ (A : Type) (agent : Agent A) db config ext (a : A) o,
     BacktestRunner.run db config ext a = inr o →
     BacktestEnvironment.pendingTrades (BacktestRunner.finalEnv o) = []).
Proof.
  split; [|split].
  - intros A agent env lastPrice env' pending price positions. subst env'.
    rewrite forceCloseAll_fold.
    destruct (foldl_settle (forcedPrice lastPrice) pending
                (BacktestEnvironment.set_pendingTrades [] env))
      as (Hframe & Hcount & _).
    destruct (foldl_settle_outcome (forcedPrice lastPrice) pending
                (BacktestEnvironment.set_pendingTrades [] env))
      as (Hwallet & Hstate & Hres & Hhooks).
    split; [apply Hframe|]. split; [exact Hwallet|]. split; [exact Hstate|].
    split; [|split; [exact Hcount|split; [exact Hres|exact Hhooks]]].
    subst positions. apply Forall2_fmap_r, Forall_Forall2_diag, Forall_forall.
    intros tr _. by repeat split.
  - intros lastPrice candles tr. unfold forcedPrice.
    destruct (last (filter _ candles)) as [c|] eqn:Hlast.
    + apply last_Some_elem_of, list_elem_of_filter in Hlast as [? ?]. done.
    + split; [|done]. intros c Hc Hid. apply last_None in Hlast.
      assert (c ∈ filter (fun c => Candle.active_id c = PendingTrade.activeId tr) candles)
        as Hin by by apply list_elem_of_filter.
      rewrite Hlast in Hin. by apply elem_of_nil in Hin.
  - intros A agent db config ext a o Hrun.
    destruct (run_inr _ _ _ _ _ Hrun) as (first & rest & assetConfig & payout & _ & ->).
    unfold BacktestRunner.finish. env_cbn. apply forceCloseAll_pendingTrades.
Qed.

(** ** The replay loop *)

Section Replay.
Import BacktestEnvironment BacktestRunner.
Context {A : Type} `{!Agent A}.
Implicit Types (env : BacktestEnvironment.t A) (tr : PendingTrade.t).

(** What the actions of the agent, its prefills and its reads leave
    alone: the clock, the dataset, the wiring and the traces. *)
Definition actionFrame env env' : Prop :=
  hooks env' = hooks env ∧
  resolved env' = resolved env ∧
  updateCallbacks env' = updateCallbacks env ∧
  currentTime env' = currentTime env ∧
  allCandles env' = allCandles env ∧
  agentRef env' = agentRef env ∧
  tradeResolvedCallback env' = tradeResolvedCallback env ∧
  agent env' = agent env.

Lemma actionFrame_refl env : actionFrame env env.
Proof. by repeat split. Qed.

Lemma actionFrame_trans env1 env2 env3 :
  actionFrame env1 env2 → actionFrame env2 env3 → actionFrame env1 env3.
Proof. unfold actionFrame. intros H1 H2. destruct_and!. repeat split; congruence. Qed.

Lemma executeAction_frame action env : actionFrame env (executeAction action env).2.
Proof.
  destruct action as [payload|s|id|q|ty]; simpl; try apply actionFrame_refl.
  - unfold executeTrade. destruct (negb _); cbv zeta iota beta; [apply actionFrame_refl|].
    unfold emitOpened, openTrade. env_cbn. by repeat split.
  - unfold executeSubscribe. repeat case_match; env_cbn; by repeat split.
  - unfold executeUnsubscribe. by repeat split.
Qed.

Lemma executeActionsFrom_frame i actions env :
  actionFrame env (executeActionsFrom i actions env).2.
Proof.
  revert i env. induction actions as [|a actions IH]; intros i env; simpl.
  { apply actionFrame_refl. }
  pose proof (executeAction_frame a env) as Hf.
  destruct (executeAction a env) as [r env1]. simpl in Hf.
  match goal with
  | |- context [executeActionsFrom (S i) actions ?e] =>
      specialize (IH (S i) e); assert (actionFrame env1 e) as Hf2;
      [|destruct (executeActionsFrom (S i) actions e) as [results env']]
  end.
  { destruct r; by repeat split. }
  simpl in *. eauto using actionFrame_trans.
Qed.

Lemma prefillSensor_frame sensorId data env : actionFrame env (prefillSensor sensorId data env).
Proof. unfold prefillSensor. destruct (_ !! _); by repeat split. Qed.

Lemma perform_frame {R} (p : EnvProgram R) env : actionFrame env (perform p env).2.
Proof.
  revert env. induction p as [r|k IH|actions k IH|sensorId data k IH|a s f u k IH|a s c k IH];
    intros env; simpl; eauto using actionFrame_refl.
  - pose proof (executeActionsFrom_frame 0 actions env) as Hf.
    unfold executeActions. destruct (executeActionsFrom 0 actions env) as [results env1].
    eauto using actionFrame_trans.
  - eauto using actionFrame_trans, prefillSensor_frame.
Qed.

(** A hook call made with no due trade left pending. *)
Definition settledBefore (h : HookCall) : Prop :=
  match h with
  | Observed obs pending =>
      Forall (fun tr => Observation.timestamp obs < PendingTrade.expirationTime tr) pending
  | TradeResult _ => True
  end.

(** The settlement of a trade that has expired, as a settlement at a
    price read off the dataset. *)
Definition expiryPrice (candles : list Candle.t) tr : Qc :=
  match
    list_find (fun c => Candle.active_id c = PendingTrade.activeId tr
                        ∧ PendingTrade.expirationTime tr ≤ Candle.from c) candles
  with
  | Some (_, c) => Candle.close c
  | None =>
      match last (filter (fun c => Candle.active_id c = PendingTrade.activeId tr) candles) with
      | Some c => Candle.close c
      | None => PendingTrade.openQuote tr
      end
  end.

Lemma resolveTrade_at_price tr env :
  resolveTrade tr env = resolveTradeAtPrice tr (expiryPrice (allCandles env) tr) env.
Proof.
  unfold resolveTrade, expiryPrice. rewrite findLastCandleForAsset_last.
  by destruct (list_find _ _) as [[? ?]|].
Qed.

Lemma checkExpirations_fold env :
  checkExpirations env =
    foldl (fun e tr => resolveTradeAtPrice tr (expiryPrice (allCandles e) tr) e)
      (set_pendingTrades
         (filter (fun tr => ¬ PendingTrade.expirationTime tr ≤ currentTime env)
            (pendingTrades env)) env)
      (filter (fun tr => PendingTrade.expirationTime tr ≤ currentTime env) (pendingTrades env)).
Proof.
  unfold checkExpirations. apply foldl_pointwise. intros e tr. apply resolveTrade_at_price.
Qed.

(** Step (2) of a turn: the trades left pending are those not yet due,
    in their order; those due are settled once each, in their order. *)
Lemma checkExpirations_settles env :
  let env' := checkExpirations env in
  let due := filter (fun tr => PendingTrade.expirationTime tr ≤ currentTime env)
               (pendingTrades env) in
  pendingTrades env' =
    filter (fun tr => ¬ PendingTrade.expirationTime tr ≤ currentTime env) (pendingTrades env) ∧
  Forall (fun tr => currentTime env' < PendingTrade.expirationTime tr) (pendingTrades env') ∧
  currentTime env' = currentTime env ∧
  updateCallbacks env' = updateCallbacks env ∧
  sensorBuffers env' = sensorBuffers env ∧
  EnvironmentState.closedCount (state env') =
    EnvironmentState.closedCount (state env) + Z.of_nat (length due) ∧
  (∃ records,
     resolved env' = resolved env ++ records ∧
     (trade <$> records) = (if tradeResolvedCallback env then due else [])) ∧
  (∃ positions,
     hooks env' = hooks env ++ (TradeResult <$> positions) ∧
     (Position.id <$> positions) = (if agentRef env then PendingTrade.id <$> due else [])).
Proof.
  intros env' due. subst env'. rewrite checkExpirations_fold. fold due.
  match goal with
  | |- context [foldl _ ?e0 due] =>
      destruct (foldl_settle expiryPrice due e0)
        as (Hframe & Hcount & (records & Hres & Htr & _) & Hhooks)
  end.
  destruct Hframe as (Hbuf & _ & Hcb & Hpend & Htime & _).
  rewrite Hpend, Htime. env_cbn.
  repeat split; try done.
  - apply Forall_forall. intros tr [Hdue _]%list_elem_of_filter. lia.
  - by exists records.
Qed.

(** A call of [onObservation] at time [now] with [pending] the trades
    pending. *)
Definition observedAt (now : Z) (pending : list PendingTrade.t) (h : HookCall) : Prop :=
  match h with
  | Observed obs pending' => Observation.timestamp obs = now ∧ pending' = pending
  | TradeResult _ => False
  end.

Lemma agentCycle_hooks env :
  hooks (agentCycle env) = hooks env ++ [Observed (getObservation env) (pendingTrades env)] ∧
  updateCallbacks (agentCycle env) = updateCallbacks env ∧
  currentTime (agentCycle env) = currentTime env.
Proof.
  unfold agentCycle. destruct (onObservation _ _) as [a [[|action actions]|]]; try done.
  match goal with
  | |- context [executeActions ?l ?e] =>
      destruct (executeActionsFrom_frame 0 l e) as (Hh & _ & Hu & Ht & _)
  end.
  unfold executeActions. by rewrite Hh, Hu, Ht.
Qed.

(** Step (3) and (4) of a turn, with at most one agent wired: at most
    one observation is made, at the current time and with the pending
    trades as they stand when the candle arrives. *)
Lemma feedCandle_hooks candle env :
  (updateCallbacks env ≤ 1)%nat →
  ∃ news,
    hooks (feedCandle candle env) = hooks env ++ news ∧
    Forall (observedAt (currentTime env) (pendingTrades env)) news ∧
    updateCallbacks (feedCandle candle env) = updateCallbacks env.
Proof.
  intros Hone. unfold feedCandle. destruct (_ !! _) as [buffer|].
  2:{ exists []. by rewrite app_nil_r. }
  unfold runCallbacks. env_cbn.
  destruct (updateCallbacks env) as [|[|n]] eqn:Hn; [| |lia]; simpl.
  { exists []. rewrite app_nil_r. env_cbn. done. }
  match goal with
  | |- context [agentCycle ?e] => destruct (agentCycle_hooks e) as (Hh & Hu & _)
  end.
  rewrite Hh, Hu. env_cbn. eexists [_]. split; [done|]. split; [|done].
  by apply Forall_singleton.
Qed.

(** One turn of the replay loop, with at most one agent wired: the
    result hooks of the trades due come first, then at most one
    observation, made at the period start of the candle with only trades
    not yet due left pending. *)
Lemma replayCandle_hooks candle env :
  (updateCallbacks env ≤ 1)%nat →
  ∃ positions news,
    hooks (replayCandle candle env) = hooks env ++ (TradeResult <$> positions) ++ news ∧
    Forall
      (observedAt (Candle.from candle)
         (filter (fun tr => ¬ PendingTrade.expirationTime tr ≤ Candle.from candle)
            (pendingTrades env))) news ∧
    updateCallbacks (replayCandle candle env) = updateCallbacks env.
Proof.
  intros Hone. unfold replayCandle.
  set (env2 := setCurrentTime (Candle.from candle) (setSimulatedTime (Candle.from candle) env)).
  destruct (checkExpirations_settles env2)
    as (Hpend & _ & Htime & Hu & _ & _ & _ & (positions & Hhooks & _)).
  destruct (feedCandle_hooks candle (checkExpirations env2)) as (news & Hh & Hobs & Hu').
  { by rewrite Hu. }
  exists positions, news. rewrite Hh, Hhooks, Hu', Hu, <- app_assoc.
  rewrite Hpend, Htime in Hobs. done.
Qed.

Lemma observedAt_settled now pending h :
  Forall (fun tr => now < PendingTrade.expirationTime tr) pending →
  observedAt now pending h → settledBefore h.
Proof. destruct h as [obs pending'|pos]; simpl; [|done]. by intros Hall [-> ->]. Qed.

Lemma replayCandle_settledBefore candle env :
  (updateCallbacks env ≤ 1)%nat →
  Forall settledBefore (hooks env) →
  Forall settledBefore (hooks (replayCandle candle env)).
Proof.
  intros Hone Hinv. destruct (replayCandle_hooks candle env Hone)
    as (positions & news & -> & Hobs & _).
  apply Forall_app. split; [done|]. apply Forall_app. split.
  - by apply Forall_fmap, Forall_true.
  - eapply Forall_impl; [exact Hobs|]. intros h. apply observedAt_settled.
    apply Forall_forall. intros tr [Hdue _]%list_elem_of_filter. lia.
Qed.

Lemma replay_settledBefore id interval i candles st :
  (updateCallbacks (env st) ≤ 1)%nat →
  Forall settledBefore (hooks (env st)) →
  Forall settledBefore (hooks (env (replay id interval i candles st))).
Proof.
  revert i st. induction candles as [|candle candles IH]; intros i st Hone Hinv; simpl.
  { done. }
  destruct (Wallet.busted _); [done|]. apply IH; simpl.
  - by destruct (replayCandle_hooks candle (env st) Hone) as (_ & _ & _ & _ & ->).
  - by apply replayCandle_settledBefore.
Qed.

Lemma forceCloseAll_hooks lastPrice env :
  ∃ positions, hooks (forceCloseAll lastPrice env) = hooks env ++ (TradeResult <$> positions).
Proof.
  rewrite forceCloseAll_fold.
  destruct (foldl_settle (forcedPrice lastPrice) (pendingTrades env)
              (set_pendingTrades [] env)) as (_ & _ & _ & (positions & Hh & _)).
  by exists positions.
Qed.

Lemma setup_hooks config ext allCandles first assetConfig payout (a : A) :
  hooks (setup config ext allCandles first assetConfig payout a) = [] ∧
  updateCallbacks (setup config ext allCandles first assetConfig payout a) = 1%nat.
Proof.
  unfold setup, runAgent. cbv zeta.
  match goal with
  | |- context [perform ?p ?e] =>
      destruct (perform_frame p e) as (Hh & _ & Hu & _); destruct (perform p e) as [a' e']
  end.
  env_cbn. simpl in Hh, Hu. rewrite Hh, Hu. done.
Qed.
End Replay.


(** ** Independence of the run from what comes from outside *)

Section Determinism.
Import BacktestEnvironment BacktestRunner.
Context {A : Type} `{!Agent A}.
Implicit Types (env : BacktestEnvironment.t A) (tr : PendingTrade.t).

(** The environment without its event bus: the wallet, the ledger, the
    buffers, the pending trades, the clock, the agent and the traces. *)
Definition forget env : BacktestEnvironment.t A := set_eventBus None env.

Lemma forget_emit ty p env : forget (emit ty p env) = forget env.
Proof. reflexivity. Qed.

Lemma emit_forget ty p env : emit ty p (forget env) = forget env.
Proof. reflexivity. Qed.

Lemma forget_idem env : forget (forget env) = forget env.
Proof. reflexivity. Qed.

Lemma forget_executeAction action env :
  executeAction action (forget env) =
    ((executeAction action env).1, forget (executeAction action env).2).
Proof.
  destruct action as [payload|s|id|q|ty]; simpl; try reflexivity.
  - unfold executeTrade. env_cbn. unfold forget at 1. env_cbn.
    by destruct (negb _).
  - unfold executeSubscribe, forget. env_cbn. repeat case_match; reflexivity.
Qed.

Lemma forget_executeActionsFrom i actions env :
  executeActionsFrom i actions (forget env) =
    ((executeActionsFrom i actions env).1, forget (executeActionsFrom i actions env).2).
Proof.
  revert i env. induction actions as [|a actions IH]; intros i env; simpl; [done|].
  rewrite forget_executeAction. destruct (executeAction a env) as [r env1].
  cbn [fst snd].
  assert (Hstep : ∀ e : BacktestEnvironment.t A,
    match r with
    | inr _ => emit "action:executed" (EventBus.ActionExecuted (actionType a) a) (forget e)
    | inl err => emit "action:failed" (EventBus.ActionFailed (actionType a) a err) (forget e)
    end = forget
      match r with
      | inr _ => emit "action:executed" (EventBus.ActionExecuted (actionType a) a) e
      | inl err => emit "action:failed" (EventBus.ActionFailed (actionType a) a err) e
      end) by by destruct r.
  rewrite Hstep, IH.
  by destruct (executeActionsFrom (S i) actions _).
Qed.

Lemma forget_prefillSensor sensorId data env :
  prefillSensor sensorId data (forget env) = forget (prefillSensor sensorId data env).
Proof. unfold prefillSensor, forget. env_cbn. by destruct (_ !! _). Qed.

Lemma forget_perform {R} (p : EnvProgram R) env :
  perform p (forget env) = ((perform p env).1, forget (perform p env).2).
Proof.
  revert env. induction p as [r|k IH|actions k IH|sensorId data k IH|a s f u k IH|a s c k IH];
    intros env; simpl.
  - done.
  - apply IH.
  - unfold executeActions. rewrite forget_executeActionsFrom.
    destruct (executeActionsFrom 0 actions env) as [results env1]. apply IH.
  - rewrite forget_prefillSensor. apply IH.
  - apply IH.
  - apply IH.
Qed.

Lemma forget_runAgent env : runAgent (forget env) = forget (runAgent env).
Proof.
  unfold runAgent. cbv zeta.
  change (set_agentRef true (forget env)) with (forget (set_agentRef true env)).
  change (agent (forget (set_agentRef true env))) with (agent (set_agentRef true env)).
  rewrite forget_perform. by destruct (perform _ _).
Qed.

Lemma forget_agentCycle env : agentCycle (forget env) = forget (agentCycle env).
Proof.
  unfold agentCycle.
  change (getObservation (forget env)) with (getObservation env).
  change (agent (forget env)) with (agent env).
  destruct (onObservation _ _) as [a [[|action actions]|]]; try reflexivity.
  unfold executeActions.
  match goal with
  | |- context [executeActionsFrom 0 ?l (set_agent ?a' (set_hooks ?h (forget env)))] =>
      change (set_agent a' (set_hooks h (forget env)))
        with (forget (set_agent a' (set_hooks h env)))
  end.
  by rewrite forget_executeActionsFrom.
Qed.

Lemma forget_iter_agentCycle n env :
  Nat.iter n agentCycle (forget env) = forget (Nat.iter n agentCycle env).
Proof. induction n as [|n IH]; simpl; [done|]. by rewrite IH, forget_agentCycle. Qed.

Lemma forget_feedCandle candle env : feedCandle candle (forget env) = forget (feedCandle candle env).
Proof.
  unfold feedCandle. change (sensorBuffers (forget env)) with (sensorBuffers env).
  destruct (_ !! _) as [buffer|]; [|done]. unfold runCallbacks.
  match goal with
  | |- context [Nat.iter _ agentCycle (set_sensorBuffers ?b (forget env))] =>
      change (set_sensorBuffers b (forget env)) with (forget (set_sensorBuffers b env))
  end.
  by rewrite <- forget_iter_agentCycle.
Qed.

Lemma forget_resolveTradeAtPrice tr price env :
  resolveTradeAtPrice tr price (forget env) = forget (resolveTradeAtPrice tr price env).
Proof. unfold forget. resolve_cases tr price env; reflexivity. Qed.

Lemma forget_foldl_settle (price : list Candle.t → PendingTrade.t → Qc) trades env :
  foldl (fun e tr => resolveTradeAtPrice tr (price (allCandles e) tr) e) (forget env) trades =
  forget (foldl (fun e tr => resolveTradeAtPrice tr (price (allCandles e) tr) e) env trades).
Proof.
  revert env. induction trades as [|tr trades IH]; intros env; simpl; [done|].
  change (allCandles (forget env)) with (allCandles env).
  by rewrite forget_resolveTradeAtPrice, IH.
Qed.

Lemma forget_checkExpirations env : checkExpirations (forget env) = forget (checkExpirations env).
Proof.
  rewrite !checkExpirations_fold.
  exact (forget_foldl_settle expiryPrice
           (filter (fun tr => PendingTrade.expirationTime tr ≤ currentTime env)
              (pendingTrades env))
           (set_pendingTrades
              (filter (fun tr => ¬ PendingTrade.expirationTime tr ≤ currentTime env)
                 (pendingTrades env)) env)).
Qed.

Lemma forget_forceCloseAll lastPrice env :
  forceCloseAll lastPrice (forget env) = forget (forceCloseAll lastPrice env).
Proof.
  rewrite !forceCloseAll_fold.
  exact (forget_foldl_settle (forcedPrice lastPrice) (pendingTrades env)
           (set_pendingTrades [] env)).
Qed.

Lemma forget_replayCandle candle env :
  replayCandle candle (forget env) = forget (replayCandle candle env).
Proof.
  unfold replayCandle. cbv zeta.
  change (setCurrentTime (Candle.from candle) (setSimulatedTime (Candle.from candle) (forget env)))
    with (forget (setCurrentTime (Candle.from candle)
                    (setSimulatedTime (Candle.from candle) env))).
  by rewrite forget_checkExpirations, forget_feedCandle.
Qed.

(** The environment of the replay loop, up to its bus, depends neither
    on the bus nor on the run id or the requests sent so far. *)
Lemma forget_replay id1 id2 interval i candles st1 st2 :
  forget (env st1) = forget (env st2) →
  forget (env (replay id1 interval i candles st1)) =
    forget (env (replay id2 interval i candles st2)).
Proof.
  revert i st1 st2. induction candles as [|candle candles IH]; intros i st1 st2 Heq; simpl.
  { done. }
  assert (Hw : wallet (env st1) = wallet (env st2)).
  { change (wallet (forget (env st1)) = wallet (forget (env st2))). by rewrite Heq. }
  rewrite Hw. destruct (Wallet.busted _); [done|]. apply IH. simpl.
  by rewrite <- !forget_replayCandle, Heq.
Qed.
Lemma forget_setup config ext allCandles first assetConfig payout (a : A) :
  forget (setup config ext allCandles first assetConfig payout a) =
    let bare :=
      runAgent
        (setCurrentTime (Candle.from first)
           (onTradeResolved
              (create allCandles (Wallet.create Wallet.Virtual (initialBalance config)) None
                 assetConfig payout a))) in
    set_wallet (Wallet.onBust (wallet bare)) bare.
Proof.
  unfold setup. cbv zeta.
  match goal with
  | |- forget (set_wallet (Wallet.onBust (wallet (runAgent ?e))) (runAgent ?e)) = _ =>
      change (forget (set_wallet (Wallet.onBust (wallet (runAgent e))) (runAgent e)))
        with (set_wallet (Wallet.onBust (wallet (forget (runAgent e)))) (forget (runAgent e)));
      rewrite <- (forget_runAgent e)
  end.
  reflexivity.
Qed.

(** What two outcomes of [run] share when they differ at most in what
    came from outside: the same error; or the same environment up to the
    bus, so the same calls of the trade-resolved callback (the trades
    with their direction and open quote, their close price, result and
    pnl, in order), the same calls of the hooks of the agent, the same
    wallet and ledger, and the same result up to the run id. *)
Definition sameReplay (r1 r2 : RunError + Outcome) : Prop :=
  match r1, r2 with
  | inl e1, inl e2 => e1 = e2
  | inr o1, inr o2 =>
      forget (finalEnv o1) = forget (finalEnv o2) ∧
      resolved (finalEnv o1) = resolved (finalEnv o2) ∧
      hooks (finalEnv o1) = hooks (finalEnv o2) ∧
      wallet (finalEnv o1) = wallet (finalEnv o2) ∧
      state (finalEnv o1) = state (finalEnv o2) ∧
      pendingTrades (finalEnv o1) = pendingTrades (finalEnv o2) ∧
      trades (outcomeResult o1) = trades (outcomeResult o2) ∧
      wins (outcomeResult o1) = wins (outcomeResult o2) ∧
      losses (outcomeResult o1) = losses (outcomeResult o2) ∧
      winRate (outcomeResult o1) = winRate (outcomeResult o2) ∧
      pnl (outcomeResult o1) = pnl (outcomeResult o2) ∧
      resultMaxDrawdown (outcomeResult o1) = resultMaxDrawdown (outcomeResult o2) ∧
      finalBalance (outcomeResult o1) = finalBalance (outcomeResult o2) ∧
      durationCandles (outcomeResult o1) = durationCandles (outcomeResult o2)
  | _, _ => False
  end.

Lemma forget_fields env1 env2 :
  forget env1 = forget env2 →
  resolved env1 = resolved env2 ∧ hooks env1 = hooks env2 ∧ wallet env1 = wallet env2 ∧
  state env1 = state env2 ∧ pendingTrades env1 = pendingTrades env2.
Proof.
  intros Heq.
  change (resolved (forget env1) = resolved (forget env2) ∧
          hooks (forget env1) = hooks (forget env2) ∧
          wallet (forget env1) = wallet (forget env2) ∧
          state (forget env1) = state (forget env2) ∧
          pendingTrades (forget env1) = pendingTrades (forget env2)).
  by rewrite Heq.
Qed.

Lemma finish_sameReplay config ext1 ext2 allCandles first st1 st2 :
  forget (env st1) = forget (env st2) →
  sameReplay (inr (finish config ext1 allCandles first st1))
    (inr (finish config ext2 allCandles first st2)).
Proof.
  intros Heq. unfold sameReplay, finish. cbv zeta.
  cbn [finalEnv outcomeResult trades wins losses winRate pnl resultMaxDrawdown finalBalance
       durationCandles].
  set (price := Candle.close (List.last allCandles first)).
  assert (Hforced : forget (forceCloseAll price (env st1))
                    = forget (forceCloseAll price (env st2))).
  { by rewrite <- !forget_forceCloseAll, Heq. }
  destruct (forget_fields _ _ Hforced) as (Hres & Hhooks & Hwallet & Hstate & Hpend).
  rewrite !forget_emit. env_cbn. rewrite Hres, Hwallet.
  by repeat split.
Qed.
End Determinism.

(** C2.  Two runs over the same datasets, configuration and agent that
    differ in what comes from outside the process (the date and the
    random suffix of the run id, whether the event persister could be
    created, the wall clock) fail with the same error or end with the
    same calls of the trade-resolved callback, in order, the same calls
    of the hooks of the agent, the same wallet and ledger, and the same
    result up to the run id.  In particular a run repeated with the same
    inputs gives the same outcome. *)
Theorem replay_is_deterministic :
  ∀ (A : Type) (agent : Agent A) db config ext1 ext2 (a : A),
    sameReplay (BacktestRunner.run db config ext1 a) (BacktestRunner.run db config ext2 a).
Proof.
  intros A agent db config ext1 ext2 a. unfold BacktestRunner.run. cbv zeta.
  destruct (BacktestRunner.loadDatasets _ _ _ _) as [err|[[loaded assetConfig] payout]];
    [done|].
  destruct (BacktestRunner.sortByFrom loaded) as [|first rest]; [done|].
  apply finish_sameReplay. apply forget_replay. cbn [BacktestRunner.env].
  by rewrite !forget_setup.
Qed.

(** ** The theorems at concrete inputs *)

(** A simulator without candles, bus or agent activity, over a wallet of
    100. *)
Definition exampleEnv : BacktestEnvironment.t unit :=
  BacktestEnvironment.create [] (Wallet.create Wallet.Virtual (int 100)) None None (int 80) tt.

(** A call of 20 on instrument 1, for 60 seconds, at a quote of 1.1. *)
Definition examplePayload : TradePayload.t :=
  TradePayload.mk 1 Call (int 20) 0 60 None (Some (num 11 10)).

Definition exampleTrade : PendingTrade.t :=
  BacktestEnvironment.newTrade examplePayload exampleEnv.

Definition exampleOpened : BacktestEnvironment.t unit :=
  BacktestEnvironment.emitOpened examplePayload 1 (int 100)
    (BacktestEnvironment.openTrade examplePayload exampleEnv).


(** A run of the backtest.  The agent watches the one-minute candles of
    instrument 1 and places a call of 20, for 60 seconds at 85 percent,
    at each of its first two observations. *)
Definition minuteCandles : Sensor.t :=
  Sensor.mk (SensorManager.candleId 1 60) SCandle (<["active_id" := 1]> (<["size" := 60]> ∅)).

Definition twoCalls : Agent nat := {|
  initialize a := ExecuteActions [ASubscribe minuteCandles] (fun _ => Return a);
  onObservation a _ :=
    (S a,
     Some (if bool_decide (a < 2)%nat
           then [ATrade (TradePayload.mk 1 Call (int 20) 0 60 (Some (int 85)) None)]
           else []));
  onTradeResult a _ := a
|}.

Definition minuteCandle (from : Z) (close : Qc) : Candle.t :=
  Candle.mk from from (from + 60) close close close close 0%Qc 1 60.

(** A dataset of four candles, stored out of order. *)
Definition exampleDb : gmap string BacktestRunner.Dataset :=
  <["eurusd" := BacktestRunner.mkDataset None
       [minuteCandle 120 (num 12 10); minuteCandle 0 (num 11 10); minuteCandle 60 (num 12 10);
        minuteCandle 180 (num 11 10)]]> ∅.

Definition exampleConfig : BacktestRunner.BacktestConfig :=
  BacktestRunner.mkConfig "two-calls" ["eurusd"] (int 100) None.

Definition exampleExternal : BacktestRunner.External :=
  BacktestRunner.mkExternal "20260101" "abc123" None 5 6.

Definition exampleRun : BacktestRunner.RunError + BacktestRunner.Outcome :=
  @BacktestRunner.run nat twoCalls exampleDb exampleConfig exampleExternal 0%nat.

Definition isObserved (h : BacktestEnvironment.HookCall) : bool :=
  match h with BacktestEnvironment.Observed _ _ => true | _ => false end.

(** A dataset that ends while the second call is open. *)
Definition shortDb : gmap string BacktestRunner.Dataset :=
  <["eurusd" := BacktestRunner.mkDataset None
       [minuteCandle 60 (num 12 10); minuteCandle 0 (num 11 10)]]> ∅.

Definition shortRun : BacktestRunner.RunError + BacktestRunner.Outcome :=
  @BacktestRunner.run nat twoCalls shortDb exampleConfig exampleExternal 0%nat.

(** Result, pnl, close price and time of the trades settled, in order. *)
Definition settlements (env : BacktestEnvironment.t nat) : list (string * Q * Q * Z) :=
  (fun r => (BacktestEnvironment.result r, this (BacktestEnvironment.recordPnl r),
             this (BacktestEnvironment.closePrice r), BacktestEnvironment.closedAt r))
    <$> BacktestEnvironment.resolved env.


(** Over the two candles the second call is open when the dataset
    ends and is settled at the last close, 1.2, a tie that gives its
    stake back: the run ends with 117.  And the call of 20 opened at 1.1
    on a wallet of 100, closed by force at 1.2 without a candle of its
    instrument, wins 16 at the payout of 80 percent: the wallet goes from
    80 to 116. *)
Lemma force_close_settles_each_once_witness :
  (∃ o, shortRun = inr o ∧
     settlements (BacktestRunner.finalEnv o) =
       [("win", (17 # 1)%Q, (6 # 5)%Q, 60); ("tie", (0 # 1)%Q, (6 # 5)%Q, 60)] ∧
     this (Wallet.getBalance (BacktestEnvironment.wallet (BacktestRunner.finalEnv o))) =
       (117 # 1)%Q ∧
     BacktestEnvironment.pendingTrades (BacktestRunner.finalEnv o) = []) ∧
  (let closed := BacktestEnvironment.forceCloseAll (num 12 10) exampleOpened in
   BacktestEnvironment.pendingTrades exampleOpened = [exampleTrade] ∧
   this (Wallet.getBalance (BacktestEnvironment.wallet exampleOpened)) = (80 # 1)%Q ∧
   this (Wallet.getBalance (BacktestEnvironment.wallet closed)) = (116 # 1)%Q ∧
   BacktestEnvironment.wallet closed =
     foldl (fun w tr => settledWallet tr (forcedPrice (num 12 10) [] tr) w)
       (BacktestEnvironment.wallet exampleOpened) [exampleTrade]).
Proof.
  split.
  - assert (Hrun : ∃ o, shortRun = inr o ∧
      settlements (BacktestRunner.finalEnv o) =
        [("win", (17 # 1)%Q, (6 # 5)%Q, 60); ("tie", (0 # 1)%Q, (6 # 5)%Q, 60)] ∧
      this (Wallet.getBalance (BacktestEnvironment.wallet (BacktestRunner.finalEnv o))) =
        (117 # 1)%Q).
    { eexists. split; [vm_compute; reflexivity|]. split; vm_compute; reflexivity. }
    destruct Hrun as (o & Hrun & Hsettled & Hbalance). exists o.
    split; [exact Hrun|]. split; [exact Hsettled|]. split; [exact Hbalance|].
    exact (proj2 (proj2 force_close_settles_each_once) nat twoCalls shortDb exampleConfig
             exampleExternal 0%nat o Hrun).
  - cbv zeta. split; [reflexivity|]. split; [vm_compute; reflexivity|].
    split; [vm_compute; reflexivity|].
    exact (proj1 (proj2 (proj1 force_close_settles_each_once unit _ exampleOpened
                           (num 12 10)))).
Defined.

(** * Further properties of the code *)

(** Order and equations between rationals, settled in [Q]. *)
Lemma Qc_eq_Qeq (x y : Qc) : x = y → (this x == this y)%Q.
Proof. by intros ->. Qed.

Ltac qc_order :=
  repeat match goal with
         | H : @eq Qc _ _ |- _ => apply Qc_eq_Qeq in H
         | |- @eq Qc _ _ => apply Qc_is_canon
         end;
  repeat (progress (unfold Qcle, Qclt, Qcplus, Qcminus, Qcopp, Qcmult, Q2Qc in *;
                    cbn [this] in *));
  rewrite ?Qred_correct in *; lra.

(** ** The wallet ([bot/infra/wallet.ts]) *)

Inductive WalletOp :=
  | Debit (amount : Qc)
  | Credit (amount : Qc)
  | OnBust.

Definition applyWalletOp (w : Wallet.t) (op : WalletOp) : Wallet.t :=
  match op with
  | Debit amount => Wallet.debit amount w
  | Credit amount => Wallet.credit amount w
  | OnBust => Wallet.onBust w
  end.



Definition sumQc (l : list Qc) : Qc := foldr Qcplus 0%Qc l.

Lemma sumQc_cons (x : Qc) (l : list Qc) : sumQc (x :: l) = (x + sumQc l)%Qc.
Proof. reflexivity. Qed.

Lemma sumQc_app (l k : list Qc) : sumQc (l ++ k) = (sumQc l + sumQc k)%Qc.
Proof.
  induction l as [|x l IH]; [change (sumQc []) with 0%Qc; simpl; ring|].
  change ((x :: l) ++ k) with (x :: (l ++ k)). rewrite !sumQc_cons, IH. ring.
Qed.






Lemma wallet_maxDrawdown_step w op :
  (Wallet.maxDrawdown w <= Wallet.maxDrawdown (applyWalletOp w op))%Qc.
Proof.
  destruct op; simpl; [case_bool_decide| |]; qc_order.
Qed.


(** ** The ledger ([env/state.ts]) *)

(** The ledger after a sequence of position events, from a new one. *)
Definition ledgerAfter (events : list Position.t) : EnvironmentState.t :=
  foldl (fun s pos => EnvironmentState.onPositionChanged pos s) EnvironmentState.create events.

Definition isClosed (p : Position.t) : Prop := Position.status p = "closed".
Definition isOpen (p : Position.t) : Prop := Position.status p = "open".
Definition isWinning (p : Position.t) : Prop := Position.close_reason p = "win".

#[global] Instance isClosed_dec p : Decision (isClosed p).
Proof. unfold isClosed. apply _. Defined.
#[global] Instance isOpen_dec p : Decision (isOpen p).
Proof. unfold isOpen. apply _. Defined.
#[global] Instance isWinning_dec p : Decision (isWinning p).
Proof. unfold isWinning. apply _. Defined.

Lemma ledgerAfter_snoc events pos :
  ledgerAfter (events ++ [pos]) = EnvironmentState.onPositionChanged pos (ledgerAfter events).
Proof. unfold ledgerAfter. by rewrite foldl_app. Qed.

(** The three cases of an event. *)
Lemma onPositionChanged_cases pos s :
  (isOpen pos ∧ ¬ isClosed pos ∧
   EnvironmentState.onPositionChanged pos s =
     EnvironmentState.mk (EnvironmentState.balance s)
       (EnvironmentState.upsert pos (EnvironmentState.openPositions s))
       (EnvironmentState.closedCount s) (EnvironmentState.winCount s)
       (EnvironmentState.lossCount s) (EnvironmentState.totalPnl s)
       (EnvironmentState.drawdown s) (EnvironmentState.maxDrawdown s)
       (EnvironmentState.peak s) (EnvironmentState.streak s)
       (EnvironmentState.recentClosed s) (EnvironmentState.availableAssets s)
       (EnvironmentState.serverTime s)) ∨
  (isClosed pos ∧ ¬ isOpen pos) ∨
  (¬ isOpen pos ∧ ¬ isClosed pos ∧ EnvironmentState.onPositionChanged pos s = s).
Proof.
  unfold EnvironmentState.onPositionChanged, isOpen, isClosed.
  destruct (decide (Position.status pos = "open")) as [Ho|Ho].
  - left. rewrite (bool_decide_eq_true_2 _ Ho). split; [done|]. split; [|done].
    rewrite Ho. done.
  - rewrite (bool_decide_eq_false_2 _ Ho).
    destruct (decide (Position.status pos = "closed")) as [Hc|Hc].
    + right. left. done.
    + right. right. by rewrite (bool_decide_eq_false_2 _ Hc).
Qed.


Lemma length_filter_snoc {X} (P : X → Prop) `{!∀ x, Decision (P x)} (l : list X) (x : X) :
  length (filter P (l ++ [x])) = (length (filter P l) + (if decide (P x) then 1 else 0))%nat.
Proof.
  rewrite filter_app, length_app. f_equal. rewrite filter_cons, filter_nil.
  by destruct (decide (P x)).
Qed.


(** X3.  The ledger remembers the closed positions it was given last,
    at most fifty of them, in the order they came. *)
Theorem ledger_remembers_last_fifty (events : list Position.t) :
  let closed := filter isClosed events in
  EnvironmentState.recentClosed (ledgerAfter events) = drop (length closed - 50) closed ∧
  (length (EnvironmentState.recentClosed (ledgerAfter events)) ≤ 50)%nat.
Proof.
  cbv zeta.
  assert (Hrecent : EnvironmentState.recentClosed (ledgerAfter events)
                    = drop (length (filter isClosed events) - 50) (filter isClosed events)).
  { induction events as [|pos events IH] using rev_ind; [done|].
    rewrite ledgerAfter_snoc. set (s := ledgerAfter events) in *.
    destruct (onPositionChanged_cases pos s) as [(Ho & Hnc & ->)|[[Hcl Hno]|(Hno & Hnc & ->)]].
    - by rewrite filter_app, filter_cons_False, filter_nil, app_nil_r.
    - unfold EnvironmentState.onPositionChanged.
      rewrite (bool_decide_eq_false_2 _ Hno), (bool_decide_eq_true_2 _ Hcl). cbv zeta.
      cbn [EnvironmentState.recentClosed].
      rewrite filter_app, filter_cons_True, filter_nil by done. rewrite IH.
      exact (pushShift_drop EnvironmentState.maxRecentClosed pos (filter isClosed events)
               ltac:(done)).
    - by rewrite filter_app, filter_cons_False, filter_nil, app_nil_r. }
  split; [exact Hrecent|]. rewrite Hrecent, length_drop. lia.
Qed.

(** The open positions after an [open] event. *)
Lemma upsert_ids pos l :
  Position.id <$> EnvironmentState.upsert pos l =
    if decide (Position.id pos ∈ Position.id <$> l) then Position.id <$> l
    else (Position.id <$> l) ++ [Position.id pos].
Proof.
  unfold EnvironmentState.upsert.
  destruct (list_find _ l) as [[i q]|] eqn:Hfind.
  - apply list_find_Some in Hfind as (Hi & Hq & _).
    rewrite decide_True.
    + rewrite list_fmap_insert, <- Hq. apply list_insert_id. by rewrite list_lookup_fmap, Hi.
    + rewrite <- Hq. apply list_elem_of_fmap. exists q. split; [done|].
      by eapply list_elem_of_lookup_2.
  - apply list_find_None in Hfind. rewrite decide_False; [by rewrite fmap_app|].
    intros (q & Hq & Hin)%list_elem_of_fmap. rewrite Forall_forall in Hfind.
    by apply (Hfind q).
Qed.

Lemma elem_of_upsert pos l p :
  NoDup (Position.id <$> l) →
  p ∈ EnvironmentState.upsert pos l ↔
    p = pos ∨ (p ∈ l ∧ Position.id p ≠ Position.id pos).
Proof.
  intros Hnd. unfold EnvironmentState.upsert.
  destruct (list_find _ l) as [[i q]|] eqn:Hfind.
  - apply list_find_Some in Hfind as (Hi & Hq & _). split.
    + intros (j & Hj)%list_elem_of_lookup.
      apply list_lookup_insert_Some in Hj as [(-> & -> & _)|(Hne & Hj)]; [by left|].
      right. split; [by eapply list_elem_of_lookup_2|].
      intros Heq. apply Hne.
      apply (NoDup_lookup _ i j (Position.id q) Hnd).
      * by rewrite list_lookup_fmap, Hi.
      * rewrite list_lookup_fmap, Hj. simpl. congruence.
    + intros [->|[(j & Hj)%list_elem_of_lookup Hne]].
      * apply list_elem_of_lookup. exists i. apply list_lookup_insert_eq.
        by eapply lookup_lt_Some.
      * apply list_elem_of_lookup. exists j. rewrite list_lookup_insert_ne; [done|].
        intros <-. congruence.
  - apply list_find_None in Hfind. rewrite Forall_forall in Hfind.
    rewrite elem_of_app, list_elem_of_singleton. split.
    + intros [Hin| ->]; [|by left]. right. split; [done|]. by apply Hfind.
    + intros [->|[Hin _]]; [by right|by left].
Qed.

Definition isTracked (p : Position.t) : Prop := isOpen p ∨ isClosed p.

#[global] Instance isTracked_dec p : Decision (isTracked p).
Proof. unfold isTracked. apply _. Defined.

(** The last event about the position [id] among [events]; events whose
    status is neither [open] nor [closed] are passed over, as
    [onPositionChanged] does. *)
Definition lastEventOf (id : Z) (events : list Position.t) : option Position.t :=
  last (filter (fun q => Position.id q = id ∧ isTracked q) events).

Lemma lastEventOf_snoc id events pos :
  lastEventOf id (events ++ [pos]) =
    if decide (Position.id pos = id ∧ isTracked pos) then Some pos
    else lastEventOf id events.
Proof.
  unfold lastEventOf. rewrite filter_app, filter_cons, filter_nil.
  destruct (decide _); [by rewrite last_snoc|by rewrite app_nil_r].
Qed.

(** X4.  The open positions of the ledger never hold two positions with
    the same id, and a position is among them exactly when it is the last
    event with status [open] or [closed] received about its id and that
    event says [open]. *)
Theorem ledger_open_positions_are_latest (events : list Position.t) :
  let s := ledgerAfter events in
  NoDup (Position.id <$> EnvironmentState.openPositions s) ∧
  ∀ p, p ∈ EnvironmentState.openPositions s ↔
       isOpen p ∧ lastEventOf (Position.id p) events = Some p.
Proof.
  cbv zeta. induction events as [|pos events IH] using rev_ind.
  { split; [constructor|]. intros p. simpl. split; [by intros ?%elem_of_nil|].
    by intros [_ ?]. }
  destruct IH as [Hnd Hin]. rewrite ledgerAfter_snoc. set (s := ledgerAfter events) in *.
  destruct (onPositionChanged_cases pos s) as [(Ho & Hnc & ->)|[[Hcl Hno]|(Hno & Hnc & ->)]].
  - cbn [EnvironmentState.openPositions]. split.
    + rewrite upsert_ids. destruct (decide _) as [|Hfresh]; [done|].
      apply NoDup_app. split; [done|]. split; [|apply NoDup_singleton].
      intros x Hx ->%list_elem_of_singleton. done.
    + intros p. rewrite elem_of_upsert by done. rewrite lastEventOf_snoc, Hin.
      destruct (decide _) as [[Hid Htr]|Hne].
      * split; [intros [->|[_ ?]]; [done|congruence]|]. intros [_ [= ->]]. by left.
      * split.
        -- intros [->|[? _]]; [|done]. exfalso. apply Hne. split; [done|by left].
        -- intros [Hop Hlast]. right. split; [done|]. intros Heq. apply Hne.
           split; [done|by left].
  - unfold EnvironmentState.onPositionChanged.
    rewrite (bool_decide_eq_false_2 _ Hno), (bool_decide_eq_true_2 _ Hcl). cbv zeta.
    cbn [EnvironmentState.openPositions]. split.
    + apply (NoDup_fmap_2_strong _); [|by apply NoDup_filter, (NoDup_fmap_1 Position.id)].
      intros x y [_ Hx]%list_elem_of_filter [_ Hy]%list_elem_of_filter Heq.
      apply list_elem_of_lookup in Hx as [i Hi]. apply list_elem_of_lookup in Hy as [j Hj].
      assert (i = j) as <-.
      { apply (NoDup_lookup _ i j (Position.id x) Hnd).
        - by rewrite list_lookup_fmap, Hi.
        - rewrite list_lookup_fmap, Hj. simpl. congruence. }
      congruence.
    + intros p. rewrite list_elem_of_filter, lastEventOf_snoc, Hin.
      destruct (decide _) as [[Hid Htr]|Hne].
      * split; [intros [? _]; congruence|]. intros [Hop [= ->]]. done.
      * split; [by intros [_ ?]|]. intros [Hop Hlast]. split; [|done].
        intros Heq. apply Hne. split; [done|by right].
  - split; [done|]. intros p. rewrite lastEventOf_snoc, Hin.
    destruct (decide _) as [[_ [?|?]]|_]; done.
Qed.

(** The number of items at the start of a list that all satisfy [P], and
    the number at its end. *)
Fixpoint leadingRun {X} (P : X → Prop) `{!∀ x, Decision (P x)} (l : list X) : nat :=
  match l with
  | [] => 0
  | x :: rest => if decide (P x) then S (leadingRun P rest) else 0
  end.

Definition trailingRun {X} (P : X → Prop) `{!∀ x, Decision (P x)} (l : list X) : nat :=
  leadingRun P (reverse l).

Lemma trailingRun_snoc {X} (P : X → Prop) `{!∀ x, Decision (P x)} (l : list X) (x : X) :
  trailingRun P (l ++ [x]) = if decide (P x) then S (trailingRun P l) else 0%nat.
Proof. unfold trailingRun. by rewrite reverse_snoc. Qed.

Lemma trailingRun_exclusive {X} (P : X → Prop) `{!∀ x, Decision (P x)} (l : list X) :
  trailingRun P l = 0%nat ∨ trailingRun (fun x => ¬ P x) l = 0%nat.
Proof.
  unfold trailingRun. destruct (reverse l) as [|x rest]; [by left|]. simpl.
  destruct (decide (P x)); [right|left]; [|done]. by rewrite decide_False by tauto.
Qed.

(** X5.  The streak of the ledger is the length of the run of wins that
    ends the closed positions received, or minus the length of the run of
    positions closed otherwise that ends them. *)
Theorem ledger_streak_is_current_run (events : list Position.t) :
  let closed := filter isClosed events in
  EnvironmentState.streak (ledgerAfter events) =
    Z.of_nat (trailingRun isWinning closed)
    - Z.of_nat (trailingRun (fun p => ¬ isWinning p) closed).
Proof.
  cbv zeta. induction events as [|pos events IH] using rev_ind; [done|].
  rewrite ledgerAfter_snoc. set (s := ledgerAfter events) in *.
  destruct (onPositionChanged_cases pos s) as [(Ho & Hnc & ->)|[[Hcl Hno]|(Hno & Hnc & ->)]].
  - by rewrite filter_app, filter_cons_False, filter_nil, app_nil_r.
  - unfold EnvironmentState.onPositionChanged.
    rewrite (bool_decide_eq_false_2 _ Hno), (bool_decide_eq_true_2 _ Hcl). cbv zeta.
    cbn [EnvironmentState.streak].
    rewrite filter_app, filter_cons_True, filter_nil by done.
    rewrite !trailingRun_snoc.
    change (Position.close_reason pos = "win") with (isWinning pos).
    pose proof (trailingRun_exclusive isWinning (filter isClosed events)) as Hex.
    destruct (decide (isWinning pos)) as [Hwin|Hwin].
    + rewrite (bool_decide_eq_true_2 _ Hwin), decide_False by tauto.
      case_bool_decide; lia.
    + rewrite (bool_decide_eq_false_2 _ Hwin), decide_True by done.
      case_bool_decide; lia.
  - by rewrite filter_app, filter_cons_False, filter_nil, app_nil_r.
Qed.

(** ** Listeners of the event bus ([events/bus.ts]) *)

(** [op] subscribes or unsubscribes [h] as a listener of [ty]. *)
Definition aboutListener (ty : string) (h : EventBus.Handler) (op : BusOp) : bool :=
  match op with
  | BusOn ty' h' | BusOff ty' h' => bool_decide (ty' = ty ∧ h' = h)
  | _ => false
  end.

(** The last [on] or [off] made with [h] for [ty] is an [on]. *)
Definition registered (ty : string) (h : EventBus.Handler) (ops : list BusOp) : Prop :=
  match last (filter (fun op => aboutListener ty h op) ops) with
  | Some (BusOn _ _) => True
  | _ => False
  end.

Lemma registered_snoc ty h ops op :
  registered ty h (ops ++ [op]) ↔
    match op with
    | BusOn ty' h' => (ty' = ty ∧ h' = h) ∨ registered ty h ops
    | BusOff ty' h' => ¬ (ty' = ty ∧ h' = h) ∧ registered ty h ops
    | _ => registered ty h ops
    end.
Proof.
  unfold registered. rewrite filter_app, filter_cons, filter_nil.
  destruct op as [? ?|ty' h'|ty' h'|?|?]; simpl; try (by rewrite app_nil_r).
  - destruct (decide (bool_decide (ty' = ty ∧ h' = h))) as [Hb|Hb].
    + rewrite last_snoc. apply bool_decide_unpack in Hb. tauto.
    + rewrite app_nil_r. rewrite bool_decide_spec in Hb. tauto.
  - destruct (decide (bool_decide (ty' = ty ∧ h' = h))) as [Hb|Hb].
    + rewrite last_snoc. apply bool_decide_unpack in Hb. tauto.
    + rewrite app_nil_r. rewrite bool_decide_spec in Hb. tauto.
Qed.

Lemma setAdd_NoDup h s : NoDup s → NoDup (EventBus.setAdd h s).
Proof.
  intros Hs. unfold EventBus.setAdd. case_bool_decide; [done|].
  apply NoDup_app. split; [done|]. split; [|apply NoDup_singleton].
  by intros x Hx ->%list_elem_of_singleton.
Qed.

Lemma elem_of_setAdd h h' s : h' ∈ EventBus.setAdd h s ↔ h' = h ∨ h' ∈ s.
Proof.
  unfold EventBus.setAdd. case_bool_decide.
  - split; [by right|]. by intros [->|?].
  - rewrite elem_of_app, list_elem_of_singleton. tauto.
Qed.

Lemma handlersOf_step ty b op :
  EventBus.handlersOf ty (applyBusOp b op) =
    match op with
    | BusOn ty' h =>
        if decide (ty' = ty) then EventBus.setAdd h (EventBus.handlersOf ty b)
        else EventBus.handlersOf ty b
    | BusOff ty' h =>
        if decide (ty' = ty) then filter (fun h' => h' ≠ h) (EventBus.handlersOf ty b)
        else EventBus.handlersOf ty b
    | _ => EventBus.handlersOf ty b
    end.
Proof.
  destruct op as [ty' p|ty' h|ty' h|fn|now]; unfold EventBus.handlersOf; simpl.
  - unfold EventBus.emit. by destruct (EventBus.persistFn b).
  - rewrite lookup_insert. destruct (decide (ty' = ty)) as [->|]; by simplify_option_eq.
  - rewrite lookup_insert. destruct (decide (ty' = ty)) as [->|]; by simplify_option_eq.
  - done.
  - done.
Qed.

(** X6.  On a bus that has gone through any sequence of operations, the
    listeners of an event type hold no handler twice, and a handler is
    among them exactly when the last [on] or [off] made with it for this
    type was an [on]; an event emitted then is delivered once to each
    listener of its type and once to each listener of [*], and to nobody
    else. *)
Theorem bus_delivers_to_registered_listeners :
  ∀ runId now ops ty p,
    let b := foldl applyBusOp (EventBus.create runId now) ops in
    (∀ ty', NoDup (EventBus.handlersOf ty' b)) ∧
    (∀ ty' h, h ∈ EventBus.handlersOf ty' b ↔ registered ty' h ops) ∧
    ∃ event,
      EventBus.type event = ty ∧ EventBus.payload event = p ∧
      EventBus.eventRunId event = runId ∧
      EventBus.delivered (EventBus.emit ty p b) =
        EventBus.delivered b ++
          ((fun h => (h, event)) <$> (EventBus.handlersOf ty b ++ EventBus.handlersOf "*" b)).
Proof.
  intros runId now ops ty p b.
  assert (Hinv : (∀ ty', NoDup (EventBus.handlersOf ty' b)) ∧
                 (∀ ty' h, h ∈ EventBus.handlersOf ty' b ↔ registered ty' h ops) ∧
                 EventBus.runId b = runId).
  { subst b. induction ops as [|op ops IH] using rev_ind.
    - split; [intros ty'; apply NoDup_nil_2|]. split; [|done]. intros ty' h.
      unfold EventBus.handlersOf, registered. simpl. rewrite lookup_empty. simpl.
      split; [by intros ?%elem_of_nil|done].
    - rewrite foldl_app. simpl. destruct IH as (Hnd & Hreg & Hid).
      set (b := foldl applyBusOp (EventBus.create runId now) ops) in *.
      split; [|split].
      + intros ty'. rewrite handlersOf_step.
        destruct op as [? ?|ty'' h|ty'' h|?|?]; try apply Hnd.
        * destruct (decide _); [apply setAdd_NoDup|]; apply Hnd.
        * destruct (decide _); [apply NoDup_filter|]; apply Hnd.
      + intros ty' h. rewrite handlersOf_step, registered_snoc.
        destruct op as [? ?|ty'' h'|ty'' h'|?|?]; try apply Hreg.
        * destruct (decide (ty'' = ty')) as [->|Hne].
          -- rewrite elem_of_setAdd, Hreg. split.
             ++ intros [->|?]; [by left|by right].
             ++ intros [[_ ->]|?]; [by left|by right].
          -- rewrite Hreg. split; [by right|]. by intros [[? _]|?].
        * destruct (decide (ty'' = ty')) as [->|Hne].
          -- rewrite list_elem_of_filter, Hreg. split.
             ++ intros [Hh ?]. split; [|done]. intros [_ ->]. done.
             ++ intros [Hh ?]. split; [|done]. intros ->. by apply Hh.
          -- rewrite Hreg. split; [|by intros [_ ?]]. intros ?. split; [|done].
             by intros [? _].
      + destruct op; simpl; try done. unfold EventBus.emit.
        by destruct (EventBus.persistFn b). }
  destruct Hinv as (Hnd & Hreg & Hid). split; [exact Hnd|]. split; [exact Hreg|].
  exists (EventBus.mkEvent (EventBus.runId b) ty (EventBus.timeFn b) p).
  split; [done|]. split; [done|]. split; [exact Hid|].
  unfold EventBus.emit. by destruct (EventBus.persistFn b).
Qed.

(** ** The agent context ([env/agent-context.ts]) *)









(** ** Subscriptions of the sensor manager ([env/sensors.ts]) *)

Definition isCandleSensor (entry : string * Sensor.t) : Prop :=
  Sensor.type entry.2 = SCandle.

#[global] Instance isCandleSensor_dec entry : Decision (isCandleSensor entry).
Proof. unfold isCandleSensor. apply _. Defined.

Definition isSubscribeCandles (call : SensorManager.FacadeCall) : bool :=
  match call with SensorManager.SubscribeCandles _ _ => true | _ => false end.

Definition isUnsubscribeCandles (call : SensorManager.FacadeCall) : bool :=
  match call with SensorManager.UnsubscribeCandles _ _ => true | _ => false end.

(** The sensors and the buffers of a manager have the same ids, and the
    candle streams asked of the venue and not cancelled are as many as
    the candle sensors. *)
Definition subscriptionsInStep (m : SensorManager.t) : Prop :=
  (∀ sensorId,
     is_Some (SensorManager.activeSensors m !! sensorId) ↔
     is_Some (SensorManager.sensorData m !! sensorId)) ∧
  length (filter (fun c => isSubscribeCandles c) (SensorManager.facade m)) =
    (length (filter (fun c => isUnsubscribeCandles c) (SensorManager.facade m))
     + size (filter isCandleSensor (SensorManager.activeSensors m)))%nat.

Lemma subscriptionsInStep_create capacity :
  subscriptionsInStep (SensorManager.create capacity).
Proof.
  split; [|done]. intros id. simpl. rewrite !lookup_empty. done.
Qed.

Lemma subscriptionsInStep_step m op :
  subscriptionsInStep m → subscriptionsInStep (applySensorOp m op).
Proof.
  intros [Hdom Hcount]. destruct op as [s|id|id x|id c|id xs|cb|cb]; simpl.
  - unfold SensorManager.subscribe.
    destruct (SensorManager.activeSensors m !! Sensor.id s) eqn:Hs; [done|].
    split; simpl.
    + intros id. rewrite !lookup_insert. case_decide; [|apply Hdom].
      split; intros _; by eexists.
    + rewrite !filter_app, !length_app, Hcount.
      destruct (Sensor.type s) eqn:Hty; simpl.
      * rewrite map_filter_insert_True by done.
        rewrite map_size_insert_None; [lia|]. by apply map_lookup_filter_None_2; left.
      * rewrite map_filter_insert_False by (unfold isCandleSensor; simpl; congruence).
        rewrite delete_id by done. lia.
      * rewrite map_filter_insert_False by (unfold isCandleSensor; simpl; congruence).
        rewrite delete_id by done. lia.
      * rewrite map_filter_insert_False by (unfold isCandleSensor; simpl; congruence).
        rewrite delete_id by done. lia.
      * rewrite map_filter_insert_False by (unfold isCandleSensor; simpl; congruence).
        rewrite delete_id by done. lia.
  - unfold SensorManager.unsubscribe.
    destruct (SensorManager.activeSensors m !! id) as [s|] eqn:Hs; [|done].
    split; simpl.
    + intros id'. rewrite !lookup_delete. case_decide; [|apply Hdom].
      split; by intros [? ?].
    + rewrite !filter_app, !length_app, Hcount, map_filter_delete.
      destruct (Sensor.type s) eqn:Hty; simpl.
      * rewrite map_size_delete_Some.
        -- assert (0 < size (filter isCandleSensor (SensorManager.activeSensors m)))%nat; [|lia].
           apply Nat.neq_0_lt_0. intros Hz%map_size_empty_inv.
           assert (filter isCandleSensor (SensorManager.activeSensors m) !! id = Some s) as Hl
             by (by apply map_lookup_filter_Some_2).
           by rewrite Hz, lookup_empty in Hl.
        -- exists s. by apply map_lookup_filter_Some_2.
      * rewrite map_size_delete_None; [lia|]. apply map_lookup_filter_None_2. right.
        intros s' Hs'. unfold isCandleSensor. simpl. congruence.
      * rewrite map_size_delete_None; [lia|]. apply map_lookup_filter_None_2. right.
        intros s' Hs'. unfold isCandleSensor. simpl. congruence.
      * rewrite map_size_delete_None; [lia|]. apply map_lookup_filter_None_2. right.
        intros s' Hs'. unfold isCandleSensor. simpl. congruence.
      * rewrite map_size_delete_None; [lia|]. apply map_lookup_filter_None_2. right.
        intros s' Hs'. unfold isCandleSensor. simpl. congruence.
  - unfold SensorManager.pushData.
    destruct (SensorManager.sensorData m !! id) as [buffer|] eqn:Hb; [|done].
    split; [|done]. intros id'. simpl. rewrite lookup_insert. case_decide; [|apply Hdom].
    subst. rewrite Hdom, Hb. split; intros _; by eexists.
  - unfold SensorManager.pushCandle.
    destruct (SensorManager.sensorData m !! id) as [buffer|] eqn:Hb; [|done].
    split; [|done]. intros id'. simpl. rewrite lookup_insert. case_decide; [|apply Hdom].
    subst. rewrite Hdom, Hb. split; intros _; by eexists.
  - unfold SensorManager.prefill.
    destruct (SensorManager.sensorData m !! id) as [buffer|] eqn:Hb; [|done].
    split; [|done]. intros id'. simpl. rewrite lookup_insert. case_decide; [|apply Hdom].
    subst. rewrite Hdom, Hb. split; intros _; by eexists.
  - done.
  - done.
Qed.

(** X8.  Whatever is done to a sensor manager, a sensor is active
    exactly when it has a buffer, and the candle streams subscribed at the
    venue and not unsubscribed are as many as the active candle sensors;
    data pushed for a sensor that is not active is dropped and no update
    callback is called for it. *)
Theorem sensor_manager_subscriptions_in_step :
  ∀ capacity ops,
    let m := foldl applySensorOp (SensorManager.create capacity) ops in
    subscriptionsInStep m ∧
    ∀ sensorId data candle,
      SensorManager.activeSensors m !! sensorId = None →
      SensorManager.pushData sensorId data m = m ∧
      SensorManager.pushCandle sensorId candle m = m.
Proof.
  intros capacity ops m.
  assert (Hinv : subscriptionsInStep m).
  { subst m. induction ops as [|op ops IH] using rev_ind.
    - apply subscriptionsInStep_create.
    - rewrite foldl_app. simpl. by apply subscriptionsInStep_step. }
  split; [exact Hinv|]. intros id data candle Hnone.
  destruct Hinv as [Hdom _].
  assert (SensorManager.sensorData m !! id = None) as Hb.
  { destruct (SensorManager.sensorData m !! id) eqn:E; [|done].
    assert (is_Some (SensorManager.activeSensors m !! id)) as [? ?] by (apply Hdom; by eexists).
    congruence. }
  unfold SensorManager.pushData, SensorManager.pushCandle. by rewrite Hb.
Qed.

(** ** Historical candles in the backtest ([backtest/candles-api.ts]) *)

(** The candles of an instrument and size that started before [now]. *)
Definition startedBefore (now activeId size : Z) (c : Candle.t) : Prop :=
  Candle.active_id c = activeId ∧ Candle.size c = size ∧ Candle.from c < now.

#[global] Instance startedBefore_dec now activeId size c :
  Decision (startedBefore now activeId size c).
Proof. unfold startedBefore. apply _. Defined.

Lemma sliceFromEnd_suffix {X} (n : Z) (arr : list X) : sliceFromEnd n arr `suffix_of` arr.
Proof. unfold sliceFromEnd. case_bool_decide; apply suffix_drop. Qed.

Lemma length_sliceFromEnd {X} (n : Z) (arr : list X) :
  0 < n → length (sliceFromEnd n arr) = Nat.min (Z.to_nat n) (length arr).
Proof.
  intros Hn. unfold sliceFromEnd. rewrite bool_decide_eq_true_2 by done.
  rewrite length_drop. lia.
Qed.

(** X9.  [getFirstCandles] answers with candles of the instrument and
    size asked for that started before the current time, never with a
    later one: the last [count] of them in dataset order when [count] is
    positive, all of them when [count] is zero, and all but the first
    [-count] when it is negative.  [getCandles] answers with the candles
    of the instrument and size whose start lies in the range asked for,
    in dataset order, whatever the current time. *)
Theorem backtest_candles_api_answers :
  ∀ (allCandles : list Candle.t) (now activeId size count from to : Z),
    let history := filter (startedBefore now activeId size) allCandles in
    let first := BacktestCandlesAPI.getFirstCandles allCandles now activeId size count in
    let range := BacktestCandlesAPI.getCandles allCandles activeId size from to in
    first `suffix_of` history ∧
    Forall (startedBefore now activeId size) first ∧
    (0 < count → length first = Nat.min (Z.to_nat count) (length history)) ∧
    (count = 0 → first = history) ∧
    (count < 0 → first = drop (Z.to_nat (- count)) history) ∧
    range `sublist_of` allCandles ∧
    (∀ c, c ∈ range ↔
          c ∈ allCandles ∧ Candle.active_id c = activeId ∧ Candle.size c = size ∧
          from ≤ Candle.from c ≤ to).
Proof.
  intros allCandles now activeId size count from to history first range.
  assert (Hsuffix : first `suffix_of` history) by apply sliceFromEnd_suffix.
  split; [exact Hsuffix|]. split.
  { apply Forall_forall. intros c Hc.
    assert (c ∈ history) as Hin.
    { destruct Hsuffix as [pre Hpre]. rewrite Hpre, elem_of_app. by right. }
    by apply list_elem_of_filter in Hin as [? _]. }
  split; [apply length_sliceFromEnd|]. split.
  { intros ->. subst first. unfold BacktestCandlesAPI.getFirstCandles, sliceFromEnd. done. }
  split.
  { intros Hneg. subst first. unfold BacktestCandlesAPI.getFirstCandles, sliceFromEnd.
    by rewrite bool_decide_eq_false_2 by lia. }
  split; [apply sublist_filter|].
  intros c. subst range. unfold BacktestCandlesAPI.getCandles.
  rewrite list_elem_of_filter. tauto.
Qed.

(** ** Books of the backtest environment ([backtest/environment.ts]) *)

(** The open position [executeTrade] feeds the ledger for a trade. *)
Definition openPosition (tr : PendingTrade.t) : Position.t :=
  {| Position.id := PendingTrade.id tr;
     Position.active_id := PendingTrade.activeId tr;
     Position.direction := PendingTrade.direction tr;
     Position.invest := PendingTrade.invest tr;
     Position.open_quote := PendingTrade.openQuote tr;
     Position.open_time := PendingTrade.openTime tr;
     Position.expiration_time := PendingTrade.expirationTime tr;
     Position.status := "open";
     Position.close_quote := 0%Qc;
     Position.close_reason := "";
     Position.close_time := 0;
     Position.pnl := Some 0%Qc;
     Position.pnl_realized := Some 0%Qc |}.

(** The stakes held for a list of trades. *)
Definition stakes (trades : list PendingTrade.t) : Qc :=
  sumQc (PendingTrade.invest <$> trades).

Lemma stakes_app l k : stakes (l ++ k) = (stakes l + stakes k)%Qc.
Proof. unfold stakes. by rewrite fmap_app, sumQc_app. Qed.

Lemma stakes_filter (P : PendingTrade.t → Prop) `{!∀ tr, Decision (P tr)} l :
  stakes l = (stakes (filter P l) + stakes (filter (fun tr => ¬ P tr) l))%Qc.
Proof.
  induction l as [|tr l IH]; [unfold stakes; simpl; change (sumQc []) with 0%Qc; ring|].
  rewrite !filter_cons. change (stakes (tr :: l)) with (PendingTrade.invest tr + stakes l)%Qc.
  rewrite IH. destruct (decide (P tr)).
  - rewrite decide_False by tauto.
    change (stakes (tr :: ?k)) with (PendingTrade.invest tr + stakes k)%Qc. ring.
  - rewrite decide_True by done.
    change (stakes (tr :: ?k)) with (PendingTrade.invest tr + stakes k)%Qc. ring.
Qed.

Section Books.
Import BacktestEnvironment.
Context {A : Type} `{!Agent A}.
Implicit Types (env : BacktestEnvironment.t A) (tr trade : PendingTrade.t).

Lemma tradeToPosition_open tr env : tradeToPosition tr "open" None env = openPosition tr.
Proof. reflexivity. Qed.

Lemma isWin_not_tie trade price : isWin trade price = true → isTie trade price = false.
Proof. unfold isWin. by destruct (isTie trade price). Qed.

Lemma closeReasonAt_win trade price :
  closeReasonAt trade price = "win" ↔ isWin trade price = true.
Proof.
  unfold closeReasonAt. pose proof (isWin_not_tie trade price).
  destruct (isTie trade price), (isWin trade price); split; intros Hx;
    try done; try discriminate.
  by specialize (H eq_refl).
Qed.

(** What a settlement does to the wallet and the ledger. *)
Lemma resolveTradeAtPrice_books trade price env :
  let env' := resolveTradeAtPrice trade price env in
  Wallet.balance (wallet env') =
    (Wallet.balance (wallet env) + PendingTrade.invest trade + pnlAt trade price)%Qc ∧
  EnvironmentState.balance (state env') = Wallet.balance (wallet env') ∧
  EnvironmentState.openPositions (state env') =
    filter (fun p => Position.id p ≠ PendingTrade.id trade)
      (EnvironmentState.openPositions (state env)) ∧
  EnvironmentState.totalPnl (state env') =
    (EnvironmentState.totalPnl (state env) + pnlAt trade price)%Qc ∧
  EnvironmentState.closedCount (state env') = EnvironmentState.closedCount (state env) + 1 ∧
  EnvironmentState.winCount (state env') =
    EnvironmentState.winCount (state env) + (if isWin trade price then 1 else 0) ∧
  EnvironmentState.lossCount (state env') =
    EnvironmentState.lossCount (state env) + (if isWin trade price then 0 else 1).
Proof.
  intros env'. subst env'.
  split.
  { rewrite resolveTradeAtPrice_wallet. unfold pnlAt.
    pose proof (isWin_not_tie trade price).
    destruct (isTie trade price), (isWin trade price); simpl; ring. }
  rewrite resolveTradeAtPrice_state.
  set (b := Wallet.balance (wallet (resolveTradeAtPrice trade price env))).
  unfold EnvironmentState.onPositionChanged.
  change (Position.status (closedPosition trade price env)) with "closed".
  rewrite (bool_decide_eq_false_2 ("closed" = "open")) by done.
  rewrite (bool_decide_eq_true_2 ("closed" = "closed")) by done.
  cbv zeta.
  cbn [EnvironmentState.balance EnvironmentState.openPositions EnvironmentState.totalPnl
       EnvironmentState.closedCount EnvironmentState.winCount EnvironmentState.lossCount
       EnvironmentState.set_balance].
  change (Position.close_reason (closedPosition trade price env))
    with (closeReasonAt trade price).
  change (Position.pnl (closedPosition trade price env)) with (Some (pnlAt trade price)).
  change (Position.id (closedPosition trade price env)) with (PendingTrade.id trade).
  split; [done|]. split; [done|]. split; [done|]. split; [done|].
  destruct (isWin trade price) eqn:Hwin.
  - rewrite bool_decide_eq_true_2 by by apply closeReasonAt_win. split; lia.
  - rewrite bool_decide_eq_false_2; [split; lia|].
    rewrite closeReasonAt_win. congruence.
Qed.

(** The books are kept: the balance of the ledger is that of the wallet;
    the open positions of the ledger are the pending trades, in their
    order; the ids of the pending trades are distinct and below the next
    id; the wallet together with the stakes held is the initial balance
    plus the pnl realised; the closed positions are the wins and the
    losses; the sensors subscribed are those with a buffer, and no buffer
    holds more than a hundred items. *)
Definition booksKept (initial : Qc) env : Prop :=
  EnvironmentState.balance (state env) = Wallet.balance (wallet env) ∧
  EnvironmentState.openPositions (state env) = openPosition <$> pendingTrades env ∧
  NoDup (PendingTrade.id <$> pendingTrades env) ∧
  Forall (fun tr => PendingTrade.id tr < nextPositionId env) (pendingTrades env) ∧
  (Wallet.balance (wallet env) + stakes (pendingTrades env) =
     initial + EnvironmentState.totalPnl (state env))%Qc ∧
  EnvironmentState.closedCount (state env) =
    EnvironmentState.winCount (state env) + EnvironmentState.lossCount (state env) ∧
  (∀ sensorId,
     is_Some (sensorBuffers env !! sensorId) ↔ is_Some (subscribedSensors env !! sensorId)) ∧
  buffersWithin maxBufferSize (sensorBuffers env).

(** When the trade-resolved callback is set, the counters its calls add
    up to are those of the ledger. *)
Definition tallied env : Prop :=
  tradeResolvedCallback env = true →
  BacktestRunner.tallyWins (BacktestRunner.tally (resolved env)) =
    EnvironmentState.winCount (state env) ∧
  BacktestRunner.tallyLosses (BacktestRunner.tally (resolved env))
  + BacktestRunner.tallyTies (BacktestRunner.tally (resolved env)) =
    EnvironmentState.lossCount (state env) ∧
  BacktestRunner.tallyPnl (BacktestRunner.tally (resolved env)) =
    EnvironmentState.totalPnl (state env).

(** What the agent is shown is in step with the simulator: the open
    positions of an observation are the trades pending at that moment,
    and no buffer of it holds more than a hundred items; the positions
    reported to [onTradeResult] are closed. *)
Definition hookSound (h : HookCall) : Prop :=
  match h with
  | Observed obs pending =>
      EnvironmentState.openPositions (Observation.state obs) = openPosition <$> pending ∧
      buffersWithin maxBufferSize (Observation.sensors obs)
  | TradeResult pos => Position.status pos = "closed"
  end.

Definition sound (initial : Qc) env : Prop :=
  booksKept initial env ∧ tallied env ∧ Forall hookSound (hooks env).

Lemma sound_emit initial ty p env : sound initial env → sound initial (emit ty p env).
Proof. done. Qed.

Lemma sound_create candles w bus config payout (a : A) :
  sound (Wallet.balance w) (create candles w bus config payout a).
Proof.
  split; [|split]; [|done|constructor].
  unfold booksKept, create. env_cbn.
  assert (Hst : ∀ st : EnvironmentState.t,
            match config with
            | Some c => EnvironmentState.set_availableAssets [c] st
            | None => st
            end =
            EnvironmentState.set_availableAssets
              (match config with Some c => [c] | None => EnvironmentState.availableAssets st end)
              st).
  { intros st. destruct config; [done|]. by destruct st. }
  rewrite Hst. simpl.
  split; [done|]. split; [done|]. split; [constructor|]. split; [constructor|].
  split; [unfold stakes; simpl; change (sumQc []) with 0%Qc; ring|].
  split; [done|]. split.
  - intros id. by rewrite !lookup_empty.
  - intros id b. by rewrite lookup_empty.
Qed.

Lemma openPosition_ids (trades : list PendingTrade.t) :
  Position.id <$> (openPosition <$> trades) = PendingTrade.id <$> trades.
Proof. by rewrite <- list_fmap_compose. Qed.

Lemma sound_openTrade initial payload env :
  sound initial env → sound initial (openTrade payload env).
Proof.
  intros ((Hbal & Hopen & Hnd & Hids & Hacc & Hcount & Hdom & Hbuf) & Htally & Hhooks).
  assert (Hfresh : PendingTrade.id (newTrade payload env) ∉ PendingTrade.id <$> pendingTrades env).
  { intros (tr & Heq & Hin)%list_elem_of_fmap. rewrite Forall_forall in Hids.
    specialize (Hids tr Hin). simpl in Heq. lia. }
  assert (Hstate : EnvironmentState.onPositionChanged (openPosition (newTrade payload env))
            (EnvironmentState.set_balance
               (Wallet.balance (Wallet.debit (TradePayload.price payload) (wallet env)))
               (state env))
          = EnvironmentState.mk
              (Wallet.balance (Wallet.debit (TradePayload.price payload) (wallet env)))
              (openPosition <$> (pendingTrades env ++ [newTrade payload env]))
              (EnvironmentState.closedCount (state env)) (EnvironmentState.winCount (state env))
              (EnvironmentState.lossCount (state env)) (EnvironmentState.totalPnl (state env))
              (EnvironmentState.drawdown (state env)) (EnvironmentState.maxDrawdown (state env))
              (EnvironmentState.peak (state env)) (EnvironmentState.streak (state env))
              (EnvironmentState.recentClosed (state env))
              (EnvironmentState.availableAssets (state env))
              (EnvironmentState.serverTime (state env))).
  { unfold EnvironmentState.onPositionChanged.
    change (Position.status (openPosition (newTrade payload env))) with "open".
    rewrite (bool_decide_eq_true_2 ("open" = "open")) by done.
    cbn [EnvironmentState.set_balance EnvironmentState.balance EnvironmentState.openPositions
         EnvironmentState.closedCount EnvironmentState.winCount EnvironmentState.lossCount
         EnvironmentState.totalPnl EnvironmentState.drawdown EnvironmentState.maxDrawdown
         EnvironmentState.peak EnvironmentState.streak EnvironmentState.recentClosed
         EnvironmentState.availableAssets EnvironmentState.serverTime].
    f_equal. unfold EnvironmentState.upsert.
    destruct (list_find _ _) as [[i q]|] eqn:Hfind.
    - apply list_find_Some in Hfind as (Hi & Hq & _). exfalso. apply Hfresh.
      rewrite <- openPosition_ids, <- Hopen. apply list_elem_of_fmap. exists q.
      split; [done|]. by eapply list_elem_of_lookup_2.
    - by rewrite Hopen, fmap_app. }
  unfold openTrade. cbv zeta. env_cbn. rewrite tradeToPosition_open.
  unfold Wallet.getBalance. rewrite Hstate.
  split; [|split]; [|exact Htally|exact Hhooks].
  unfold booksKept. env_cbn.
  cbn [EnvironmentState.balance EnvironmentState.openPositions EnvironmentState.closedCount
       EnvironmentState.winCount EnvironmentState.lossCount EnvironmentState.totalPnl].
  split; [done|]. split; [done|]. split.
  { rewrite fmap_app. apply NoDup_app. split; [done|]. split; [|apply NoDup_singleton].
    intros x Hx ->%list_elem_of_singleton. done. }
  split.
  { apply Forall_app. split.
    - eapply Forall_impl; [exact Hids|]. intros tr ?. simpl in *. lia.
    - repeat constructor. simpl. lia. }
  split.
  { rewrite stakes_app. change (stakes [newTrade payload env]) with
      (TradePayload.price payload + 0)%Qc. simpl. rewrite <- Hacc. ring. }
  done.
Qed.

Lemma sound_executeTrade initial payload env env' :
  executeTrade payload env = inr env' → sound initial env → sound initial env'.
Proof.
  unfold executeTrade. destruct (negb _); [done|]. intros [= <-] Hs.
  unfold emitOpened. cbv zeta. do 3 apply sound_emit. by apply sound_openTrade.
Qed.

(** New buffers and subscriptions with the same ids, within the bound. *)
Lemma sound_set_sensors initial buffers sensors env :
  (∀ sensorId, is_Some (buffers !! sensorId) ↔ is_Some (sensors !! sensorId)) →
  buffersWithin maxBufferSize buffers →
  sound initial env →
  sound initial (set_sensorBuffers buffers (set_subscribedSensors sensors env)).
Proof.
  intros Hdom Hbuf ((Hbal & Hopen & Hnd & Hids & Hacc & Hcount & _ & _) & Htally & Hhooks).
  split; [|split]; [|exact Htally|exact Hhooks]. unfold booksKept. env_cbn. done.
Qed.

Lemma sound_set_sensorBuffers initial buffers env :
  (∀ sensorId, is_Some (buffers !! sensorId) ↔ is_Some (subscribedSensors env !! sensorId)) →
  buffersWithin maxBufferSize buffers →
  sound initial env → sound initial (set_sensorBuffers buffers env).
Proof.
  intros Hdom Hbuf ((Hbal & Hopen & Hnd & Hids & Hacc & Hcount & _ & _) & Htally & Hhooks).
  split; [|split]; [|exact Htally|exact Hhooks]. unfold booksKept. env_cbn. done.
Qed.

Lemma sound_set_warnings initial w env : sound initial env → sound initial (set_warnings w env).
Proof. done. Qed.

Lemma length_sliceFromEnd_le {X} (n : Z) (arr : list X) :
  0 < n → Z.of_nat (length (sliceFromEnd n arr)) ≤ n.
Proof. intros Hn. rewrite length_sliceFromEnd by done. lia. Qed.

Lemma sound_executeSubscribe initial sensor env :
  sound initial env → sound initial (executeSubscribe sensor env).
Proof.
  intros Hs. pose proof Hs as ((_ & _ & _ & _ & _ & _ & Hdom & Hbuf) & _ & _).
  unfold executeSubscribe.
  destruct (subscribedSensors env !! Sensor.id sensor) eqn:Hsub; [done|].
  assert (Hnone : sensorBuffers env !! Sensor.id sensor = None).
  { destruct (sensorBuffers env !! Sensor.id sensor) eqn:E; [|done].
    assert (is_Some (subscribedSensors env !! Sensor.id sensor)) as [? ?]
      by (apply Hdom; by eexists).
    congruence. }
  rewrite Hnone. cbv zeta. env_cbn.
  rewrite lookup_insert_eq. simpl.
  case_bool_decide.
  - apply sound_set_sensorBuffers; [| |apply sound_set_sensors; try done].
    + intros id. env_cbn. rewrite !lookup_insert. case_decide; [|apply Hdom].
      split; intros _; by eexists.
    + apply buffersWithin_insert; [by apply buffersWithin_insert|].
      rewrite length_fmap. by apply length_sliceFromEnd_le.
    + intros id. rewrite !lookup_insert. case_decide; [|apply Hdom].
      split; intros _; by eexists.
    + by apply buffersWithin_insert.
  - apply sound_set_warnings, sound_set_sensors; try done.
    + intros id. rewrite !lookup_insert. case_decide; [|apply Hdom].
      split; intros _; by eexists.
    + by apply buffersWithin_insert.
Qed.

Lemma sound_executeUnsubscribe initial sensorId env :
  sound initial env → sound initial (executeUnsubscribe sensorId env).
Proof.
  intros Hs. pose proof Hs as ((_ & _ & _ & _ & _ & _ & Hdom & Hbuf) & _ & _).
  unfold executeUnsubscribe. apply sound_set_sensors; try done.
  - intros id. rewrite !lookup_delete. case_decide; [|apply Hdom].
    split; by intros [? ?].
  - by apply buffersWithin_delete.
Qed.

Lemma sound_prefillSensor initial sensorId data env :
  sound initial env → sound initial (prefillSensor sensorId data env).
Proof.
  intros Hs. pose proof Hs as ((_ & _ & _ & _ & _ & _ & Hdom & Hbuf) & _ & _).
  unfold prefillSensor. destruct (sensorBuffers env !! sensorId) as [buffer|] eqn:Hb; [|done].
  apply sound_set_sensorBuffers; try done.
  - intros id. rewrite lookup_insert. case_decide; [|apply Hdom].
    subst. rewrite <- Hdom, Hb. split; intros _; by eexists.
  - apply buffersWithin_insert; [done|]. apply foldl_pushShift_bounded; [done|].
    by eapply Hbuf.
Qed.

Lemma sound_executeAction initial action env :
  sound initial env → sound initial (executeAction action env).2.
Proof.
  intros Hs. destruct action as [payload|sensor|sensorId|q|ty]; simpl; try done.
  - destruct (executeTrade payload env) as [err|env'] eqn:E; [done|].
    by eapply sound_executeTrade.
  - by apply sound_executeSubscribe.
  - by apply sound_executeUnsubscribe.
Qed.

Lemma sound_executeActionsFrom initial i actions env :
  sound initial env → sound initial (executeActionsFrom i actions env).2.
Proof.
  revert i env. induction actions as [|a actions IH]; intros i env Hs; simpl; [done|].
  pose proof (sound_executeAction initial a env Hs) as Hs1.
  destruct (executeAction a env) as [r env1]. simpl in Hs1.
  match goal with
  | |- context [executeActionsFrom (S i) actions ?e] =>
      specialize (IH (S i) e); destruct (executeActionsFrom (S i) actions e) as [results env']
  end.
  simpl in *. apply IH. destruct r; by apply sound_emit.
Qed.

Lemma sound_perform initial {R} (p : EnvProgram R) env :
  sound initial env → sound initial (perform p env).2.
Proof.
  revert env. induction p as [r|k IH|actions k IH|sensorId data k IH|a s f u k IH|a s c k IH];
    intros env Hs; simpl; eauto.
  - pose proof (sound_executeActionsFrom initial 0 actions env Hs) as Hs1.
    unfold executeActions. destruct (executeActionsFrom 0 actions env) as [results env1].
    by apply IH.
  - by apply IH, sound_prefillSensor.
Qed.

Lemma sound_runAgent initial env : sound initial env → sound initial (runAgent env).
Proof.
  intros Hs. unfold runAgent. cbv zeta.
  assert (Hs1 : sound initial (set_agentRef true env)) by done.
  pose proof (sound_perform initial (initialize (agent (set_agentRef true env))) _ Hs1) as Hs2.
  destruct (perform _ _) as [a env2]. simpl in Hs2. done.
Qed.

Lemma sound_agentCycle initial env : sound initial env → sound initial (agentCycle env).
Proof.
  intros Hs. unfold agentCycle. cbv zeta.
  destruct (onObservation (agent env) (getObservation env)) as [a answer].
  assert (Hs1 : sound initial
                  (set_agent a
                     (set_hooks (hooks env ++ [Observed (getObservation env) (pendingTrades env)])
                        env))).
  { destruct Hs as (Hb & Ht & Hh). split; [exact Hb|]. split; [exact Ht|]. env_cbn.
    apply Forall_app. split; [done|]. repeat constructor; simpl; apply Hb. }
  destruct answer as [[|action actions]|]; try done.
  unfold executeActions. by apply sound_executeActionsFrom.
Qed.

Lemma sound_iter_agentCycle initial n env :
  sound initial env → sound initial (Nat.iter n agentCycle env).
Proof. intros Hs. induction n as [|n IH]; simpl; [done|]. by apply sound_agentCycle. Qed.

Lemma sound_feedCandle initial candle env :
  sound initial env → sound initial (feedCandle candle env).
Proof.
  intros Hs. pose proof Hs as ((_ & _ & _ & _ & _ & _ & Hdom & Hbuf) & _ & _).
  unfold feedCandle. cbv zeta.
  destruct (sensorBuffers env !! _) as [buffer|] eqn:Hb; [|done].
  unfold runCallbacks. env_cbn. apply sound_iter_agentCycle.
  apply sound_set_sensorBuffers; try done.
  - intros id. rewrite lookup_insert. case_decide; [|apply Hdom].
    subst. rewrite <- Hdom, Hb. split; intros _; by eexists.
  - apply buffersWithin_insert; [done|].
    exact (candleInto_bounded maxBufferSize candle buffer ltac:(done) (Hbuf _ _ Hb)).
Qed.

Lemma sound_setCurrentTime initial ts env :
  sound initial env → sound initial (setCurrentTime ts env).
Proof. done. Qed.

(** What settling a list of trades does to the books. *)
Lemma foldl_settle_books (price : list Candle.t → PendingTrade.t → Qc) trades env :
  let env' :=
    foldl (fun e tr => resolveTradeAtPrice tr (price (allCandles e) tr) e) env trades in
  (Wallet.balance (wallet env') + EnvironmentState.totalPnl (state env) =
     Wallet.balance (wallet env) + stakes trades + EnvironmentState.totalPnl (state env'))%Qc ∧
  (EnvironmentState.balance (state env) = Wallet.balance (wallet env) →
   EnvironmentState.balance (state env') = Wallet.balance (wallet env')) ∧
  EnvironmentState.openPositions (state env') =
    filter (fun p => Position.id p ∉ PendingTrade.id <$> trades)
      (EnvironmentState.openPositions (state env)) ∧
  (EnvironmentState.closedCount (state env) =
     EnvironmentState.winCount (state env) + EnvironmentState.lossCount (state env) →
   EnvironmentState.closedCount (state env') =
     EnvironmentState.winCount (state env') + EnvironmentState.lossCount (state env')) ∧
  (tallied env → tallied env') ∧
  (Forall hookSound (hooks env) → Forall hookSound (hooks env')).
Proof.
  revert env. induction trades as [|tr trades IH]; intros env; simpl.
  { split; [unfold stakes; simpl; change (sumQc []) with 0%Qc; ring|].
    split; [done|]. split; [|done].
    induction (EnvironmentState.openPositions (state env)) as [|p l IHl]; [done|].
    rewrite filter_cons_True by (by intros ?%elem_of_nil). by rewrite <- IHl. }
  set (env1 := resolveTradeAtPrice tr (price (allCandles env) tr) env).
  destruct (IH env1) as (Hacc & Hbal & Hopen & Hcount & Htally & Hhooks).
  destruct (resolveTradeAtPrice_books tr (price (allCandles env) tr) env)
    as (Hw1 & Hb1 & Ho1 & Hp1 & Hc1 & Hwin1 & Hloss1).
  fold env1 in Hw1, Hb1, Ho1, Hp1, Hc1, Hwin1, Hloss1.
  split; [|split; [|split; [|split; [|split]]]].
  - change (stakes (tr :: trades)) with (PendingTrade.invest tr + stakes trades)%Qc.
    rewrite Hw1, Hp1 in Hacc. qc_order.
  - intros _. by apply Hbal.
  - rewrite Hopen, Ho1, list_filter_filter. apply list_filter_iff. intros p.
    rewrite not_elem_of_cons. tauto.
  - intros Hc. apply Hcount. rewrite Hc1, Hwin1, Hloss1. destruct (isWin _ _); lia.
  - intros Ht. apply Htally. intros Hcb.
    assert (Hcb0 : tradeResolvedCallback env = true).
    { rewrite <- Hcb. symmetry. apply resolveTradeAtPrice_frame. }
    destruct (Ht Hcb0) as (Htw & Htl & Htp).
    subst env1. rewrite resolveTradeAtPrice_resolved, Hcb0.
    unfold BacktestRunner.tally. rewrite foldl_app. simpl.
    fold (BacktestRunner.tally (resolved env)).
    rewrite Hwin1, Hloss1, Hp1. unfold BacktestRunner.tallyOne. simpl.
    pose proof (isWin_not_tie tr (price (allCandles env) tr)) as Hnt.
    destruct (isTie tr _) eqn:Htie, (isWin tr _) eqn:Hwin; simpl;
      try (by specialize (Hnt eq_refl)); rewrite <- Htp; repeat split; lia.
  - intros Hh. apply Hhooks. subst env1. rewrite resolveTradeAtPrice_hooks.
    destruct (agentRef env); [|done]. apply Forall_app. split; [done|].
    by repeat constructor.
Qed.

(** Among trades with distinct ids, the ids of those that satisfy [P]
    tell them from the others. *)
Lemma filter_open_by_ids (P : PendingTrade.t → Prop) `{!∀ tr, Decision (P tr)}
    (pending : list PendingTrade.t) :
  NoDup (PendingTrade.id <$> pending) →
  filter (fun p => Position.id p ∉ PendingTrade.id <$> filter P pending)
    (openPosition <$> pending) =
  openPosition <$> filter (fun tr => ¬ P tr) pending.
Proof.
  intros Hnd.
  cut (∀ l : list PendingTrade.t, (∀ tr, tr ∈ l → tr ∈ pending) →
         filter (fun p => Position.id p ∉ PendingTrade.id <$> filter P pending)
           (openPosition <$> l) =
         openPosition <$> filter (fun tr => ¬ P tr) l).
  { intros Hcut. by apply Hcut. }
  assert (Hiff : ∀ tr, tr ∈ pending →
            PendingTrade.id tr ∈ PendingTrade.id <$> filter P pending ↔ P tr).
  { intros tr Hin. split.
    - intros (tr' & Heq & [HP Hin']%list_elem_of_filter)%list_elem_of_fmap.
      apply list_elem_of_lookup in Hin as [i Hi]. apply list_elem_of_lookup in Hin' as [j Hj].
      assert (i = j) as <-.
      { apply (NoDup_lookup _ i j (PendingTrade.id tr) Hnd).
        - by rewrite list_lookup_fmap, Hi.
        - rewrite list_lookup_fmap, Hj. simpl. congruence. }
      congruence.
    - intros HP. apply list_elem_of_fmap. exists tr. split; [done|].
      by apply list_elem_of_filter. }
  induction l as [|tr l IH]; intros Hl; [done|].
  rewrite fmap_cons, !filter_cons.
  change (Position.id (openPosition tr)) with (PendingTrade.id tr).
  assert (tr ∈ pending) as Hin by (apply Hl; left).
  rewrite IH by (intros tr' ?; apply Hl; by right).
  destruct (decide (P tr)) as [HP|HP].
  - rewrite decide_False by (rewrite Hiff by done; tauto).
    by rewrite decide_False by tauto.
  - rewrite decide_True by (by rewrite Hiff).
    by rewrite decide_True by done.
Qed.

(** The books stay kept when the trades that satisfy [P] are taken off
    the pending list and settled. *)
Lemma sound_settled initial (P : PendingTrade.t → Prop) `{!∀ tr, Decision (P tr)}
    (price : list Candle.t → PendingTrade.t → Qc) env :
  sound initial env →
  sound initial
    (foldl (fun e tr => resolveTradeAtPrice tr (price (allCandles e) tr) e)
       (set_pendingTrades (filter (fun tr => ¬ P tr) (pendingTrades env)) env)
       (filter P (pendingTrades env))).
Proof.
  intros ((Hbal & Hopen & Hnd & Hids & Hacc & Hcount & Hdom & Hbuf) & Htally & Hhooks).
  set (env0 := set_pendingTrades (filter (fun tr => ¬ P tr) (pendingTrades env)) env).
  destruct (foldl_settle_books price (filter P (pendingTrades env)) env0)
    as (Hacc' & Hbal' & Hopen' & Hcount' & Htally' & Hhooks').
  destruct (foldl_settle price (filter P (pendingTrades env)) env0)
    as ((Hfb & Hfs & _ & Hfp & _ & _ & Hfn & _) & _).
  cbv zeta in *.
  set (env' := foldl _ env0 _) in *.
  split; [|split]; [|by apply Htally'|by apply Hhooks'].
  unfold booksKept. rewrite Hfb, Hfs, Hfp, Hfn. subst env0. env_cbn.
  split; [by apply Hbal'|]. split.
  { rewrite Hopen', Hopen. by apply filter_open_by_ids. }
  split.
  { apply (NoDup_fmap_2_strong _); [|by apply NoDup_filter, (NoDup_fmap_1 PendingTrade.id)].
    intros x y [_ Hx]%list_elem_of_filter [_ Hy]%list_elem_of_filter Heq.
    apply list_elem_of_lookup in Hx as [i Hi]. apply list_elem_of_lookup in Hy as [j Hj].
    assert (i = j) as <-.
    { apply (NoDup_lookup _ i j (PendingTrade.id x) Hnd).
      - by rewrite list_lookup_fmap, Hi.
      - rewrite list_lookup_fmap, Hj. simpl. congruence. }
    congruence. }
  split.
  { apply Forall_forall. intros tr [_ Hin]%list_elem_of_filter.
    rewrite Forall_forall in Hids. by apply Hids. }
  split.
  { rewrite (stakes_filter P (pendingTrades env)) in Hacc. qc_order. }
  split; [by apply Hcount'|]. done.
Qed.

Lemma sound_checkExpirations initial env :
  sound initial env → sound initial (checkExpirations env).
Proof.
  intros Hs. rewrite checkExpirations_fold.
  exact (sound_settled initial
           (fun tr => PendingTrade.expirationTime tr ≤ currentTime env) expiryPrice env Hs).
Qed.

Lemma filter_all {X} (l : list X) : filter (fun _ => True) l = l.
Proof. induction l as [|x l IH]; [done|]. by rewrite filter_cons_True, IH. Qed.

Lemma filter_none {X} (l : list X) : filter (fun _ => ¬ True) l = [].
Proof. induction l as [|x l IH]; [done|]. by rewrite filter_cons_False by tauto. Qed.

Lemma sound_forceCloseAll initial lastPrice env :
  sound initial env → sound initial (forceCloseAll lastPrice env).
Proof.
  intros Hs. rewrite forceCloseAll_fold.
  pose proof (sound_settled initial (fun _ => True) (forcedPrice lastPrice) env Hs) as Hs'.
  by rewrite filter_all, filter_none in Hs'.
Qed.

(** What can be done to a backtest environment from outside. *)
Inductive EnvOp :=
  | EnvExecuteActions (actions : list Action)
  | EnvPrefillSensor (sensorId : string) (data : list SensorItem)
  | EnvSetCurrentTime (ts : Z)
  | EnvSetEventBus (bus : EventBus.t)
  | EnvCheckExpirations
  | EnvFeedCandle (candle : Candle.t)
  | EnvForceCloseAll (lastPrice : Qc)
  | EnvRunAgent.

Definition applyEnvOp env (op : EnvOp) : BacktestEnvironment.t A :=
  match op with
  | EnvExecuteActions actions => (executeActions actions env).2
  | EnvPrefillSensor sensorId data => prefillSensor sensorId data env
  | EnvSetCurrentTime ts => setCurrentTime ts env
  | EnvSetEventBus bus => setEventBus bus env
  | EnvCheckExpirations => checkExpirations env
  | EnvFeedCandle candle => feedCandle candle env
  | EnvForceCloseAll lastPrice => forceCloseAll lastPrice env
  | EnvRunAgent => runAgent env
  end.

(** An environment as the constructor builds it, with or without the
    trade-resolved callback, and then used in any way. *)
Definition used (candles : list Candle.t) (w : Wallet.t) (bus : option EventBus.t)
    (config : option BlitzOptionConfig.t) (payout : Qc) (a : A) (recording : bool)
    (ops : list EnvOp) : BacktestEnvironment.t A :=
  foldl applyEnvOp
    (if recording then onTradeResolved (create candles w bus config payout a)
     else create candles w bus config payout a) ops.

Lemma sound_applyEnvOp initial env op : sound initial env → sound initial (applyEnvOp env op).
Proof.
  intros Hs. destruct op; simpl.
  - unfold executeActions. by apply sound_executeActionsFrom.
  - by apply sound_prefillSensor.
  - done.
  - done.
  - by apply sound_checkExpirations.
  - by apply sound_feedCandle.
  - by apply sound_forceCloseAll.
  - by apply sound_runAgent.
Qed.

Lemma sound_onTradeResolved candles w bus config payout (a : A) :
  sound (Wallet.balance w) (onTradeResolved (create candles w bus config payout a)).
Proof.
  destruct (sound_create candles w bus config payout a) as (Hb & _ & Hh).
  split; [exact Hb|]. split; [|exact Hh]. intros _. unfold create. env_cbn.
  by destruct config.
Qed.

Lemma sound_used candles w bus config payout (a : A) recording ops :
  sound (Wallet.balance w) (used candles w bus config payout a recording ops).
Proof.
  unfold used. induction ops as [|op ops IH] using rev_ind.
  - destruct recording; [apply sound_onTradeResolved|apply sound_create].
  - rewrite foldl_app. simpl. by apply sound_applyEnvOp.
Qed.
End Books.

(** X10.  However a backtest environment is used, the balance its
    ledger shows, which is the balance an observation carries to the
    agent, is the balance of its wallet; and the closed positions the
    ledger counts are its wins plus its losses. *)
Theorem backtest_ledger_shows_the_wallet_balance :
  ∀ (A : Type) (agent : Agent A) candles w bus config payout (a : A) recording ops,
    let env := used candles w bus config payout a recording ops in
    EnvironmentState.balance (BacktestEnvironment.state env) =
      Wallet.getBalance (BacktestEnvironment.wallet env) ∧
    EnvironmentState.balance
      (Observation.state (BacktestEnvironment.getObservation env)) =
      Wallet.getBalance (BacktestEnvironment.wallet env) ∧
    EnvironmentState.closedCount (BacktestEnvironment.state env) =
      EnvironmentState.winCount (BacktestEnvironment.state env)
      + EnvironmentState.lossCount (BacktestEnvironment.state env).
Proof.
  intros A agent candles w bus config payout a recording ops env.
  destruct (sound_used candles w bus config payout a recording ops)
    as ((Hbal & _ & _ & _ & _ & Hcount & _) & _).
  by repeat split.
Qed.

(** X11.  However a backtest environment is used, the open positions of
    its ledger are its pending trades, one position per trade in the
    order the trades were placed, and the ids of the pending trades are
    distinct and below the id the next trade will get; the open positions
    an observation showed the agent were the trades pending at that
    moment. *)
Theorem backtest_open_positions_mirror_pending_trades :
  ∀ (A : Type) (agent : Agent A) candles w bus config payout (a : A) recording ops,
    let env := used candles w bus config payout a recording ops in
    EnvironmentState.openPositions (BacktestEnvironment.state env) =
      openPosition <$> BacktestEnvironment.pendingTrades env ∧
    NoDup (PendingTrade.id <$> BacktestEnvironment.pendingTrades env) ∧
    Forall (fun tr => PendingTrade.id tr < BacktestEnvironment.nextPositionId env)
      (BacktestEnvironment.pendingTrades env) ∧
    Forall
      (fun h =>
         match h with
         | BacktestEnvironment.Observed obs pending =>
             EnvironmentState.openPositions (Observation.state obs) = openPosition <$> pending
         | BacktestEnvironment.TradeResult pos => Position.status pos = "closed"
         end) (BacktestEnvironment.hooks env).
Proof.
  intros A agent candles w bus config payout a recording ops env.
  destruct (sound_used candles w bus config payout a recording ops)
    as ((_ & Hopen & Hnd & Hids & _) & _ & Hhooks).
  split; [exact Hopen|]. split; [exact Hnd|]. split; [exact Hids|].
  eapply Forall_impl; [exact Hhooks|]. intros [obs pending|pos]; [|done]. by intros [? _].
Qed.

(** X12.  However a backtest environment is used, a sensor is subscribed
    exactly when it has a buffer, and no buffer holds more than a hundred
    items. *)
Theorem backtest_buffers_follow_subscriptions :
  ∀ (A : Type) (agent : Agent A) candles w bus config payout (a : A) recording ops,
    let env := used candles w bus config payout a recording ops in
    (∀ sensorId,
       is_Some (BacktestEnvironment.sensorBuffers env !! sensorId) ↔
       is_Some (BacktestEnvironment.subscribedSensors env !! sensorId)) ∧
    buffersWithin 100 (BacktestEnvironment.sensorBuffers env) ∧
    Forall
      (fun h =>
         match h with
         | BacktestEnvironment.Observed obs _ => buffersWithin 100 (Observation.sensors obs)
         | BacktestEnvironment.TradeResult _ => True
         end) (BacktestEnvironment.hooks env).
Proof.
  intros A agent candles w bus config payout a recording ops env.
  destruct (sound_used candles w bus config payout a recording ops)
    as ((_ & _ & _ & _ & _ & _ & Hdom & Hbuf) & _ & Hhooks).
  split; [exact Hdom|]. split; [exact Hbuf|].
  eapply Forall_impl; [exact Hhooks|]. intros [obs pending|pos]; [|done]. by intros [_ ?].
Qed.

(** ** The result of a backtest run ([backtest/runner.ts]) *)

Section RunBooks.
Import BacktestEnvironment BacktestRunner.
Context {A : Type} `{!Agent A}.
Implicit Types (env : BacktestEnvironment.t A).

Lemma sound_onBust initial env :
  sound initial env → sound initial (set_wallet (Wallet.onBust (wallet env)) env).
Proof. done. Qed.

Lemma runAgent_callback env : tradeResolvedCallback (runAgent env) = tradeResolvedCallback env.
Proof.
  unfold runAgent. cbv zeta.
  match goal with
  | |- context [perform ?p ?e] =>
      destruct (perform_frame p e) as (_ & _ & _ & _ & _ & _ & Hf & _);
      destruct (perform p e) as [a' e']
  end.
  env_cbn. simpl in Hf. by rewrite Hf.
Qed.

Lemma sound_setup config ext allCandles first assetConfig payout (a : A) :
  sound (initialBalance config) (setup config ext allCandles first assetConfig payout a) ∧
  tradeResolvedCallback (setup config ext allCandles first assetConfig payout a) = true.
Proof.
  unfold setup. cbv zeta.
  match goal with |- context [runAgent ?e0] => set (e := e0) end.
  assert (Hs : sound (initialBalance config) e).
  { apply sound_setCurrentTime, sound_emit.
    exact (sound_onTradeResolved allCandles
             (Wallet.create Wallet.Virtual (initialBalance config)) _ assetConfig payout a). }
  split.
  - by apply sound_onBust, sound_runAgent.
  - env_cbn. by rewrite runAgent_callback.
Qed.

Lemma checkExpirations_callback env :
  tradeResolvedCallback (checkExpirations env) = tradeResolvedCallback env.
Proof.
  rewrite checkExpirations_fold.
  match goal with
  | |- context [foldl _ ?e0 ?l] =>
      destruct (foldl_settle expiryPrice l e0) as ((_ & _ & _ & _ & _ & _ & _ & _ & _ & _ & Hcb & _) & _)
  end.
  by rewrite Hcb.
Qed.

Lemma forceCloseAll_callback lastPrice env :
  tradeResolvedCallback (forceCloseAll lastPrice env) = tradeResolvedCallback env.
Proof.
  rewrite forceCloseAll_fold.
  match goal with
  | |- context [foldl _ ?e0 ?l] =>
      destruct (foldl_settle (forcedPrice lastPrice) l e0)
        as ((_ & _ & _ & _ & _ & _ & _ & _ & _ & _ & Hcb & _) & _)
  end.
  by rewrite Hcb.
Qed.

Lemma agentCycle_callback env :
  tradeResolvedCallback (agentCycle env) = tradeResolvedCallback env.
Proof.
  unfold agentCycle. cbv zeta.
  destruct (onObservation (agent env) (getObservation env)) as [a answer].
  destruct answer as [[|action actions]|]; try done.
  unfold executeActions.
  match goal with
  | |- context [executeActionsFrom 0 ?l ?e] =>
      destruct (executeActionsFrom_frame 0 l e) as (_ & _ & _ & _ & _ & _ & Hf & _)
  end.
  by rewrite Hf.
Qed.

Lemma feedCandle_callback candle env :
  tradeResolvedCallback (feedCandle candle env) = tradeResolvedCallback env.
Proof.
  unfold feedCandle. cbv zeta. destruct (sensorBuffers env !! _); [|done].
  unfold runCallbacks. env_cbn.
  match goal with |- context [Nat.iter ?n agentCycle ?e] => generalize n; intros k end.
  induction k as [|k IH]; simpl; [done|]. by rewrite agentCycle_callback.
Qed.

Lemma sound_replayCandle initial candle env :
  sound initial env → sound initial (replayCandle candle env).
Proof.
  intros Hs. unfold replayCandle. cbv zeta.
  apply sound_feedCandle, sound_checkExpirations. done.
Qed.

Lemma replayCandle_callback candle env :
  tradeResolvedCallback (replayCandle candle env) = tradeResolvedCallback env.
Proof.
  unfold replayCandle. cbv zeta. by rewrite feedCandle_callback, checkExpirations_callback.
Qed.

Lemma sound_replay initial id interval i candles st :
  sound initial (env st) ∧ tradeResolvedCallback (env st) = true →
  sound initial (env (replay id interval i candles st)) ∧
  tradeResolvedCallback (env (replay id interval i candles st)) = true.
Proof.
  revert i st. induction candles as [|candle candles IH]; intros i st [Hs Hcb]; simpl; [done|].
  destruct (Wallet.busted _); [done|]. apply IH. simpl. split.
  - by apply sound_replayCandle.
  - by rewrite replayCandle_callback.
Qed.

(** The environment a run ends with keeps its books, with every
    settlement tallied and no trade pending. *)
Lemma sound_run db config ext (a : A) o :
  run db config ext a = inr o →
  sound (initialBalance config) (finalEnv o) ∧
  tradeResolvedCallback (finalEnv o) = true ∧
  pendingTrades (finalEnv o) = [] ∧
  outcomeResult o =
    (let t := tally (resolved (finalEnv o)) in
     let totalTrades := tallyWins t + tallyLosses t + tallyTies t in
     {| runId := makeRunId config ext;
        trades := totalTrades;
        wins := tallyWins t;
        losses := tallyLosses t;
        winRate :=
          if bool_decide (0 < totalTrades)
          then (int (mathRound (int (tallyWins t) / int totalTrades * int 10000))
                / int 100)%Qc
          else 0%Qc;
        pnl := round2 (tallyPnl t);
        resultMaxDrawdown := round2 (Wallet.getMaxDrawdown (wallet (finalEnv o)));
        finalBalance := round2 (Wallet.getBalance (wallet (finalEnv o)));
        durationCandles := durationCandles (outcomeResult o) |}).
Proof.
  intros Hrun.
  destruct (run_inr _ _ _ _ _ Hrun) as (first & rest & assetConfig & payout & _ & ->).
  cbv zeta. unfold finish. cbv zeta. cbn [finalEnv outcomeResult durationCandles].
  match goal with
  | |- context [forceCloseAll ?p (env ?st0)] => set (st := st0); set (price := p)
  end.
  assert (Hs : sound (initialBalance config) (env st)
               ∧ tradeResolvedCallback (env st) = true).
  { apply sound_replay. cbn [env]. apply sound_setup. }
  clearbody st.
  pose proof (sound_forceCloseAll (initialBalance config) price (env st) (proj1 Hs)) as Hs'.
  pose proof (forceCloseAll_callback price (env st)) as Hcb.
  pose proof (forceCloseAll_pendingTrades price (env st)) as Hpend.
  set (e := forceCloseAll price (env st)) in *. clearbody e. env_cbn.
  split; [exact Hs'|]. split; [by rewrite Hcb, (proj2 Hs)|]. split; [exact Hpend|]. done.
Qed.

(** No hook of the agent is called in a run with a due trade left
    pending. *)
Lemma run_settledBefore db config ext (a : A) o :
  run db config ext a = inr o → Forall settledBefore (hooks (finalEnv o)).
Proof.
  intros Hrun.
  destruct (run_inr _ _ _ _ _ Hrun) as (first & rest & assetConfig & payout & _ & ->).
  unfold finish. cbn [finalEnv]. env_cbn.
  match goal with
  | |- context [forceCloseAll ?p (env ?st)] =>
      destruct (forceCloseAll_hooks p (env st)) as (positions & ->);
      assert (Forall settledBefore (hooks (env st)))
  end.
  { destruct (setup_hooks config ext (first :: rest) first assetConfig payout a) as [Hh Hu].
    apply replay_settledBefore; cbn [env]; [by rewrite Hu|by rewrite Hh]. }
  apply Forall_app. split; [done|]. by apply Forall_fmap, Forall_true.
Qed.
End RunBooks.

(** X13.  The result of a run agrees with the books of its environment:
    the trades reported are the closed positions of the ledger and the
    wins its wins, while the ties, which the runner counts apart, are
    among the losses of the ledger; the pnl the runner adds up in its
    trade-resolved callback, before it is rounded for the result, is the
    total pnl of the ledger; no trade is left pending or open. *)
Theorem run_result_agrees_with_the_books :
  ∀ (A : Type) (agent : Agent A) db config ext (a : A) o,
    BacktestRunner.run db config ext a = inr o →
    let r := BacktestRunner.outcomeResult o in
    let env := BacktestRunner.finalEnv o in
    let s := BacktestEnvironment.state env in
    BacktestRunner.trades r = EnvironmentState.closedCount s ∧
    BacktestRunner.wins r = EnvironmentState.winCount s ∧
    BacktestRunner.trades r - BacktestRunner.wins r = EnvironmentState.lossCount s ∧
    BacktestRunner.losses r ≤ EnvironmentState.lossCount s ∧
    BacktestRunner.tallyPnl (BacktestRunner.tally (BacktestEnvironment.resolved env)) =
      EnvironmentState.totalPnl s ∧
    BacktestEnvironment.pendingTrades env = [] ∧
    EnvironmentState.openPositions s = [].
Proof.
  intros A agent db config ext a o Hrun r env s.
  destruct (sound_run db config ext a o Hrun)
    as (((_ & Hopen & _ & _ & _ & Hcount & _) & Htally & _) & Hcb & Hpend & Hres).
  destruct (Htally Hcb) as (Hw & Hl & Hp).
  assert (Hties : 0 ≤ BacktestRunner.tallyTies
                        (BacktestRunner.tally (BacktestEnvironment.resolved env))).
  { unfold BacktestRunner.tally.
    generalize (BacktestEnvironment.resolved env). intros l.
    induction l as [|x l IH] using rev_ind; [done|]. rewrite foldl_app.
    set (t := foldl BacktestRunner.tallyOne _ l) in *.
    change (foldl BacktestRunner.tallyOne t [x]) with (BacktestRunner.tallyOne t x).
    unfold BacktestRunner.tallyOne. repeat case_bool_decide; simpl; lia. }
  subst r. rewrite Hres. cbv zeta.
  cbn [BacktestRunner.trades BacktestRunner.wins BacktestRunner.losses].
  rewrite Hpend in Hopen. subst s env. cbv zeta.
  split; [lia|]. split; [lia|]. split; [lia|]. split; [lia|].
  split; [exact Hp|]. by split.
Qed.

(** X14.  In a run, the open positions an observation shows the agent
    are the trades pending at that moment, all of them expiring after the
    time of the observation, and no sensor buffer of the observation
    holds more than a hundred items; every position reported to
    [onTradeResult] is closed. *)
Theorem run_shows_the_agent_only_live_positions :
  ∀ (A : Type) (agent : Agent A) db config ext (a : A) o,
    BacktestRunner.run db config ext a = inr o →
    Forall
      (fun h =>
         match h with
         | BacktestEnvironment.Observed obs pending =>
             EnvironmentState.openPositions (Observation.state obs) =
               openPosition <$> pending ∧
             Forall (fun p => Observation.timestamp obs < Position.expiration_time p)
               (EnvironmentState.openPositions (Observation.state obs)) ∧
             buffersWithin 100 (Observation.sensors obs)
         | BacktestEnvironment.TradeResult pos => Position.status pos = "closed"
         end) (BacktestEnvironment.hooks (BacktestRunner.finalEnv o)).
Proof.
  intros A agent db config ext a o Hrun.
  destruct (sound_run db config ext a o Hrun) as ((_ & _ & Hhooks) & _).
  pose proof (run_settledBefore db config ext a o Hrun) as Hsettled.
  rewrite Forall_forall in Hhooks, Hsettled. apply Forall_forall. intros h Hin.
  specialize (Hhooks h Hin). specialize (Hsettled h Hin).
  destruct h as [obs pending|pos]; [|done]. simpl in *.
  destruct Hhooks as [Hopen Hbuf]. split; [done|]. split; [|done].
  rewrite Hopen. apply Forall_fmap. eapply Forall_impl; [exact Hsettled|]. done.
Qed.

(** ** Datasets of a run ([backtest/runner.ts]) *)

(** The candles stored for a dataset name; none when the name is
    unknown. *)
Definition rowsOf (db : gmap string BacktestRunner.Dataset) (name : string) : list Candle.t :=
  default [] (BacktestRunner.rows <$> db !! name).

(** [n] is the first of [names] that [db] does not know. *)
Definition firstMissing (db : gmap string BacktestRunner.Dataset) (names : list string)
    (n : string) : Prop :=
  ∃ before after,
    names = before ++ n :: after ∧ db !! n = None ∧
    Forall (fun m => is_Some (db !! m)) before.

Lemma loadDatasets_spec db config names acc :
  match BacktestRunner.loadDatasets db config names acc with
  | inl (BacktestRunner.DatasetNotFound n) => firstMissing db names n
  | inl BacktestRunner.NoCandles => False
  | inr (candles, _, _) =>
      Forall (fun m => is_Some (db !! m)) names ∧
      candles = acc.1.1 ++ concat (rowsOf db <$> names)
  end.
Proof.
  revert acc. induction names as [|name names IH]; intros [[candles cfg] payout]; simpl.
  { split; [constructor|]. by rewrite app_nil_r. }
  destruct (db !! name) as [ds|] eqn:Hds; [|exists [], names; by repeat split].
  assert (Hstep : ∀ acc',
            acc'.1.1 = candles ++ BacktestRunner.rows ds →
            match BacktestRunner.loadDatasets db config names acc' with
            | inl (BacktestRunner.DatasetNotFound n) => firstMissing db (name :: names) n
            | inl BacktestRunner.NoCandles => False
            | inr (candles', _, _) =>
                Forall (fun m => is_Some (db !! m)) (name :: names) ∧
                candles' = candles ++ concat (rowsOf db <$> name :: names)
            end).
  { intros acc' Hc. specialize (IH acc').
    destruct (BacktestRunner.loadDatasets db config names acc')
      as [[n|]|[[candles' cfg'] payout']]; [| done|].
    - destruct IH as (before & after & -> & Hn & Hall).
      exists (name :: before), after. split; [done|]. split; [done|].
      constructor; [by eexists|done].
    - destruct IH as [Hall ->]. split; [constructor; [by eexists|done]|].
      rewrite Hc, <- app_assoc. f_equal. simpl. unfold rowsOf at 2. by rewrite Hds. }
  destruct cfg as [c0|]; [by apply Hstep|].
  destruct (BacktestRunner.datasetConfig ds) as [c|]; [|by apply Hstep].
  destruct (BlitzOptionConfig.profit_commission c); by apply Hstep.
Qed.

(** X15.  A run fails with [DatasetNotFound] for the first dataset name
    the store does not know, and with [NoCandles] when every name is
    known and no dataset has a candle; otherwise every name is known and
    the run lasts as many candles as the datasets named hold together,
    counted with repetitions when a name is given twice. *)
Theorem run_needs_known_datasets_with_candles :
  ∀ (A : Type) (agent : Agent A) db config ext (a : A),
    let names := BacktestRunner.datasetNames config in
    match BacktestRunner.run db config ext a with
    | inl (BacktestRunner.DatasetNotFound n) => firstMissing db names n
    | inl BacktestRunner.NoCandles =>
        Forall (fun m => is_Some (db !! m)) names ∧ concat (rowsOf db <$> names) = []
    | inr o =>
        Forall (fun m => is_Some (db !! m)) names ∧
        BacktestRunner.durationCandles (BacktestRunner.outcomeResult o) =
          length (concat (rowsOf db <$> names)) ∧
        (0 < BacktestRunner.durationCandles (BacktestRunner.outcomeResult o))%nat
    end.
Proof.
  intros A agent db config ext a names. unfold BacktestRunner.run. cbv zeta.
  match goal with
  | |- context [BacktestRunner.loadDatasets db config ?ns ?acc] =>
      pose proof (loadDatasets_spec db config ns acc) as Hload;
      destruct (BacktestRunner.loadDatasets db config ns acc)
        as [[n|]|[[loaded assetConfig] payout]]
  end; try done.
  destruct Hload as [Hall Hloaded]. simpl in Hloaded. subst names.
  destruct (sortByFrom_sorted loaded) as [_ Hperm].
  destruct (BacktestRunner.sortByFrom loaded) as [|first rest] eqn:Hsorted.
  - split; [done|]. rewrite <- Hloaded. by apply Permutation_nil in Hperm.
  - unfold BacktestRunner.finish. cbv zeta.
    cbn [BacktestRunner.outcomeResult BacktestRunner.durationCandles].
    split; [done|]. split; [|simpl; lia].
    rewrite <- Hloaded. by apply Permutation_length.
Qed.

(** The candles that start at [t], in their order. *)
Definition startingAt (t : Z) (candles : list Candle.t) : list Candle.t :=
  filter (fun c => Candle.from c = t) candles.

Lemma filter_Forall_not {X} (P : X → Prop) `{!∀ x, Decision (P x)} (l : list X) :
  Forall (fun x => ¬ P x) l → filter P l = [].
Proof. induction 1; [done|]. by rewrite filter_cons_False. Qed.

Lemma startingAt_insertByFrom t c sorted :
  StronglySorted notAfter sorted →
  startingAt t (BacktestRunner.insertByFrom c sorted) =
    startingAt t sorted ++ startingAt t [c].
Proof.
  unfold startingAt. induction 1 as [|d rest Hs IH Hd]; simpl; [done|].
  case_bool_decide as Hlt.
  - rewrite (filter_cons _ c), (filter_cons _ c []), filter_nil.
    destruct (decide (Candle.from c = t)) as [Hc|Hc]; [|by rewrite app_nil_r].
    assert (filter (fun c0 => Candle.from c0 = t) (d :: rest) = []) as ->; [|done].
    apply filter_Forall_not. constructor; [lia|].
    eapply Forall_impl; [exact Hd|]. unfold notAfter. intros e ?. lia.
  - rewrite !(filter_cons _ d), IH. by destruct (decide (Candle.from d = t)).
Qed.

(** X16.  The candles of the datasets are put in the order of their
    period starts by a stable sort: the result holds the same candles,
    none starts after a later one, and candles that start at the same
    time keep the order they were loaded in. *)
Theorem candles_are_sorted_stably (candles : list Candle.t) :
  let sorted := BacktestRunner.sortByFrom candles in
  sorted ≡ₚ candles ∧
  StronglySorted notAfter sorted ∧
  ∀ t, startingAt t sorted = startingAt t candles.
Proof.
  cbv zeta. destruct (sortByFrom_sorted candles) as [Hsorted Hperm].
  split; [exact Hperm|]. split; [exact Hsorted|]. intros t.
  unfold BacktestRunner.sortByFrom.
  cut (∀ acc, StronglySorted notAfter acc →
         startingAt t (foldl (fun sorted c => BacktestRunner.insertByFrom c sorted) acc candles)
         = startingAt t acc ++ startingAt t candles).
  { intros Hcut. apply (Hcut []). constructor. }
  clear. induction candles as [|c candles IH]; intros acc Hacc; simpl.
  - by rewrite app_nil_r.
  - rewrite IH by by apply insertByFrom_sorted.
    rewrite startingAt_insertByFrom by done. rewrite <- app_assoc. f_equal.
    unfold startingAt. by rewrite (filter_cons _ c candles), (filter_cons _ c []), filter_nil;
      destruct (decide _).
Qed.

(** ** Placing and settling trades in the backtest ([backtest/environment.ts]) *)

Section Trades.
Import BacktestEnvironment.
Context {A : Type} `{!Agent A}.
Implicit Types (env : BacktestEnvironment.t A) (tr trade : PendingTrade.t).

(** The last candle of an instrument that started at or before the
    current time. *)
Lemma getLatestClose_last activeId env :
  getLatestClose activeId env =
    Candle.close <$>
      last (filter (fun c => Candle.active_id c = activeId ∧ Candle.from c ≤ currentTime env)
              (allCandles env)).
Proof.
  unfold getLatestClose.
  rewrite <- (list_find_reverse_last
                (fun c => Candle.active_id c = activeId ∧ Candle.from c ≤ currentTime env)).
  by destruct (list_find _ _) as [[? ?]|].
Qed.

Lemma set_pendingTrades_id env : set_pendingTrades (pendingTrades env) env = env.
Proof. by destruct env. Qed.
End Trades.

(** X17.  A trade is accepted exactly when its stake does not exceed the
    balance of the wallet, whatever the stake (a stake of zero or below
    is accepted, and a negative one raises the balance).  An accepted
    trade is debited at once, gets the next position id, expires
    [expirationSize] after the current time, and opens at the price given
    with it or else at the close of the last candle of its instrument
    that started at or before the current time, or at 0 when there is
    none; a refused trade reports the stake and the balance. *)
Theorem trade_is_accepted_when_affordable :
  ∀ (A : Type) (agent : Agent A) (env : BacktestEnvironment.t A) (payload : TradePayload.t),
    let stake := TradePayload.price payload in
    let balance := Wallet.getBalance (BacktestEnvironment.wallet env) in
    match BacktestEnvironment.executeTrade payload env with
    | inl err => (balance < stake)%Qc ∧ err = CannotAfford stake balance
    | inr env' =>
        (stake <= balance)%Qc ∧
        Wallet.getBalance (BacktestEnvironment.wallet env') = (balance - stake)%Qc ∧
        BacktestEnvironment.nextPositionId env' = BacktestEnvironment.nextPositionId env + 1 ∧
        ∃ trade,
          BacktestEnvironment.pendingTrades env' =
            BacktestEnvironment.pendingTrades env ++ [trade] ∧
          PendingTrade.id trade = BacktestEnvironment.nextPositionId env ∧
          PendingTrade.invest trade = stake ∧
          PendingTrade.openTime trade = BacktestEnvironment.currentTime env ∧
          PendingTrade.expirationTime trade =
            BacktestEnvironment.currentTime env + TradePayload.expirationSize payload ∧
          PendingTrade.profitPercent trade =
            default (BacktestEnvironment.payoutPercent env) (TradePayload.profitPercent payload) ∧
          PendingTrade.openQuote trade =
            match TradePayload.currentPrice payload with
            | Some price => price
            | None =>
                default 0%Qc
                  (Candle.close <$>
                     last (filter
                             (fun c => Candle.active_id c = TradePayload.activeId payload
                                       ∧ Candle.from c ≤ BacktestEnvironment.currentTime env)
                             (BacktestEnvironment.allCandles env)))
            end
    end.
Proof.
  intros A agent env payload stake balance.
  unfold BacktestEnvironment.executeTrade, Wallet.canAfford. cbv zeta.
  case_bool_decide as Hafford; simpl.
  - split; [done|]. unfold BacktestEnvironment.emitOpened, BacktestEnvironment.openTrade.
    env_cbn. split; [done|]. split; [done|].
    exists (BacktestEnvironment.newTrade payload env). split; [done|].
    repeat split. simpl. by rewrite getLatestClose_last.
  - split; [|done]. subst stake balance. unfold Wallet.getBalance. qc_order.
Qed.

Lemma list_find_head {X} (P : X → Prop) `{!∀ x, Decision (P x)} (l : list X) :
  snd <$> list_find P l = head (filter P l).
Proof.
  induction l as [|x l IH]; [done|]. simpl. rewrite filter_cons.
  destruct (decide (P x)); [done|]. rewrite <- IH. by destruct (list_find P l) as [[? ?]|].
Qed.

Lemma list_find_head_filter {X} (P Q : X → Prop) `{!∀ x, Decision (P x)}
    `{!∀ x, Decision (Q x)} (l : list X) :
  snd <$> list_find (fun x => Q x ∧ P x) l = head (filter P (filter Q l)).
Proof.
  induction l as [|x l IH]; [done|]. simpl. rewrite (filter_cons Q).
  destruct (decide (Q x)) as [HQ|HQ].
  - rewrite (filter_cons P). destruct (decide (P x)) as [HP|HP].
    + by rewrite decide_True.
    + rewrite decide_False by tauto. rewrite <- IH.
      by destruct (list_find _ l) as [[? ?]|].
  - rewrite decide_False by tauto. rewrite <- IH. by destruct (list_find _ l) as [[? ?]|].
Qed.

Lemma filter_Forall {X} (P : X → Prop) `{!∀ x, Decision (P x)} (l : list X) :
  Forall P l → filter P l = l.
Proof. induction 1 as [|x l ? ? IH]; [done|]. by rewrite filter_cons_True, IH. Qed.

(** The candles of the instrument of a trade, in dataset order. *)
Definition candlesOf (tr : PendingTrade.t) (candles : list Candle.t) : list Candle.t :=
  filter (fun c => Candle.active_id c = PendingTrade.activeId tr) candles.

(** X18.  A trade that has expired is settled at the close of the first
    candle of its instrument, in dataset order, that starts at or after
    its expiration; when there is none, at the close of the last candle
    of its instrument; and when the dataset has no candle of the
    instrument at all, at its own open quote, which makes it a tie: the
    stake goes back to the wallet and the pnl is 0. *)
Theorem expired_trade_is_settled_at_dataset_price :
  ∀ (A : Type) (agent : Agent A) (env : BacktestEnvironment.t A) (tr : PendingTrade.t),
    let mine := candlesOf tr (BacktestEnvironment.allCandles env) in
    let price :=
      match head (filter (fun c => PendingTrade.expirationTime tr ≤ Candle.from c) mine) with
      | Some c => Candle.close c
      | None =>
          match last mine with
          | Some c => Candle.close c
          | None => PendingTrade.openQuote tr
          end
      end in
    BacktestEnvironment.resolveTrade tr env =
      BacktestEnvironment.resolveTradeAtPrice tr price env ∧
    (mine = [] →
     BacktestEnvironment.closeReasonAt tr price = "tie" ∧
     Wallet.getBalance (BacktestEnvironment.wallet (BacktestEnvironment.resolveTrade tr env)) =
       (Wallet.getBalance (BacktestEnvironment.wallet env) + PendingTrade.invest tr)%Qc ∧
     EnvironmentState.totalPnl
       (BacktestEnvironment.state (BacktestEnvironment.resolveTrade tr env)) =
       EnvironmentState.totalPnl (BacktestEnvironment.state env)).
Proof.
  intros A agent env tr mine price.
  assert (Hprice : expiryPrice (BacktestEnvironment.allCandles env) tr = price).
  { unfold expiryPrice. subst price mine. unfold candlesOf.
    rewrite <- (list_find_head_filter
                  (fun c => PendingTrade.expirationTime tr ≤ Candle.from c)
                  (fun c => Candle.active_id c = PendingTrade.activeId tr)).
    by destruct (list_find _ _) as [[? ?]|]. }
  rewrite resolveTrade_at_price, Hprice. split; [done|].
  intros Hnone.
  assert (Hopen : price = PendingTrade.openQuote tr).
  { subst price. by rewrite Hnone. }
  destruct (resolveTradeAtPrice_books tr price env) as (Hw & _ & _ & Hp & _).
  assert (Htie : BacktestEnvironment.isTie tr price = true).
  { rewrite Hopen. unfold BacktestEnvironment.isTie. by rewrite bool_decide_eq_true_2. }
  unfold BacktestEnvironment.pnlAt in Hw, Hp. rewrite Htie in Hw, Hp.
  unfold BacktestEnvironment.closeReasonAt. rewrite Htie. split; [done|].
  unfold Wallet.getBalance. rewrite Hw, Hp. split; ring.
Qed.

(** X19.  Settling is done once: a second [checkExpirations] at the
    same time changes nothing, and neither does a second
    [forceCloseAll]. *)
Theorem settling_again_changes_nothing :
  ∀ (A : Type) (agent : Agent A) (env : BacktestEnvironment.t A) (p1 p2 : Qc),
    BacktestEnvironment.checkExpirations (BacktestEnvironment.checkExpirations env) =
      BacktestEnvironment.checkExpirations env ∧
    BacktestEnvironment.forceCloseAll p2 (BacktestEnvironment.forceCloseAll p1 env) =
      BacktestEnvironment.forceCloseAll p1 env.
Proof.
  intros A agent env p1 p2. split.
  - destruct (checkExpirations_settles env) as (_ & Hall & Htime & _).
    set (env1 := BacktestEnvironment.checkExpirations env) in *.
    unfold BacktestEnvironment.checkExpirations at 1. cbv zeta.
    rewrite (filter_Forall_not
               (fun tr => PendingTrade.expirationTime tr ≤ BacktestEnvironment.currentTime env1)
               (BacktestEnvironment.pendingTrades env1))
      by (eapply Forall_impl; [exact Hall|]; intros tr ?; simpl in *; lia).
    rewrite (filter_Forall
               (fun tr => ¬ PendingTrade.expirationTime tr ≤ BacktestEnvironment.currentTime env1)
               (BacktestEnvironment.pendingTrades env1))
      by (eapply Forall_impl; [exact Hall|]; intros tr ?; simpl in *; lia).
    simpl. apply set_pendingTrades_id.
  - pose proof (forceCloseAll_pendingTrades p1 env) as Hnone.
    set (env1 := BacktestEnvironment.forceCloseAll p1 env) in *.
    unfold BacktestEnvironment.forceCloseAll at 1. cbv zeta. rewrite Hnone. simpl.
    rewrite <- Hnone. apply set_pendingTrades_id.
Qed.

(** X20.  Subscribing a sensor in the backtest.  A sensor that is
    already subscribed is left as it is.  A new candle sensor gets a
    buffer filled from the dataset with candles of its instrument and
    size that started before the current time, never a later one: the
    last hundred of them in dataset order, or all when they are fewer.
    A new sensor of another type gets an empty buffer, and a warning is
    logged. *)
Theorem subscription_is_prefilled_from_the_past :
  ∀ (A : Type) (agent : Agent A) candles w bus config payout (a : A) recording ops
    (sensor : Sensor.t),
    let env := used candles w bus config payout a recording ops in
    let env' := BacktestEnvironment.executeSubscribe sensor env in
    let sensorId := Sensor.id sensor in
    let history :=
      filter (fun c => Some (Candle.active_id c) = Sensor.params sensor !! "active_id"
                       ∧ Some (Candle.size c) = Sensor.params sensor !! "size"
                       ∧ Candle.from c < BacktestEnvironment.currentTime env)
        (BacktestEnvironment.allCandles env) in
    match BacktestEnvironment.subscribedSensors env !! sensorId with
    | Some _ => env' = env
    | None =>
        BacktestEnvironment.subscribedSensors env' !! sensorId = Some sensor ∧
        if decide (Sensor.type sensor = SCandle) then
          BacktestEnvironment.sensorBuffers env' !! sensorId =
            Some (ItemCandle <$> drop (length history - 100) history)
        else
          BacktestEnvironment.sensorBuffers env' !! sensorId = Some [] ∧
          length (BacktestEnvironment.warnings env') =
            S (length (BacktestEnvironment.warnings env))
    end.
Proof.
  intros A agent candles w bus config payout a recording ops sensor env env' sensorId history.
  destruct (sound_used candles w bus config payout a recording ops)
    as ((_ & _ & _ & _ & _ & _ & Hdom & _) & _).
  fold env in Hdom. subst env'. unfold BacktestEnvironment.executeSubscribe.
  fold sensorId.
  destruct (BacktestEnvironment.subscribedSensors env !! sensorId) eqn:Hsub; [done|].
  assert (Hnone : BacktestEnvironment.sensorBuffers env !! sensorId = None).
  { destruct (BacktestEnvironment.sensorBuffers env !! sensorId) eqn:E; [|done].
    assert (is_Some (BacktestEnvironment.subscribedSensors env !! sensorId)) as [? ?]
      by (apply Hdom; by eexists).
    congruence. }
  rewrite Hnone. cbv zeta. env_cbn. rewrite lookup_insert_eq. simpl.
  destruct (decide (Sensor.type sensor = SCandle)) as [Hty|Hty].
  - rewrite (bool_decide_eq_true_2 _ Hty). env_cbn.
    split; [by rewrite lookup_insert_eq|]. rewrite lookup_insert_eq.
    unfold sliceFromEnd, BacktestEnvironment.maxBufferSize. simpl. done.
  - rewrite (bool_decide_eq_false_2 _ Hty). env_cbn.
    split; [by rewrite lookup_insert_eq|]. rewrite lookup_insert_eq. split; [done|].
    rewrite length_app. simpl. lia.
Qed.

(** ** Indicators of the ATRX agent ([agents/atrx]) *)

(** Statements about canonical rationals as statements about [Q]. *)
Ltac qc_to_q :=
  repeat (progress (unfold Qcle, Qclt, Qcdiv, Qcinv, Qcplus, Qcminus, Qcopp, Qcmult, int, Q2Qc in *;
                    cbn [this] in *));
  rewrite ?Qred_correct in *.

Lemma int_le (a b : Z) : a ≤ b → (int a <= int b)%Qc.
Proof.
  intros Hab. unfold int, Qcle, Q2Qc. cbn [this]. rewrite !Qred_correct.
  by rewrite <- Zle_Qle.
Qed.

Lemma length_emaFrom k prev values : length (ATRX.emaFrom k prev values) = length values.
Proof. revert prev. induction values as [|v values IH]; intros prev; simpl; [done|]. by rewrite IH. Qed.

(** With a smoothing factor of 1 nothing is smoothed. *)
Lemma emaFrom_one prev values : ATRX.emaFrom 1%Qc prev values = values.
Proof.
  revert prev. induction values as [|v values IH]; intros prev; simpl; [done|].
  assert (Hv : (v * 1 + prev * (1 - 1))%Qc = v) by ring.
  by rewrite Hv, IH.
Qed.

Lemma wholePeriod_below_two period : (period < int 2)%Qc → ATRX.wholePeriod period = 1.
Proof.
  intros Hlt. unfold ATRX.wholePeriod.
  assert (Hfloor : Qfloor period < 2).
  { rewrite Zlt_Qlt. eapply Qle_lt_trans; [apply Qfloor_le|].
    unfold Qclt, int, Q2Qc in Hlt. cbn [this] in Hlt. by rewrite Qred_correct in Hlt. }
  lia.
Qed.

(** X21.  The exponential moving average has one value per input value
    and starts at the first input; with a period below 2, which makes
    the smoothing factor 1, it is the input itself. *)
Theorem ema_has_one_value_per_input (values : list Qc) (period : Qc) :
  length (ATRX.ema values period) = length values ∧
  head (ATRX.ema values period) = head values ∧
  ((period < int 2)%Qc → ATRX.ema values period = values).
Proof.
  destruct values as [|first rest]; simpl; [by repeat split|].
  rewrite length_emaFrom. split; [done|]. split; [done|].
  intros Hlt. rewrite (wholePeriod_below_two period Hlt).
  assert (Hk : (int 2 / (int 1 + 1))%Qc = 1%Qc) by (apply Qc_is_canon; reflexivity).
  by rewrite Hk, emaFrom_one.
Qed.

Lemma mathAbs_nonneg (x : Qc) : (0 <= mathAbs x)%Qc.
Proof. unfold mathAbs. case_bool_decide; qc_order. Qed.

Lemma mathMax_ge_r (x y : Qc) : (y <= mathMax x y)%Qc.
Proof. unfold mathMax. case_bool_decide; qc_order. Qed.

Lemma mathMax_ge_l (x y : Qc) : (x <= mathMax x y)%Qc.
Proof. unfold mathMax. case_bool_decide; qc_order. Qed.

Lemma trueRange_spread (c : Candle.t) (prevClose : option Qc) :
  (Candle.max c - Candle.min c <= ATRX.trueRange c prevClose)%Qc.
Proof.
  unfold ATRX.trueRange. destruct prevClose as [prev|]; cbv zeta; [|qc_order].
  pose proof (mathMax_ge_l (Candle.max c - Candle.min c)
                (mathAbs (Candle.max c - prev))) as H1.
  pose proof (mathMax_ge_l
                (mathMax (Candle.max c - Candle.min c) (mathAbs (Candle.max c - prev)))
                (mathAbs (Candle.min c - prev))) as H2.
  qc_order.
Qed.

Lemma trueRange_nonneg (c : Candle.t) (prev : Qc) : (0 <= ATRX.trueRange c (Some prev))%Qc.
Proof.
  unfold ATRX.trueRange. cbv zeta.
  pose proof (mathAbs_nonneg (Candle.min c - prev)) as H1.
  pose proof (mathMax_ge_r
                (mathMax (Candle.max c - Candle.min c) (mathAbs (Candle.max c - prev)))
                (mathAbs (Candle.min c - prev))) as H2.
  qc_order.
Qed.

Lemma trueRanges_nonneg prev candles :
  Forall (fun x => (0 <= x)%Qc) (ATRX.trueRanges (Some prev) candles).
Proof.
  revert prev. induction candles as [|c candles IH]; intros prev; simpl; [constructor|].
  constructor; [apply trueRange_nonneg|apply IH].
Qed.

Lemma length_trueRanges prev candles : length (ATRX.trueRanges prev candles) = length candles.
Proof.
  revert prev. induction candles as [|c candles IH]; intros prev; simpl; [done|]. by rewrite IH.
Qed.

Lemma length_rmaFrom p prev tr : length (ATRX.rmaFrom p prev tr) = length tr.
Proof. revert prev. induction tr as [|x tr IH]; intros prev; simpl; [done|]. by rewrite IH. Qed.

Lemma rma_step_nonneg (p prev x : Qc) :
  (int 1 <= p)%Qc → (0 <= prev)%Qc → (0 <= x)%Qc → (0 <= (prev * (p - 1) + x) / p)%Qc.
Proof.
  intros Hp Hprev Hx. qc_to_q. change (inject_Z 1) with 1%Q in Hp.
  match goal with
  | |- (0 <= ?n * / ?d)%Q => change (0 <= n / d)%Q
  end.
  apply Qle_shift_div_l; [lra|]. nra.
Qed.

Lemma rmaFrom_nonneg p prev tr :
  1 ≤ p → (0 <= prev)%Qc → Forall (fun x => (0 <= x)%Qc) tr →
  Forall (fun x => (0 <= x)%Qc) (ATRX.rmaFrom p prev tr).
Proof.
  intros Hp. revert prev. induction tr as [|x tr IH]; intros prev Hprev Hall; simpl;
    [constructor|].
  inversion Hall; subst.
  assert (0 <= (prev * (int p - 1) + x) / int p)%Qc
    by (apply rma_step_nonneg; [by apply int_le|done|done]).
  constructor; [done|]. by apply IH.
Qed.

(** X22.  The average true range has one value per candle.  The true
    range of a candle is at least its spread (high minus low), and when
    the first candle does not have its high below its low, no value of
    the average true range is negative, whatever the period. *)
Theorem atr_is_never_negative (candles : list Candle.t) (period : Qc) :
  match candles with
  | first :: _ => (Candle.min first <= Candle.max first)%Qc
  | [] => True
  end →
  length (ATRX.atr candles period) = length candles ∧
  (∀ c prevClose, (Candle.max c - Candle.min c <= ATRX.trueRange c prevClose)%Qc) ∧
  Forall (fun x => (0 <= x)%Qc) (ATRX.atr candles period).
Proof.
  intros Hfirst. unfold ATRX.atr. cbv zeta.
  split; [|split; [apply trueRange_spread|]].
  - pose proof (length_trueRanges None candles) as Hlen.
    destruct (ATRX.trueRanges None candles) as [|first rest]; [done|].
    simpl in *. by rewrite length_rmaFrom.
  - destruct candles as [|c candles]; simpl; [constructor|].
    assert (0 <= Candle.max c - Candle.min c)%Qc by qc_order.
    constructor; [done|].
    apply rmaFrom_nonneg; [unfold ATRX.wholePeriod; lia|done|apply trueRanges_nonneg].
Qed.

(** X23.  The gates of the agent stay in range: [clamp] answers within
    its bounds when the lower does not exceed the upper, and with its
    argument when that lies within them; a percentile rank lies between
    0 and 100; and from a time that is not negative, the time left in a
    window is at least one second and at most the window, and ends on a
    multiple of the window. *)
Theorem atrx_gates_stay_in_range :
  (∀ n lo hi : Qc,
     (lo <= hi)%Qc →
     (lo <= ATRX.clamp n lo hi)%Qc ∧ (ATRX.clamp n lo hi <= hi)%Qc ∧
     ((lo <= n)%Qc → (n <= hi)%Qc → ATRX.clamp n lo hi = n)) ∧
  (∀ values value,
     (0 <= ATRX.percentileRank values value)%Qc ∧
     (ATRX.percentileRank values value <= int 100)%Qc) ∧
  (∀ now windowSec,
     0 ≤ now →
     1 ≤ ATRX.remainingInWindow now windowSec ≤ ATRX.wholePeriod windowSec ∧
     (now + ATRX.remainingInWindow now windowSec) mod ATRX.wholePeriod windowSec = 0).
Proof.
  split; [|split].
  - intros n lo hi Hle. unfold ATRX.clamp, mathMin, mathMax.
    repeat case_bool_decide; repeat split; intros; qc_order.
  - intros values value. unfold ATRX.percentileRank.
    destruct values as [|v values].
    { split; qc_to_q; change (inject_Z 100) with 100%Q; lra. }
    cbv zeta.
    set (below := length (filter _ (v :: values))).
    set (len := length (v :: values)).
    assert (Hbelow : (below ≤ len)%nat) by apply length_filter.
    assert (Hlen : (0 < len)%nat) by (subst len; simpl; lia).
    clearbody below len.
    assert (H0 : (0 <= inject_Z (Z.of_nat below))%Q) by (rewrite <- (Zle_Qle 0); lia).
    assert (H1 : (inject_Z (Z.of_nat below) <= inject_Z (Z.of_nat len))%Q)
      by (rewrite <- Zle_Qle; lia).
    assert (H2 : (0 < inject_Z (Z.of_nat len))%Q) by (rewrite <- (Zlt_Qlt 0); lia).
    qc_to_q. change (inject_Z 100) with 100%Q.
    change (inject_Z (Z.of_nat below) * / inject_Z (Z.of_nat len))%Q
      with (inject_Z (Z.of_nat below) / inject_Z (Z.of_nat len))%Q.
    assert (0 <= inject_Z (Z.of_nat below) / inject_Z (Z.of_nat len))%Q
      by (apply Qle_shift_div_l; lra).
    assert (inject_Z (Z.of_nat below) / inject_Z (Z.of_nat len) <= 1)%Q
      by (apply Qle_shift_div_r; lra).
    split; lra.
  - intros now windowSec Hnow. unfold ATRX.remainingInWindow. cbv zeta.
    set (w := ATRX.wholePeriod windowSec).
    assert (Hw : 1 ≤ w) by (subst w; unfold ATRX.wholePeriod; lia).
    clearbody w. rewrite Z.rem_mod_nonneg by lia.
    pose proof (Z.mod_pos_bound now w ltac:(lia)) as Hmod.
    split; [lia|].
    replace (now + (w - now mod w)) with (now - now mod w + 1 * w) by lia.
    rewrite Z.mod_add by lia. rewrite <- Zminus_mod_idemp_l, Z.sub_diag. apply Z.mod_0_l. lia.
Qed.

(** ** The event log of a run ([backtest/runner.ts], [events/bus.ts]) *)

Definition notLater (e e' : EventBus.TradingEvent) : Prop :=
  EventBus.timestamp e ≤ EventBus.timestamp e'.

(** The log of a bus of run [id] whose clock shows [t]: it starts with
    the [run:started] event, every event carries the run id, and the
    time stamps never decrease and do not exceed [t]. *)
Definition logOrdered (id : string) (t : Z) (b : EventBus.t) : Prop :=
  flushed b ∧ EventBus.runId b = id ∧ EventBus.timeFn b = t ∧
  Forall (fun e => EventBus.eventRunId e = id ∧ EventBus.timestamp e ≤ t) (handedOver b) ∧
  StronglySorted notLater (handedOver b) ∧
  ∃ e rest, handedOver b = e :: rest ∧ EventBus.type e = "run:started".

Lemma StronglySorted_snoc {X} (R : X → X → Prop) (l : list X) (y : X) :
  StronglySorted R l → Forall (fun x => R x y) l → StronglySorted R (l ++ [y]).
Proof.
  induction 1 as [|x l Hs IH Hx]; intros Hall; simpl; [repeat constructor|].
  inversion Hall; subst. constructor; [by apply IH|].
  apply Forall_app. split; [done|]. by repeat constructor.
Qed.

Lemma logOrdered_emit id t ty p b : logOrdered id t b → logOrdered id t (EventBus.emit ty p b).
Proof.
  intros (Hf & Hid & Ht & Hall & Hsorted & (e & rest & Hlog & Hty)).
  destruct (applyBusOp_handedOver b (BusEmit ty p) Hf) as (Hf' & Hid' & Ht' & Hlog').
  simpl in *. split; [done|]. split; [congruence|]. split; [congruence|].
  rewrite Hlog'. split; [|split].
  - apply Forall_app. split; [done|]. repeat constructor; simpl; [done|lia].
  - apply StronglySorted_snoc; [done|]. eapply Forall_impl; [exact Hall|].
    intros e' [_ ?]. unfold notLater. simpl. lia.
  - exists e, (rest ++ [EventBus.mkEvent (EventBus.runId b) ty (EventBus.timeFn b) p]).
    by rewrite Hlog.
Qed.

Lemma logOrdered_clock id t t' b :
  t ≤ t' → logOrdered id t b → logOrdered id t' (EventBus.set_timeFn t' b).
Proof.
  intros Hle (Hf & Hid & Ht & Hall & Hsorted & Hhead).
  split; [done|]. split; [done|]. split; [done|]. split; [|by split].
  eapply Forall_impl; [exact Hall|]. intros e [? ?]. split; [done|]. lia.
Qed.

Section EventLog.
Import BacktestEnvironment BacktestRunner.
Context {A : Type} `{!Agent A}.
Implicit Types (env : BacktestEnvironment.t A).

Definition logged (id : string) (t : Z) env : Prop :=
  ∃ b, eventBus env = Some b ∧ logOrdered id t b.

Lemma logged_emit id t ty p env : logged id t env → logged id t (emit ty p env).
Proof.
  intros (b & Hb & Hlog). exists (EventBus.emit ty p b). env_cbn. rewrite Hb.
  split; [done|]. by apply logOrdered_emit.
Qed.

Lemma logged_same id t env env' : eventBus env' = eventBus env → logged id t env → logged id t env'.
Proof. intros Heq (b & Hb & Hlog). exists b. by rewrite Heq. Qed.

Lemma logged_executeAction id t action env :
  logged id t env → logged id t (executeAction action env).2.
Proof.
  intros Hl. destruct action as [payload|sensor|sensorId|q|ty]; simpl; try done.
  - unfold executeTrade. destruct (negb _); cbv zeta iota beta; [done|].
    unfold emitOpened. cbv zeta. do 3 apply logged_emit.
    eapply logged_same; [|exact Hl]. unfold openTrade. by env_cbn.
  - eapply logged_same; [|exact Hl]. unfold executeSubscribe.
    repeat case_match; by env_cbn.
Qed.

Lemma logged_executeActionsFrom id t i actions env :
  logged id t env → logged id t (executeActionsFrom i actions env).2.
Proof.
  revert i env. induction actions as [|a actions IH]; intros i env Hl; simpl; [done|].
  pose proof (logged_executeAction id t a env Hl) as Hl1.
  destruct (executeAction a env) as [r env1]. simpl in Hl1.
  match goal with
  | |- context [executeActionsFrom (S i) actions ?e] =>
      specialize (IH (S i) e); destruct (executeActionsFrom (S i) actions e) as [results env']
  end.
  simpl in *. apply IH. destruct r; by apply logged_emit.
Qed.

Lemma logged_perform id t {R} (p : EnvProgram R) env :
  logged id t env → logged id t (perform p env).2.
Proof.
  revert env. induction p as [r|k IH|actions k IH|sensorId data k IH|a s f u k IH|a s c k IH];
    intros env Hl; simpl; eauto.
  - pose proof (logged_executeActionsFrom id t 0 actions env Hl) as Hl1.
    unfold executeActions. destruct (executeActionsFrom 0 actions env) as [results env1].
    by apply IH.
  - apply IH. eapply logged_same; [|exact Hl]. unfold prefillSensor. by destruct (_ !! _).
Qed.

Lemma logged_runAgent id t env : logged id t env → logged id t (runAgent env).
Proof.
  intros Hl. unfold runAgent. cbv zeta.
  assert (Hl1 : logged id t (set_agentRef true env)) by done.
  pose proof (logged_perform id t (initialize (agent (set_agentRef true env))) _ Hl1) as Hl2.
  destruct (perform _ _) as [a env2]. simpl in Hl2. done.
Qed.

Lemma logged_agentCycle id t env : logged id t env → logged id t (agentCycle env).
Proof.
  intros Hl. unfold agentCycle. cbv zeta.
  destruct (onObservation (agent env) (getObservation env)) as [a answer].
  destruct answer as [[|action actions]|]; try done.
  unfold executeActions. by apply logged_executeActionsFrom.
Qed.

Lemma logged_iter_agentCycle id t n env :
  logged id t env → logged id t (Nat.iter n agentCycle env).
Proof. intros Hl. induction n as [|n IH]; simpl; [done|]. by apply logged_agentCycle. Qed.

Lemma logged_feedCandle id t candle env : logged id t env → logged id t (feedCandle candle env).
Proof.
  intros Hl. unfold feedCandle. cbv zeta. destruct (sensorBuffers env !! _); [|done].
  unfold runCallbacks. by apply logged_iter_agentCycle.
Qed.

Lemma logged_resolveTradeAtPrice id t trade price env :
  logged id t env → logged id t (resolveTradeAtPrice trade price env).
Proof.
  intros Hl. unfold resolveTradeAtPrice.
  apply (logged_same _ _ (notifyRunner trade price
    (emitClosed trade price (closeInLedger trade price (settleWallet trade price env))))).
  { unfold notifyAgent. by destruct (agentRef _). }
  apply (logged_same _ _
    (emitClosed trade price (closeInLedger trade price (settleWallet trade price env)))).
  { unfold notifyRunner. by destruct (tradeResolvedCallback _). }
  assert (Hl' : logged id t (closeInLedger trade price (settleWallet trade price env))).
  { eapply logged_same; [|exact Hl]. unfold closeInLedger, settleWallet.
    destruct (isTie trade price), (isWin trade price); reflexivity. }
  unfold emitClosed. cbv zeta.
  destruct (isTie trade price); [by do 2 apply logged_emit|by do 3 apply logged_emit].
Qed.

Lemma logged_foldl_settle id t (price : list Candle.t → PendingTrade.t → Qc) trades env :
  logged id t env →
  logged id t (foldl (fun e tr => resolveTradeAtPrice tr (price (allCandles e) tr) e) env trades).
Proof.
  revert env. induction trades as [|tr trades IH]; intros env Hl; simpl; [done|].
  by apply IH, logged_resolveTradeAtPrice.
Qed.

Lemma logged_checkExpirations id t env : logged id t env → logged id t (checkExpirations env).
Proof. intros Hl. rewrite checkExpirations_fold. by apply logged_foldl_settle. Qed.

Lemma logged_forceCloseAll id t lastPrice env :
  logged id t env → logged id t (forceCloseAll lastPrice env).
Proof. intros Hl. rewrite forceCloseAll_fold. by apply logged_foldl_settle. Qed.

Lemma logged_replayCandle id t candle env :
  t ≤ Candle.from candle →
  logged id t env → logged id (Candle.from candle) (replayCandle candle env).
Proof.
  intros Hle (b & Hb & Hlog). unfold replayCandle. cbv zeta.
  apply logged_feedCandle. apply (logged_checkExpirations id (Candle.from candle)).
  exists (EventBus.set_timeFn (Candle.from candle) b). unfold setSimulatedTime. env_cbn.
  rewrite Hb. split; [done|]. by apply (logOrdered_clock id t).
Qed.

Lemma logged_replay id t runId interval i candles st :
  StronglySorted notAfter candles →
  Forall (fun c => t ≤ Candle.from c) candles →
  logged id t (env st) →
  ∃ t', logged id t' (env (replay runId interval i candles st)).
Proof.
  intros Hsorted. revert t i st.
  induction Hsorted as [|candle candles Hs IH Hc]; intros t i st Hall Hl; simpl;
    [by exists t|].
  destruct (Wallet.busted _); [by exists t|].
  inversion Hall; subst.
  eapply (IH (Candle.from candle)); [done|]. simpl. by apply (logged_replayCandle id t).
Qed.

Lemma logged_setup config ext allCandles first assetConfig payout (a : A) :
  logged (makeRunId config ext) (Candle.from first)
    (setup config ext allCandles first assetConfig payout a).
Proof.
  unfold setup. cbv zeta.
  match goal with
  | |- logged _ _ (set_wallet _ (runAgent (setCurrentTime _ ?e2))) =>
      apply (logged_same _ _ (runAgent (setCurrentTime (Candle.from first) e2))); [done|];
      apply logged_runAgent;
      apply (logged_same _ _ e2); [done|]
  end.
  eexists. unfold emit, onTradeResolved, create. env_cbn. split; [reflexivity|].
  destruct (persister ext) as [fn|];
    (split; [done|]); (split; [done|]); (split; [done|]); simpl;
    (split; [by repeat constructor|]);
    (split; [by repeat constructor|]); by eexists _, [].
Qed.
End EventLog.

(** X24.  The events of a run that ends, those persisted followed by
    those held back: the first is [run:started] and the last
    [run:stopped], every event carries the id of the run, and their time
    stamps, which are simulated times, never decrease. *)
Theorem run_event_log_is_ordered :
  ∀ (A : Type) (agent : Agent A) db config ext (a : A) o,
    BacktestRunner.run db config ext a = inr o →
    ∃ bus started middle stopped,
      BacktestEnvironment.eventBus (BacktestRunner.finalEnv o) = Some bus ∧
      handedOver bus = started :: middle ++ [stopped] ∧
      EventBus.type started = "run:started" ∧
      EventBus.type stopped = "run:stopped" ∧
      Forall (fun e => EventBus.eventRunId e =
                         BacktestRunner.runId (BacktestRunner.outcomeResult o))
        (handedOver bus) ∧
      StronglySorted notLater (handedOver bus).
Proof.
  intros A agent db config ext a o Hrun.
  destruct (run_inr _ _ _ _ _ Hrun) as (first & rest & assetConfig & payout & Hsorted & ->).
  cbv zeta. unfold BacktestRunner.finish. cbv zeta.
  cbn [BacktestRunner.finalEnv BacktestRunner.outcomeResult BacktestRunner.runId].
  set (id := BacktestRunner.makeRunId config ext).
  match goal with
  | |- context [BacktestEnvironment.forceCloseAll ?p (BacktestRunner.env ?st0)] =>
      set (st := st0); set (price := p)
  end.
  assert (Hl : ∃ t, logged id t (BacktestRunner.env st)).
  { subst st. eapply (logged_replay id (Candle.from first)); [done| |].
    - inversion Hsorted as [|? ? _ Hfirst]; subst. constructor; [lia|].
      eapply Forall_impl; [exact Hfirst|]. done.
    - cbn [BacktestRunner.env]. apply logged_setup. }
  clearbody st. destruct Hl as [t Hl].
  pose proof (logged_forceCloseAll id t price _ Hl) as (b & Hb & Hlog).
  set (e5 := BacktestEnvironment.forceCloseAll price (BacktestRunner.env st)) in *.
  clearbody e5. env_cbn. rewrite Hb. simpl.
  match goal with
  | |- context [EventBus.emit ?ty ?p b] =>
      pose proof (logOrdered_emit id t ty p b Hlog) as (_ & _ & _ & Hall & Hsorted' & _);
      destruct Hlog as (Hf & Hid & _ & _ & _ & (e0 & rest0 & Hlog0 & Hty0));
      destruct (applyBusOp_handedOver b (BusEmit ty p) Hf) as (_ & _ & _ & Hh);
      simpl in Hh
  end.
  eexists _, e0, rest0, _. split; [reflexivity|]. rewrite Hh, Hlog0.
  split; [done|]. split; [done|]. split; [done|].
  rewrite <- Hlog0, <- Hh. split; [|done].
  eapply Forall_impl; [exact Hall|]. by intros ? [? _].
Qed.

(** ** Examples *)


(** The run over four candles: two trades, one won and one tied, and
    a pnl of 17 added up by the runner; the ledger has the tie as its
    one loss. *)
Lemma run_result_agrees_with_the_books_witness :
  ∃ o, exampleRun = inr o ∧
    BacktestRunner.trades (BacktestRunner.outcomeResult o) = 2 ∧
    BacktestRunner.wins (BacktestRunner.outcomeResult o) = 1 ∧
    BacktestRunner.losses (BacktestRunner.outcomeResult o) = 0 ∧
    this (BacktestRunner.tallyPnl
            (BacktestRunner.tally (BacktestEnvironment.resolved (BacktestRunner.finalEnv o)))) =
      17%Q ∧
    EnvironmentState.lossCount (BacktestEnvironment.state (BacktestRunner.finalEnv o)) = 1 ∧
    BacktestRunner.trades (BacktestRunner.outcomeResult o) =
      EnvironmentState.closedCount (BacktestEnvironment.state (BacktestRunner.finalEnv o)).
Proof.
  assert (Hrun : ∃ o, exampleRun = inr o ∧
    BacktestRunner.trades (BacktestRunner.outcomeResult o) = 2 ∧
    BacktestRunner.wins (BacktestRunner.outcomeResult o) = 1 ∧
    BacktestRunner.losses (BacktestRunner.outcomeResult o) = 0 ∧
    this (BacktestRunner.tallyPnl
            (BacktestRunner.tally (BacktestEnvironment.resolved (BacktestRunner.finalEnv o)))) =
      17%Q ∧
    EnvironmentState.lossCount (BacktestEnvironment.state (BacktestRunner.finalEnv o)) = 1).
  { eexists. split; [vm_compute; reflexivity|]. repeat split; vm_compute; reflexivity. }
  destruct Hrun as (o & Hrun & Htrades & Hwins & Hlosses & Hbalance & Hledger). exists o.
  repeat (split; [assumption|]).
  exact (proj1 (run_result_agrees_with_the_books nat twoCalls exampleDb exampleConfig
                  exampleExternal 0%nat o Hrun)).
Defined.

(** The same run: the agent observes four times, and what it is shown
    each time is as the theorem says. *)
Lemma run_shows_the_agent_only_live_positions_witness :
  ∃ o, exampleRun = inr o ∧
    length (filter isObserved (BacktestEnvironment.hooks (BacktestRunner.finalEnv o))) = 4%nat ∧
    Forall
      (fun h =>
         match h with
         | BacktestEnvironment.Observed obs pending =>
             EnvironmentState.openPositions (Observation.state obs) =
               openPosition <$> pending ∧
             Forall (fun p => Observation.timestamp obs < Position.expiration_time p)
               (EnvironmentState.openPositions (Observation.state obs)) ∧
             buffersWithin 100 (Observation.sensors obs)
         | BacktestEnvironment.TradeResult pos => Position.status pos = "closed"
         end) (BacktestEnvironment.hooks (BacktestRunner.finalEnv o)).
Proof.
  assert (Hrun : ∃ o, exampleRun = inr o ∧
    length (filter isObserved (BacktestEnvironment.hooks (BacktestRunner.finalEnv o))) = 4%nat).
  { eexists. split; vm_compute; reflexivity. }
  destruct Hrun as (o & Hrun & Hobserved). exists o.
  split; [exact Hrun|]. split; [exact Hobserved|].
  exact (run_shows_the_agent_only_live_positions nat twoCalls exampleDb exampleConfig
           exampleExternal 0%nat o Hrun).
Defined.

(** Three candles, the second from 1.0 to 1.3 after a close at 1.1: the
    true ranges 0, 0.3 and 0.1 smoothed over a period of 2. *)
Lemma atr_is_never_negative_witness :
  let candles :=
    [minuteCandle 0 (num 11 10);
     Candle.mk 60 60 120 (num 11 10) (num 12 10) (num 10 10) (num 13 10) 0%Qc 1 60;
     minuteCandle 120 (num 11 10)] in
  this <$> ATRX.atr candles (int 2) = [0%Q; (3 # 20)%Q; (1 # 8)%Q] ∧
  Forall (fun x => (0 <= x)%Qc) (ATRX.atr candles (int 2)).
Proof.
  cbv zeta. split; [vm_compute; reflexivity|].
  apply (atr_is_never_negative
           [minuteCandle 0 (num 11 10);
            Candle.mk 60 60 120 (num 11 10) (num 12 10) (num 10 10) (num 13 10) 0%Qc 1 60;
            minuteCandle 120 (num 11 10)] (int 2)).
  by vm_compute.
Defined.

(** The events of the run over four candles, by type and time stamp. *)
Lemma run_event_log_is_ordered_witness :
  ∃ o bus, exampleRun = inr o ∧
    BacktestEnvironment.eventBus (BacktestRunner.finalEnv o) = Some bus ∧
    (fun e => (EventBus.type e, EventBus.timestamp e)) <$> handedOver bus =
      [("run:started", 0); ("action:executed", 0); ("position:changed", 0);
       ("trade:placed", 0); ("wallet:changed", 0); ("action:executed", 0);
       ("position:changed", 60); ("trade:closed", 60); ("wallet:changed", 60);
       ("position:changed", 60); ("trade:placed", 60); ("wallet:changed", 60);
       ("action:executed", 60); ("position:changed", 120); ("trade:closed", 120);
       ("run:stopped", 180)] ∧
    StronglySorted notLater (handedOver bus).
Proof.
  assert (Hrun : ∃ o, exampleRun = inr o) by (eexists; vm_compute; reflexivity).
  destruct Hrun as (o & Hrun).
  destruct (run_event_log_is_ordered nat twoCalls exampleDb exampleConfig exampleExternal
              0%nat o Hrun) as (bus & started & middle & stopped & Hbus & _ & _ & _ & _ & Hsorted).
  exists o, bus. split; [exact Hrun|]. split; [exact Hbus|]. split; [|exact Hsorted].
  revert Hrun Hbus. vm_compute. intros Hrun. injection Hrun as <-. 
  intros Hbus. injection Hbus as <-. reflexivity.
Defined.
